(** * ppadb.command.transport: a shallow embedding of the [Transport] commands

    The development follows [ppadb/command/transport/__init__.py]: the
    Python primitives the commands rely on ([Py]), the connection
    capability ([Conn]), the regular expressions of the line parsers
    ([Re]), the commands themselves ([Transport]) and the boot-readiness
    poller with its clock ([Poller]), the regular expressions with
    classes and alternatives ([Rx]) and the remaining commands
    ([Commands]); then the vocabulary of the statements ([Wire], [Lines],
    [Samples]) and the properties of the shell-v2 demultiplexer, the
    poller, the administrative commands, the line parsers, [screencap],
    [clear], [list_packages], [list_features], [get_properties] and the
    raw channels. *)

From Stdlib Require Import ZArith NArith List Bool Lia QArith Qround Lqa.
From Stdlib.Strings Require Import String Ascii Byte.
From stdpp Require Import base option list gmap.
Import ListNotations.

Local Open Scope N_scope.

(** Python [str]: a sequence of Unicode code points. *)
Abbreviation text := (list N).

(** Python [bytes]. *)
Abbreviation bytes := (list byte).

(* ===================================================================== *)
(** ** Python primitives *)
(* ===================================================================== *)

Module Py.

(** An ASCII literal as a [str]. *)
Fixpoint str (s : string) : text :=
  match s with
  | EmptyString => []
  | String a s' => N_of_ascii a :: str s'
  end.

Definition LF : N := 10.
Definition CR : N := 13.

(** [len(x)] as a Python integer. *)
Definition len {A} (l : list A) : N := N.of_nat (length l).

(** [int.from_bytes(data, "little")]. *)
Fixpoint int_from_bytes_little (data : bytes) : N :=
  match data with
  | [] => 0
  | b :: data' => Byte.to_N b + 256 * int_from_bytes_little data'
  end.

(** [str.isspace] on one code point, the set used by [str.strip()] and
    [str.split()] without arguments. *)
Definition isspace (c : N) : bool :=
  ((9 <=? c) && (c <=? 13)) || ((28 <=? c) && (c <=? 32))
  || (c =? 133) || (c =? 160) || (c =? 5760)
  || ((8192 <=? c) && (c <=? 8202))
  || (c =? 8232) || (c =? 8233) || (c =? 8239) || (c =? 8287) || (c =? 12288).

Fixpoint lstrip (s : text) : text :=
  match s with
  | [] => []
  | c :: s' => if isspace c then lstrip s' else s
  end.

Definition rstrip (s : text) : text := rev (lstrip (rev s)).

(** [s.strip()]. *)
Definition strip (s : text) : text := rstrip (lstrip s).

(** [s.split(sep)] for a one-character separator: never empty, and empty
    pieces are kept. *)
Fixpoint split_on (sep : N) (s : text) : list text :=
  match s with
  | [] => [[]]
  | c :: s' =>
      if c =? sep then [] :: split_on sep s'
      else match split_on sep s' with
           | piece :: pieces => (c :: piece) :: pieces
           | [] => [[c]]
           end
  end.

(** [s.split()]: the maximal runs of non-whitespace characters; [cur] is
    the run being read, newest character first. *)
Fixpoint split_ws_from (cur : text) (s : text) : list text :=
  match s with
  | [] => match cur with [] => [] | _ => [rev cur] end
  | c :: s' =>
      if isspace c
      then match cur with
           | [] => split_ws_from [] s'
           | _ => rev cur :: split_ws_from [] s'
           end
      else split_ws_from (c :: cur) s'
  end.

Definition split_ws (s : text) : list text := split_ws_from [] s.

(** [s.startswith(p)], returning the rest of [s] after the prefix. *)
Fixpoint strip_prefix (p s : text) : option text :=
  match p, s with
  | [], _ => Some s
  | a :: p', b :: s' => if a =? b then strip_prefix p' s' else None
  | _ :: _, [] => None
  end.

(** [needle in hay]. *)
Fixpoint contains (needle hay : text) : bool :=
  match strip_prefix needle hay with
  | Some _ => true
  | None => match hay with
            | [] => false
            | _ :: hay' => contains needle hay'
            end
  end.

(** A UTF-8 continuation byte, 10xxxxxx. *)
Definition is_cont (b : N) : bool := (128 <=? b) && (b <? 192).

(** [bytes.decode("utf-8")] in strict mode over byte values: [None] is
    [UnicodeDecodeError].  Overlong forms, surrogates, code points above
    U+10FFFF and truncated sequences are rejected. *)
Fixpoint utf8_points (bs : list N) : option text :=
  match bs with
  | [] => Some []
  | b0 :: r0 =>
      if b0 <? 128 then
        match utf8_points r0 with Some t => Some (b0 :: t) | None => None end
      else if b0 <? 194 then None
      else if b0 <? 224 then
        match r0 with
        | b1 :: r1 =>
            if is_cont b1 then
              match utf8_points r1 with
              | Some t => Some ((b0 - 192) * 64 + (b1 - 128) :: t)
              | None => None
              end
            else None
        | _ => None
        end
      else if b0 <? 240 then
        match r0 with
        | b1 :: b2 :: r2 =>
            let cp := (b0 - 224) * 4096 + (b1 - 128) * 64 + (b2 - 128) in
            if is_cont b1 && is_cont b2 && (2048 <=? cp)
               && negb ((55296 <=? cp) && (cp <=? 57343)) then
              match utf8_points r2 with
              | Some t => Some (cp :: t)
              | None => None
              end
            else None
        | _ => None
        end
      else if b0 <? 245 then
        match r0 with
        | b1 :: b2 :: b3 :: r3 =>
            let cp := (b0 - 240) * 262144 + (b1 - 128) * 4096
                      + (b2 - 128) * 64 + (b3 - 128) in
            if is_cont b1 && is_cont b2 && is_cont b3
               && (65536 <=? cp) && (cp <=? 1114111) then
              match utf8_points r3 with
              | Some t => Some (cp :: t)
              | None => None
              end
            else None
        | _ => None
        end
      else None
  end.

Definition decode_utf8 (data : bytes) : option text :=
  utf8_points (map Byte.to_N data).

(** The byte with value [n mod 256]. *)
Definition byte_of_N (n : N) : byte :=
  match Byte.of_N (n mod 256) with
  | Some b => b
  | None => Byte.x00
  end.

(** [s.encode()] of an ASCII literal. *)
Definition ascii_bytes (s : string) : bytes := map byte_of_N (str s).

End Py.

(* ===================================================================== *)
(** ** The connection capability *)
(* ===================================================================== *)

Module Conn.

(** The exceptions that reach the caller of a command. *)
Inductive exn : Type :=
| UnicodeDecodeError
| ValueError
| TypeError
| NotImplementedError
| TimeoutError
| AttributeError
| RuntimeError (msg : text)
| OSError.

(** How a call ends.  [Unfinished] is reserved for a loop whose
    iteration bound ran out before the call ended. *)
Inductive outcome (A : Type) : Type :=
| Return (a : A)
| Raise (e : exn)
| Unfinished.

Arguments Return {A} a.
Arguments Raise {A} e.
Arguments Unfinished {A}.

(** Modelled from the spec: the connection class lives outside this
    module; the spec gives its interface as send(text), read(n) -> bytes
    (possibly short), read_all() -> bytes, receive() -> text (one complete
    framed response), close() and scoped-resource semantics.  A connection
    is described by what the peer will deliver: [inbox] holds the bytes
    that arrive before the stream ends, [pieces] the sizes of the pieces
    in which they arrive, first piece first (what lies beyond the listed
    pieces arrives as one piece), [fault] tells whether the stream ends
    with a socket failure rather than an orderly end of stream, [replies]
    holds the framed responses still to come; [sent] logs the lines sent
    and [closed] records whether close() has run. *)
Record connection : Type := {
  sent : list text;
  inbox : bytes;
  pieces : list positive;
  fault : bool;
  replies : list text;
  closed : bool
}.

(** A freshly created connection to a peer that delivers [data] in one
    piece and then ends the stream. *)
Definition fresh (data : bytes) : connection :=
  {| sent := []; inbox := data; pieces := []; fault := false; replies := [];
     closed := false |}.

(** Code that runs against the connection created by
    [self.create_connection()]. *)
Definition M (A : Type) : Type := connection -> outcome A * connection.

Definition ret {A} (a : A) : M A := fun c => (Return a, c).

Definition raise {A} (e : exn) : M A := fun c => (Raise e, c).

Definition bind {A B} (m : M A) (k : A -> M B) : M B :=
  fun c =>
    match m c with
    | (Return a, c') => k a c'
    | (Raise e, c') => (Raise e, c')
    | (Unfinished, c') => (Unfinished, c')
    end.

Declare Scope conn_scope.
Delimit Scope conn_scope with conn.
Notation "'let*' x ':=' m 'in' k" := (bind m (fun x => k))
  (at level 10, x name, m at level 100, k at level 200) : conn_scope.
Local Open Scope conn_scope.

(** The connection after the peer's pending bytes changed to [data],
    arriving in one piece. *)
Definition set_inbox (data : bytes) (c : connection) : connection :=
  {| sent := sent c; inbox := data; pieces := []; fault := fault c;
     replies := replies c; closed := closed c |}.

(** The connection after the peer's pending bytes changed to [data],
    arriving in the pieces [ps]. *)
Definition set_stream (data : bytes) (ps : list positive) (c : connection)
  : connection :=
  {| sent := sent c; inbox := data; pieces := ps; fault := fault c;
     replies := replies c; closed := closed c |}.

(** [conn.send(cmd)]. *)
Definition send (cmd : text) : M unit :=
  fun c => (Return tt,
            {| sent := sent c ++ [cmd]; inbox := inbox c; pieces := pieces c;
               fault := fault c; replies := replies c; closed := closed c |}).

(** How a read that meets the end of the stream ends: with what it
    found, or with the failure of the socket. *)
Definition at_end {A} (c : connection) (a : A) : outcome A :=
  if fault c then Raise OSError else Return a.

(** The number of bytes a read of up to [n] bytes gets when the stream
    arrives in the pieces [ps]: no more than the first piece holds. *)
Definition served (n : N) (ps : list positive) : N :=
  match ps with
  | [] => n
  | p :: _ => N.min n (N.pos p)
  end.

(** The pieces still to come once [k] bytes of the first were read. *)
Definition pieces_after (k : N) (ps : list positive) : list positive :=
  match ps with
  | [] => []
  | p :: ps' =>
      match N.pos p - k with
      | N0 => ps'
      | N.pos q => q :: ps'
      end
  end.

(** [conn.read(n)]: up to [n] of the bytes that have arrived, possibly
    fewer than [n]; no byte at all only when the stream has ended, and
    then a failure when it ended with a socket failure. *)
Definition read (n : N) : M bytes :=
  fun c =>
    match inbox c, n with
    | [], N.pos _ => (at_end c [], c)
    | _, _ =>
        let k := served n (pieces c) in
        (Return (take (N.to_nat k) (inbox c)),
         set_stream (drop (N.to_nat k) (inbox c)) (pieces_after k (pieces c)) c)
    end.

(** [conn.read_all()]: everything up to the end of the stream. *)
Definition read_all : M bytes :=
  fun c =>
    if fault c then (Raise OSError, set_inbox [] c)
    else (Return (inbox c), set_inbox [] c).

(** [conn.receive()]: one complete framed response. *)
Definition receive : M text :=
  fun c =>
    match replies c with
    | r :: rs =>
        (Return r,
         {| sent := sent c; inbox := inbox c; pieces := pieces c;
            fault := fault c; replies := rs; closed := closed c |})
    | [] => (Raise OSError, c)
    end.

(** [conn.close()]. *)
Definition close : M unit :=
  fun c => (Return tt,
            {| sent := sent c; inbox := inbox c; pieces := pieces c;
               fault := fault c; replies := replies c; closed := true |}).

(** [with conn: body]: the connection is closed however [body] ends. *)
Definition with_conn {A} (body : M A) : M A :=
  fun c =>
    let (r, c') := body c in
    (r, snd (close c')).

(** [data.decode("utf-8")]. *)
Definition decode (data : bytes) : M text :=
  match Py.decode_utf8 data with
  | Some t => ret t
  | None => raise UnicodeDecodeError
  end.

(** One round of a [while True:] body. *)
Inductive step (V : Type) : Type :=
| Break
| Continue (v : V).

Arguments Break {V}.
Arguments Continue {V} v.

(** [while True: body], cut off after [fuel] rounds. *)
Fixpoint while_true {V} (fuel : nat) (body : V -> M (step V)) (v : V) : M V :=
  match fuel with
  | O => fun c => (Unfinished, c)
  | S fuel' =>
      let* s := body v in
      match s with
      | Break => ret v
      | Continue v' => while_true fuel' body v'
      end
  end.

(** A computation that leaves the connection open or closed as it found
    it. *)
Definition never_closes {A} (m : M A) : Prop :=
  forall c, closed (snd (m c)) = closed c.

(** A computation that does nothing to the stream but take bytes off its
    head. *)
Definition reads_ahead {A} (m : M A) : Prop :=
  forall c, exists pre, inbox c = pre ++ inbox (snd (m c)).

End Conn.

(* ===================================================================== *)
(** ** Regular expressions of the line parsers *)
(* ===================================================================== *)

Module Re.

(** The constructs the patterns of this module use. *)
Inductive regex : Type :=
| Lit (l : text)                (* literal characters *)
| LazyAny                       (* .*?  *)
| Group (i : nat) (r : regex)   (* ( r ), capture group number i *)
| Opt (r : regex)               (* (?: r )?  *)
| Seq (r1 r2 : regex)           (* r1 r2 *)
| Eol.                          (* $ *)

(** A match object: the text captured by each group that took part. *)
Abbreviation groups := (gmap nat text).

(** Backtracking matcher: [run r s g k] matches [r] at the head of [s]
    and hands the rest of the input to [k]; alternatives are tried in the
    order of Python's [re]: a lazy star tries the shortest repetition
    first, an optional item is tried before it is skipped. *)
Fixpoint run (r : regex) (s : text) (g : groups)
    (k : text -> groups -> option groups) : option groups :=
  match r with
  | Lit l =>
      match Py.strip_prefix l s with
      | Some s' => k s' g
      | None => None
      end
  | LazyAny =>
      (fix lazy (s : text) : option groups :=
         match k s g with
         | Some m => Some m
         | None =>
             match s with
             | [] => None
             | c :: s' => if c =? Py.LF then None else lazy s'
             end
         end) s
  | Group i r' =>
      run r' s g
        (fun s' g' => k s' (<[i := take (length s - length s') s]> g'))
  | Opt r' =>
      match run r' s g k with
      | Some m => Some m
      | None => k s g
      end
  | Seq r1 r2 => run r1 s g (fun s' g' => run r2 s' g' k)
  | Eol =>
      match s with
      | [] => k s g
      | [c] => if c =? Py.LF then k s g else None
      | _ => None
      end
  end.

(** [re.match(pattern, line)]. *)
Definition match_ (pattern : regex) (line : text) : option groups :=
  run pattern line ∅ (fun _ g => Some g).

(** [m.group(i)]; [None] when the group took no part in the match. *)
Definition group (m : groups) (i : nat) : option text := m !! i.

End Re.

(* ===================================================================== *)
(** ** The commands *)
(* ===================================================================== *)

Module ShellProtocolTypes.
Definition STDIN : N := 0.
Definition STDOUT : N := 1.
Definition STDERR : N := 2.
Definition EXIT : N := 3.
Definition CLOSE_STDIN : N := 4.
Definition WINDOW_SIZE_CHANGE : N := 5.
Definition INVALID : N := 255.
End ShellProtocolTypes.

Module Transport.
Import Conn.
Local Open Scope conn_scope.

(** [shell(cmd, handler=None, timeout=None)]; the result is [None] when
    the connection was handed to [handler]. *)
Definition shell (cmd : text) (handler : option (M unit)) : M (option text) :=
  let cmd := Py.str "shell:" ++ cmd in
  let* _ := send cmd in
  match handler with
  | Some handler =>
      let* _ := handler in
      ret None
  | None =>
      let* result := read_all in
      let* _ := close in
      let* t := decode result in
      ret (Some t)
  end.

(** The inner [read_int(conn, length)] of [shell_v2]. *)
Definition read_int (length : N) : M (option N) :=
  let* data := read length in
  if Py.len data <? length then ret None
  else ret (Some (Py.int_from_bytes_little data)).

(** The local variables of the frame loop of [shell_v2].  Python binds
    [output] only for merged output and [stdout], [stderr] only for
    separate streams; the unbound ones are never read. *)
Record locals : Type := {
  output : text;
  stdout : text;
  stderr : text;
  exit_code : N
}.

(** What [shell_v2] returns without a handler: [(output, exit_code)] or
    [(stdout, stderr, exit_code)]. *)
Inductive shell_v2_result : Type :=
| Merged (output : text) (exit_code : N)
| Separate (stdout stderr : text) (exit_code : N).

(** The [if]/[elif] chain that ends a round of the frame loop. *)
Definition dispatch (separate_stdout_stderr : bool) (v : locals)
    (id_ : N) (data : bytes) : M (step locals) :=
  if negb separate_stdout_stderr
     && ((id_ =? ShellProtocolTypes.STDOUT)
         || (id_ =? ShellProtocolTypes.STDERR)) then
    let* t := decode data in
    ret (Continue {| output := output v ++ t; stdout := stdout v;
                     stderr := stderr v; exit_code := exit_code v |})
  else if id_ =? ShellProtocolTypes.STDOUT then
    let* t := decode data in
    ret (Continue {| output := output v; stdout := stdout v ++ t;
                     stderr := stderr v; exit_code := exit_code v |})
  else if id_ =? ShellProtocolTypes.STDERR then
    let* t := decode data in
    ret (Continue {| output := output v; stdout := stdout v;
                     stderr := stderr v ++ t; exit_code := exit_code v |})
  else if id_ =? ShellProtocolTypes.EXIT then
    ret (Continue {| output := output v; stdout := stdout v;
                     stderr := stderr v;
                     exit_code := Py.int_from_bytes_little data |})
  else ret (Continue v).

(** One round of the [while True:] loop of [shell_v2]. *)
Definition shell_v2_round (separate_stdout_stderr : bool) (v : locals)
  : M (step locals) :=
  let* id_ := read_int 1 in
  match id_ with
  | None => ret Break
  | Some id_ =>
      let* length := read_int 4 in
      match length with
      | None => ret Break
      | Some length =>
          let* data := read length in
          if Py.len data <? length then ret Break
          else dispatch separate_stdout_stderr v id_ data
      end
  end.

(** The number of bytes still to arrive; every completed round of the
    frame loop takes at least five of them, which bounds the loop. *)
Definition pending : M nat := fun c => (Return (length (inbox c)), c).

Definition shell_v2_start : locals :=
  {| output := []; stdout := []; stderr := []; exit_code := 255 |}.

(** [shell_v2(cmd, handler=None, separate_stdout_stderr=False, timeout=None)]. *)
Definition shell_v2 (cmd : text) (handler : option (M unit))
    (separate_stdout_stderr : bool) : M (option shell_v2_result) :=
  let cmd := Py.str "shell,v2:" ++ cmd in
  let* _ := send cmd in
  match handler with
  | Some handler =>
      let* _ := handler in
      ret None
  | None =>
      let* bound := pending in
      let* v := while_true (S bound) (shell_v2_round separate_stdout_stderr)
                  shell_v2_start in
      if separate_stdout_stderr
      then ret (Some (Separate (stdout v) (stderr v) (exit_code v)))
      else ret (Some (Merged (output v) (exit_code v)))
  end.

(** Python objects met by [raise NotImplemented()]. *)
Inductive pyobj : Type :=
| PyNotImplemented                 (* the builtin constant NotImplemented *)
| PyExceptionClass (e : exn)       (* an exception class *)
| PyException (e : exn).           (* an exception instance *)

(** [f()]: only classes are callable among these objects. *)
Definition call (f : pyobj) : M pyobj :=
  match f with
  | PyExceptionClass e => ret (PyException e)
  | PyNotImplemented | PyException _ => raise TypeError
  end.

(** [raise o]: [o] must be an exception class or instance. *)
Definition raise_object {A} (o : pyobj) : M A :=
  match o with
  | PyExceptionClass e | PyException e => raise e
  | PyNotImplemented => raise TypeError
  end.

(** [framebuffer()]: [raise NotImplemented()]. *)
Definition framebuffer : M unit :=
  let* o := call PyNotImplemented in
  raise_object o.

(** [logcat(clear=False)]: [raise NotImplemented()]. *)
Definition logcat (clear : bool) : M unit :=
  let* o := call PyNotImplemented in
  raise_object o.

(** A value of the feature dictionary: [True] or a string. *)
Inductive feature_value : Type :=
| FTrue
| FStr (value : text).

(** ["^feature:(.*?)(?:=(.*?))?\r?$"] *)
Definition features_pattern : Re.regex :=
  Re.Seq (Re.Lit (Py.str "feature:"))
    (Re.Seq (Re.Group 1 Re.LazyAny)
       (Re.Seq (Re.Opt (Re.Seq (Re.Lit (Py.str "=")) (Re.Group 2 Re.LazyAny)))
          (Re.Seq (Re.Opt (Re.Lit [Py.CR])) Re.Eol))).

(** The body of the [for line in ...] loop of [list_features].  Group 1
    takes part in every match of the pattern. *)
Definition add_feature (features : gmap text feature_value) (line : text)
  : gmap text feature_value :=
  match Re.match_ features_pattern line with
  | Some m =>
      let value := match Re.group m 2 with
                   | None => FTrue
                   | Some v => FStr v
                   end in
      match Re.group m 1 with
      | Some name => <[name := value]> features
      | None => features
      end
  | None => features
  end.

Definition parse_features (result : text) : gmap text feature_value :=
  fold_left add_feature (Py.split_on Py.LF result) ∅.

(** [list_features()]. *)
Definition list_features : M (gmap text feature_value) :=
  let* result := shell (Py.str "pm list features 2>/dev/null") None in
  match result with
  | Some result => ret (parse_features result)
  | None => raise AttributeError
  end.

(** An element of the list returned by [list_reverses]. *)
Record reverse_entry : Type := {
  remote : text;
  local : text
}.

(** The [for line in result.split('\n')] loop of [list_reverses];
    unpacking anything but three tokens is a [ValueError]. *)
Fixpoint parse_reverses (lines : list text) (reverses : list reverse_entry)
  : outcome (list reverse_entry) :=
  match lines with
  | [] => Return reverses
  | line :: lines' =>
      match line with
      | [] => parse_reverses lines' reverses
      | _ =>
          match Py.split_ws line with
          | [_serial; remote; local] =>
              parse_reverses lines'
                (reverses ++ [{| remote := remote; local := local |}])
          | _ => Raise ValueError
          end
      end
  end.

(** [list_reverses()]. *)
Definition list_reverses : M (list reverse_entry) :=
  let* result := with_conn
                   (let cmd := Py.str "reverse:list-forward" in
                    let* _ := send cmd in
                    receive) in
  fun c => (parse_reverses (Py.split_on Py.LF result) [], c).

Definition root_phrase : text := Py.str "restarting adbd as root".

(** [root()]. *)
Definition root : M bool :=
  with_conn
    (let* _ := send (Py.str "root:") in
     let* data := read_all in
     let* result := decode data in
     if Py.contains root_phrase result then ret true
     else raise (RuntimeError (Py.strip result))).

(** What the daemon of a production build answers to [root:]. *)
Definition refusal : bytes :=
  Py.ascii_bytes "adbd cannot run as root in production builds" ++ [Byte.x0a].

End Transport.

(* ===================================================================== *)
(** ** The boot-readiness poller *)
(* ===================================================================== *)

Module Poller.
Import Conn.
Local Open Scope Q_scope.

(** What the poller does to the outside world, in order. *)
Inductive event : Type :=
| Query (cmd : text)          (* self.shell(cmd) *)
| Warning (e : exn)           (* logger.warning(e) *)
| Clock (t : Q)               (* time.time() returned t *)
| Sleep (secs : Q).           (* time.sleep(secs) *)

(** The device and the host the poller runs on: how the n-th call of
    [self.shell] ends and how many seconds it takes, and by how much the
    n-th [time.sleep] oversleeps. *)
Record device : Type := {
  answer : nat -> outcome (option text);
  latency : nat -> Q;
  oversleep : nat -> Q
}.

(** The wall clock in seconds, the number of shell calls and sleeps so
    far, and the events so far, oldest first. *)
Record world : Type := {
  now : Q;
  calls : nat;
  naps : nat;
  log : list event
}.

Definition shell_call (dev : device) (cmd : text) (w : world)
  : outcome (option text) * world :=
  (answer dev (calls w),
   {| now := now w + latency dev (calls w); calls := S (calls w);
      naps := naps w; log := log w ++ [Query cmd] |}).

Definition time_time (w : world) : Q * world :=
  (now w,
   {| now := now w; calls := calls w; naps := naps w;
      log := log w ++ [Clock (now w)] |}).

Definition time_sleep (dev : device) (secs : Q) (w : world) : world :=
  {| now := now w + secs + oversleep dev (naps w); calls := calls w;
     naps := S (naps w); log := log w ++ [Sleep secs] |}.

Definition logger_warning (e : exn) (w : world) : world :=
  {| now := now w; calls := calls w; naps := naps w;
     log := log w ++ [Warning e] |}.

(** The exceptions [except RuntimeError] catches: the class and its
    subclasses. *)
Definition is_RuntimeError (e : exn) : bool :=
  match e with
  | RuntimeError _ | NotImplementedError => true
  | _ => false
  end.

Definition cmd : text := Py.str "getprop sys.boot_completed".

(** The [while True:] loop of [wait_boot_complete], cut off after [fuel]
    rounds. *)
Fixpoint wait_loop (fuel : nat) (dev : device) (end_time timedelta : Q)
    (w : world) : outcome bool * world :=
  match fuel with
  | O => (Unfinished, w)
  | S fuel' =>
      match shell_call dev cmd w with
      | (Raise e, w1) =>
          if is_RuntimeError e
          then wait_loop fuel' dev end_time timedelta (logger_warning e w1)
          else (Raise e, w1)
      | (Unfinished, w1) => (Unfinished, w1)
      | (Return None, w1) => (Raise AttributeError, w1)
      | (Return (Some result), w1) =>
          if bool_decide (Py.strip result = Py.str "1") then (Return true, w1)
          else
            let (t, w2) := time_time w1 in
            if Qlt_le_dec end_time t then (Raise TimeoutError, w2)
            else if Qlt_le_dec 0 timedelta
                 then wait_loop fuel' dev end_time timedelta
                        (time_sleep dev timedelta w2)
                 else wait_loop fuel' dev end_time timedelta w2
      end
  end.

(** [wait_boot_complete(timeout=60, timedelta=1)].  The clock readings
    and the timeout are rational numbers, and [time.time() + timeout] is
    their exact sum. *)
Definition wait_boot_complete (fuel : nat) (dev : device)
    (timeout timedelta : Q) (w : world) : outcome bool * world :=
  let (t0, w0) := time_time w in
  let end_time := t0 + timeout in
  wait_loop fuel dev end_time timedelta w0.

(** The readings of the clock among the events. *)
Fixpoint clock_readings (l : list event) : list Q :=
  match l with
  | [] => []
  | Clock t :: l' => t :: clock_readings l'
  | _ :: l' => clock_readings l'
  end.

(** The world after one more query. *)
Definition asked (dev : device) (w : world) : world := snd (shell_call dev cmd w).

(** The world after a query that found the device not ready and the look
    at the clock that follows. *)
Definition looked (dev : device) (w : world) : world :=
  snd (time_time (asked dev w)).

(** The events of a retry after a failed query. *)
Definition is_retry (e : event) : bool :=
  match e with Query _ | Warning _ => true | _ => false end.

(** The world at the start of a run. *)
Definition start : world := {| now := 0; calls := 0; naps := 0; log := [] |}.

(** A device that is never ready and answers at once. *)
Definition instant : device :=
  {| answer := fun _ => Return (Some (Py.str "0"));
     latency := fun _ => 0; oversleep := fun _ => 0 |}.

(** A device that is never ready and takes three seconds to answer. *)
Definition slow : device :=
  {| answer := fun _ => Return (Some (Py.str "0"));
     latency := fun _ => 3; oversleep := fun _ => 0 |}.

(** A device every query to which fails with a [RuntimeError]. *)
Definition offline : device :=
  {| answer := fun _ => Raise (RuntimeError (Py.str "device offline"));
     latency := fun _ => 0; oversleep := fun _ => 0 |}.

End Poller.

(* ===================================================================== *)
(** ** Shell-v2 frames on the wire *)
(* ===================================================================== *)

Module Wire.

(** A frame as the device writes it: one id byte, the payload length as
    four little-endian bytes, the payload. *)
Record frame : Type := {
  fid : byte;
  payload : bytes
}.

Definition le32 (n : N) : bytes :=
  [Py.byte_of_N n; Py.byte_of_N (n / 256); Py.byte_of_N (n / 65536);
   Py.byte_of_N (n / 16777216)].

Definition frame_bytes (f : frame) : bytes :=
  fid f :: le32 (Py.len (payload f)) ++ payload f.

Definition wire (fs : list frame) : bytes := flat_map frame_bytes fs.

(** The payload length fits the 32-bit length field. *)
Definition fits (f : frame) : Prop := Py.len (payload f) < 4294967296.

(** The frame with id [id] and payload [data]. *)
Definition mk (id : N) (data : bytes) : frame :=
  {| fid := Py.byte_of_N id; payload := data |}.

(** What is left of a stream that ends inside a frame: no byte at all,
    an incomplete header, or fewer payload bytes than the header
    declares. *)
Definition truncated (tail : bytes) : bool :=
  match tail with
  | _ :: b0 :: b1 :: b2 :: b3 :: data =>
      Py.len data <? Py.int_from_bytes_little [b0; b1; b2; b3]
  | _ => true
  end.

(** The decoded payloads, in arrival order, of the frames whose id
    satisfies [want]; [None] when one of them is not UTF-8. *)
Fixpoint gather (want : N -> bool) (fs : list frame) : option text :=
  match fs with
  | [] => Some []
  | f :: fs' =>
      if want (Byte.to_N (fid f)) then
        match Py.decode_utf8 (payload f), gather want fs' with
        | Some t, Some ts => Some (t ++ ts)
        | _, _ => None
        end
      else gather want fs'
  end.

Definition is_stdout (id : N) : bool := id =? ShellProtocolTypes.STDOUT.
Definition is_stderr (id : N) : bool := id =? ShellProtocolTypes.STDERR.
Definition is_output (id : N) : bool := is_stdout id || is_stderr id.

(** The exit code after the frames [fs], starting from [code]: the
    payload of the last EXIT frame, if any. *)
Fixpoint exit_after (code : N) (fs : list frame) : N :=
  match fs with
  | [] => code
  | f :: fs' =>
      exit_after
        (if Byte.to_N (fid f) =? ShellProtocolTypes.EXIT
         then Py.int_from_bytes_little (payload f) else code)
        fs'
  end.

(** Every STDOUT and STDERR payload is UTF-8 text. *)
Definition decodable (fs : list frame) : Prop :=
  Forall (fun f => is_output (Byte.to_N (fid f)) = true ->
                   is_Some (Py.decode_utf8 (payload f))) fs.

(** Some frame is an EXIT frame. *)
Definition has_exit (fs : list frame) : bool :=
  existsb (fun f => Byte.to_N (fid f) =? ShellProtocolTypes.EXIT) fs.

(** The frames (STDOUT,"A"), (STDERR,"B"), (EXIT,[code]). *)
Definition a_b_exit (code : bytes) : list frame :=
  [mk ShellProtocolTypes.STDOUT (Py.ascii_bytes "A");
   mk ShellProtocolTypes.STDERR (Py.ascii_bytes "B");
   mk ShellProtocolTypes.EXIT code].

(** A frame that declares ten payload bytes, cut after three. *)
Definition cut_frame : bytes :=
  [Byte.x01; Byte.x0a; Byte.x00; Byte.x00; Byte.x00] ++ Py.ascii_bytes "abc".

(** A whole STDOUT frame whose payload is the single byte 0xFF, then the
    cut frame. *)
Definition bad_text_then_cut : bytes :=
  wire [mk ShellProtocolTypes.STDOUT [Byte.xff]] ++ cut_frame.

(** The ids the frame loop reads past without any effect. *)
Definition ignored (id : N) : Prop :=
  id = ShellProtocolTypes.STDIN \/ id = ShellProtocolTypes.CLOSE_STDIN
  \/ id = ShellProtocolTypes.WINDOW_SIZE_CHANGE
  \/ id = ShellProtocolTypes.INVALID.

(** A read of [n] bytes finds them all arrived when the stream arrives in
    the pieces [ps]: the first piece holds at least [n] bytes. *)
Definition in_full (n : N) (ps : list positive) : bool :=
  match ps with
  | [] => true
  | p :: _ => n <=? N.pos p
  end.

(** The frame [f] arrives whole: its length and its payload each lie in
    one piece. *)
Definition arrives (f : frame) (ps : list positive) : bool :=
  in_full 4 (Conn.pieces_after 1 ps)
  && in_full (Py.len (payload f))
       (Conn.pieces_after 4 (Conn.pieces_after 1 ps)).

(** The pieces still to come once the frame [f] was read, id, length and
    payload. *)
Definition past (f : frame) (ps : list positive) : list positive :=
  Conn.pieces_after (Py.len (payload f))
    (Conn.pieces_after 4 (Conn.pieces_after 1 ps)).

(** The frames of [fs] up to the first that does not arrive whole. *)
Fixpoint taken (fs : list frame) (ps : list positive) : list frame :=
  match fs with
  | [] => []
  | f :: fs' => if arrives f ps then f :: taken fs' (past f ps) else []
  end.

(** The offsets in the stream at which a piece ends. *)
Fixpoint cuts (ps : list positive) : list N :=
  match ps with
  | [] => []
  | p :: ps' => N.pos p :: map (N.add (N.pos p)) (cuts ps')
  end.

(** The offsets in the stream [wire fs] at which an id, a length or a
    payload ends. *)
Fixpoint ends (fs : list frame) : list N :=
  match fs with
  | [] => []
  | f :: fs' =>
      let n := 5 + Py.len (payload f) in
      1 :: 5 :: n :: map (N.add n) (ends fs')
  end.

(** No piece ends inside a length or inside a payload of the frames
    [fs]: every piece ends where an id, a length or a payload ends, or
    beyond the frames. *)
Definition unsplit (fs : list frame) (ps : list positive) : Prop :=
  forall x, x ∈ cuts ps -> x ∈ ends fs \/ Py.len (wire fs) < x.

(** The stream [data], arriving in the pieces [ps], starts with a frame
    that is all there and arrives whole. *)
Definition starts_whole (data : bytes) (ps : list positive) : bool :=
  match data with
  | _ :: b0 :: b1 :: b2 :: b3 :: rest =>
      let n := Py.int_from_bytes_little [b0; b1; b2; b3] in
      (n <=? Py.len rest)
      && in_full 4 (Conn.pieces_after 1 ps)
      && in_full n (Conn.pieces_after 4 (Conn.pieces_after 1 ps))
  | _ => false
  end.

(** What the [if]/[elif] chain makes of the frames [fs], one after the
    other, starting from the locals [v]. *)
Fixpoint absorb (sep : bool) (v : Transport.locals) (fs : list frame)
  : Conn.outcome Transport.locals :=
  match fs with
  | [] => Conn.Return v
  | f :: fs' =>
      match fst (Transport.dispatch sep v (Byte.to_N (fid f)) (payload f)
                   (Conn.fresh [])) with
      | Conn.Return (Conn.Continue v') => absorb sep v' fs'
      | Conn.Return Conn.Break => Conn.Return v
      | Conn.Raise e => Conn.Raise e
      | Conn.Unfinished => Conn.Unfinished
      end
  end.

(** A freshly created connection to a peer whose [data] arrive in the
    pieces [ps]. *)
Definition arriving (data : bytes) (ps : list positive) : Conn.connection :=
  Conn.set_stream data ps (Conn.fresh []).

(** The frames (STDOUT,"A"), (STDERR,"B"), (EXIT,0) and then the end of
    the stream, on a connection where the first piece to arrive holds
    three bytes: it ends inside the length of the first frame. *)
Definition a_b_exit_split : Conn.connection :=
  arriving (wire (a_b_exit [Byte.x00])) [3%positive].

(** A WINDOW_SIZE_CHANGE frame with payload "80x24" and a STDOUT frame
    with payload "B". *)
Definition window_then_b : list frame :=
  [mk ShellProtocolTypes.WINDOW_SIZE_CHANGE (Py.ascii_bytes "80x24");
   mk ShellProtocolTypes.STDOUT (Py.ascii_bytes "B")].

(** These two frames and then the end of the stream, on a connection
    where the first piece to arrive holds seven bytes: it ends after the
    second byte of the payload of the first frame. *)
Definition window_split : Conn.connection :=
  arriving (wire window_then_b) [7%positive].

End Wire.

(* ===================================================================== *)
(** ** Lines of the parsers *)
(* ===================================================================== *)

Module Lines.
Import Conn Transport.

(** The continuation that ends a match: [re.match] does not ask the
    pattern to reach the end of the text. *)
Definition accept : text -> Re.groups -> option Re.groups := fun _ g => Some g.

(** The character [=]. *)
Definition EQUALS : N := 61.

(** The pieces of [features_pattern] after the name: the optional value
    and the end of the line. *)
Definition line_end : Re.regex := Re.Seq (Re.Opt (Re.Lit [Py.CR])) Re.Eol.

Definition value_part : Re.regex :=
  Re.Seq (Re.Lit (Py.str "=")) (Re.Group 2 Re.LazyAny).

Definition after_name : Re.regex := Re.Seq (Re.Opt value_part) line_end.

(** The rests of a line that [line_end] accepts: the end of the text,
    possibly after a carriage return and before a final line feed. *)
Definition ends_line (s : text) : bool :=
  match s with
  | [] => true
  | [c] => (c =? Py.CR) || (c =? Py.LF)
  | [c; d] => (c =? Py.CR) && (d =? Py.LF)
  | _ => false
  end.

(** A name or a value as it stands on a line: no line feed inside, no
    carriage return at the end. *)
Definition plain (s : text) : Prop := (Py.LF ∉ s) /\ last s <> Some Py.CR.

(** The output [feature:foo], [feature:bar=2], one per line, as text and
    as bytes, and the dictionary {foo: True, bar: "2"}. *)
Definition features_sample : text :=
  Py.str "feature:foo" ++ [Py.LF] ++ Py.str "feature:bar=2" ++ [Py.LF].

Definition features_sample_bytes : bytes :=
  Py.ascii_bytes "feature:foo" ++ [Byte.x0a] ++ Py.ascii_bytes "feature:bar=2"
  ++ [Byte.x0a].

Definition features_sample_result : gmap text feature_value :=
  <[Py.str "foo" := FTrue]> (<[Py.str "bar" := FStr (Py.str "2")]> ∅).

(** The entry a line of three tokens stands for: the second token is the
    remote end, the third the local end. *)
Definition entry_of (line : text) : option reverse_entry :=
  let tokens := Py.split_ws line in
  if (length tokens =? 3)%nat
  then Some {| remote := nth 1 tokens []; local := nth 2 tokens [] |}
  else None.

(** The lines [list_reverses] accepts and those it fails on. *)
Definition well_formed (line : text) : Prop :=
  line = [] \/ length (Py.split_ws line) = 3%nat.

Definition malformed (line : text) : Prop :=
  line <> [] /\ length (Py.split_ws line) <> 3%nat.

(** A reply to [reverse:list-forward] with an empty line in it. *)
Definition reverses_sample : text :=
  Py.str "emulator-5554 tcp:8080 tcp:9090" ++ [Py.LF; Py.LF]
  ++ Py.str "emulator-5554 localabstract:chrome  tcp:9222" ++ [Py.LF].

(** A freshly created connection whose peer answers with [reply]. *)
Definition listing (reply : text) : connection :=
  {| sent := []; inbox := []; pieces := []; fault := false; replies := [reply];
     closed := false |}.

End Lines.

(* ===================================================================== *)
(** ** Regular expressions with character classes and alternatives *)
(* ===================================================================== *)

Module Rx.

(** The constructs of the patterns of [clear] and [get_properties]. *)
Inductive regex : Type :=
| Lit (l : text)                  (* literal characters *)
| Lazy (cls : N -> bool)          (* [cls]*?  *)
| Group (i : nat) (r : regex)     (* ( r ), capture group number i *)
| Opt (r : regex)                 (* (?: r )?  *)
| Alt (r1 r2 : regex)             (* r1 | r2 *)
| Seq (r1 r2 : regex)             (* r1 r2 *)
| Eol.                            (* $ *)

(** [[\s\S]]: whitespace or not whitespace, that is any character. *)
Definition any (c : N) : bool := Py.isspace c || negb (Py.isspace c).

(** Backtracking matcher, in the manner of [Re.run]; of two alternatives
    the left one is tried first. *)
Fixpoint run (r : regex) (s : text) (g : gmap nat text)
    (k : text -> gmap nat text -> option (gmap nat text))
  : option (gmap nat text) :=
  match r with
  | Lit l =>
      match Py.strip_prefix l s with
      | Some s' => k s' g
      | None => None
      end
  | Lazy cls =>
      (fix lazy (s : text) : option (gmap nat text) :=
         match k s g with
         | Some m => Some m
         | None =>
             match s with
             | [] => None
             | c :: s' => if cls c then lazy s' else None
             end
         end) s
  | Group i r' =>
      run r' s g
        (fun s' g' => k s' (<[i := take (length s - length s') s]> g'))
  | Opt r' =>
      match run r' s g k with
      | Some m => Some m
      | None => k s g
      end
  | Alt r1 r2 =>
      match run r1 s g k with
      | Some m => Some m
      | None => run r2 s g k
      end
  | Seq r1 r2 => run r1 s g (fun s' g' => run r2 s' g' k)
  | Eol =>
      match s with
      | [] => k s g
      | [c] => if c =? Py.LF then k s g else None
      | _ => None
      end
  end.

(** [re.match(pattern, s)]. *)
Definition match_ (pattern : regex) (s : text) : option (gmap nat text) :=
  run pattern s ∅ (fun _ g => Some g).

(** [re.search(pattern, s)]: the match at the leftmost position that has
    one. *)
Fixpoint search (pattern : regex) (s : text) : option (gmap nat text) :=
  match match_ pattern s with
  | Some m => Some m
  | None =>
      match s with
      | [] => None
      | _ :: s' => search pattern s'
      end
  end.

(** [m.group(i)]. *)
Definition group (m : gmap nat text) (i : nat) : option text := m !! i.

End Rx.

(* ===================================================================== *)
(** ** The other commands *)
(* ===================================================================== *)

Module Commands.
Import Conn Transport.
Local Open Scope conn_scope.



(** [result.replace(b'\r\n', b'\n')]: every carriage return, line feed
    pair, found from left to right, becomes a line feed. *)
Fixpoint replace_crlf (data : bytes) : bytes :=
  match data with
  | [] => []
  | b :: rest =>
      match rest with
      | b' :: rest' =>
          if Byte.eqb b Byte.x0d && Byte.eqb b' Byte.x0a
          then Byte.x0a :: replace_crlf rest'
          else b :: replace_crlf rest
      | [] => [b]
      end
  end.

(** [result and len(result) > 5 and result[5] == 0x0d]. *)
Definition looks_translated (result : bytes) : bool :=
  match result with
  | [] => false
  | _ =>
      (5 <? Py.len result)
      && match result !! 5%nat with
         | Some b => Byte.eqb b Byte.x0d
         | None => false
         end
  end.

(** [screencap()]. *)
Definition screencap : M bytes :=
  let* result :=
    with_conn
      (let cmd := Py.str "shell:/system/bin/screencap -p" in
       let* _ := send cmd in
       read_all) in
  if looks_translated result then ret (replace_crlf result) else ret result.

(** The error [clear] raises, with the package and the message it
    carries. *)
Inductive clear_error : Type :=
| ClearError (package : text) (message : text).

(** ["(Success|Failed)"] *)
Definition clear_result_pattern : Rx.regex :=
  Rx.Group 1 (Rx.Alt (Rx.Lit (Py.str "Success")) (Rx.Lit (Py.str "Failed"))).

(** [clear(package)]: [inr true] is the return of [True], [inl e] the
    raise of the [ClearError] [e]; the failures of [shell] are raised as
    they are.  The result is logged before the error is raised. *)
Definition clear (package : text) : M (clear_error + bool) :=
  let* result := shell (Py.str "pm clear " ++ package) None in
  match result with
  | None => raise TypeError
  | Some result =>
      let m := Rx.search clear_result_pattern result in
      match m with
      | Some m =>
          if bool_decide (Rx.group m 1 = Some (Py.str "Success"))
          then ret (inr true)
          else ret (inl (ClearError package (Py.strip result)))
      | None => ret (inl (ClearError package (Py.strip result)))
      end
  end.

(** ["^package:(.*?)\\r?$"] *)
Definition packages_pattern : Re.regex :=
  Re.Seq (Re.Lit (Py.str "package:"))
    (Re.Seq (Re.Group 1 Re.LazyAny)
       (Re.Seq (Re.Opt (Re.Lit [Py.CR])) Re.Eol)).

(** The body of the [for line in ...] loop of [list_packages].  Group 1
    takes part in every match of the pattern. *)
Definition add_package (packages : list text) (line : text) : list text :=
  match Re.match_ packages_pattern line with
  | Some m =>
      match Re.group m 1 with
      | Some name => packages ++ [name]
      | None => packages
      end
  | None => packages
  end.

Definition parse_packages (result : text) : list text :=
  fold_left add_package (Py.split_on Py.LF result) [].

(** [list_packages()]. *)
Definition list_packages : M (list text) :=
  let* result := shell (Py.str "pm list packages 2>/dev/null") None in
  match result with
  | Some result => ret (parse_packages result)
  | None => raise AttributeError
  end.

(** ["^\[([\s\S]*?)\]: \[([\s\S]*?)\]\\r?$"] *)
Definition properties_pattern : Rx.regex :=
  Rx.Seq (Rx.Lit (Py.str "["))
    (Rx.Seq (Rx.Group 1 (Rx.Lazy Rx.any))
       (Rx.Seq (Rx.Lit (Py.str "]: ["))
          (Rx.Seq (Rx.Group 2 (Rx.Lazy Rx.any))
             (Rx.Seq (Rx.Lit (Py.str "]"))
                (Rx.Seq (Rx.Opt (Rx.Lit [Py.CR])) Rx.Eol))))).

(** The body of the [for line in ...] loop of [get_properties].  Both
    groups take part in every match of the pattern. *)
Definition add_property (properties : gmap text text) (line : text)
  : gmap text text :=
  match Rx.match_ properties_pattern line with
  | Some m =>
      match Rx.group m 1, Rx.group m 2 with
      | Some key, Some value => <[key := value]> properties
      | _, _ => properties
      end
  | None => properties
  end.

Definition parse_properties (result : text) : gmap text text :=
  fold_left add_property (Py.split_on Py.LF result) ∅.

(** [get_properties()]. *)
Definition get_properties : M (gmap text text) :=
  let* result := shell (Py.str "getprop") None in
  match result with
  | Some result => ret (parse_properties result)
  | None => raise AttributeError
  end.

(** [local(path)]; the connection is returned to the caller. *)
Definition local (path : text) : M unit :=
  let path := if negb (Py.contains (Py.str ":") path)
              then Py.str "localfilesystem:" ++ path
              else path in
  send path.

(** [log(name)]; the connection is returned to the caller. *)
Definition log (name : text) : M unit :=
  let cmd := Py.str "log:" ++ name in
  send cmd.



End Commands.

(* ===================================================================== *)
(** ** Vocabulary for the other commands *)
(* ===================================================================== *)

Module Samples.
Import Conn Transport Commands.

(** What a channel in text mode does to a byte stream: every line feed
    becomes carriage return, line feed. *)
Fixpoint to_crlf (data : bytes) : bytes :=
  match data with
  | [] => []
  | b :: rest =>
      if Byte.eqb b Byte.x0a then Byte.x0d :: Byte.x0a :: to_crlf rest
      else b :: to_crlf rest
  end.

(** The eight bytes every PNG image starts with. *)
Definition png_signature : bytes :=
  [Byte.x89; Byte.x50; Byte.x4e; Byte.x47; Byte.x0d; Byte.x0a; Byte.x1a;
   Byte.x0a].

(** The command [screencap] sends. *)
Definition screencap_cmd : text := Py.str "shell:/system/bin/screencap -p".

(** The two words [clear] looks for. *)
Definition SUCCESS : text := Py.str "Success".

Definition FAILED : text := Py.str "Failed".

(** [word] occurs in [s] right after [pre]. *)
Definition occurs_at (word pre s : text) : Prop :=
  exists post, s = pre ++ word ++ post.

(** "Success" occurs in [s], and before any "Failed". *)
Definition success_first (s : text) : Prop :=
  exists pre, occurs_at SUCCESS pre s
    /\ forall pre', occurs_at FAILED pre' s -> (length pre < length pre')%nat.

(** A freshly created connection to a peer that delivers the text
    [output], of ASCII characters, and then ends the stream. *)
Definition answering (output : string) : connection :=
  fresh (Py.ascii_bytes output).

(** [s] without the carriage return it may end with. *)
Fixpoint chomp (s : text) : text :=
  match s with
  | [] => []
  | [c] => if c =? Py.CR then [] else [c]
  | c :: s' => c :: chomp s'
  end.

(** The package a line of the output of [pm list packages] names, if it
    names one. *)
Definition package_of (line : text) : option text :=
  match Py.strip_prefix (Py.str "package:") line with
  | Some rest => Some (chomp rest)
  | None => None
  end.

(** The output that lists [names], one [package:<name>] per line, each
    line ended by [eol]. *)
Definition package_lines (eol : text) (names : list text) : text :=
  flat_map (fun name => Py.str "package:" ++ name ++ eol) names.

(** [s] up to its first [=], and what follows that [=] when there is
    one. *)
Fixpoint at_equals (s : text) : text * option text :=
  match s with
  | [] => ([], None)
  | c :: s' =>
      if c =? Lines.EQUALS then ([], Some s')
      else let (name, value) := at_equals s' in (c :: name, value)
  end.

(** The entry a line of the output of [pm list features] stands for, if
    it stands for one: after [feature:] the name runs to the first [=]
    and the value from there to the end of the line, or, without [=], the
    name runs to the end of the line and the value is [True]; the
    carriage return the line may end with is part of neither. *)
Definition feature_of (line : text) : option (text * feature_value) :=
  match Py.strip_prefix (Py.str "feature:") line with
  | Some rest =>
      match at_equals rest with
      | (name, Some value) => Some (name, FStr (chomp value))
      | (name, None) => Some (chomp name, FTrue)
      end
  | None => None
  end.

(** The line of [pm list features] for an entry. *)
Definition feature_line (e : text * feature_value) : text :=
  Py.str "feature:" ++ e.1
  ++ match e.2 with
     | FTrue => []
     | FStr value => Lines.EQUALS :: value
     end.

(** The output of [pm list features] for the entries [es], each line
    ended by [eol]. *)
Definition feature_lines (eol : text) (es : list (text * feature_value)) : text :=
  flat_map (fun e => feature_line e ++ eol) es.

(** An entry [pm list features] can print on one line and
    [list_features] can read back: the name has no [=] and no line feed,
    and what ends the line, the name or the value, has no line feed and
    no carriage return at its end. *)
Definition listed (e : text * feature_value) : Prop :=
  (Lines.EQUALS ∉ e.1) /\ (Py.LF ∉ e.1)
  /\ match e.2 with
     | FTrue => last e.1 <> Some Py.CR
     | FStr value => Lines.plain value
     end.

(** The output [feature:foo], [feature:bar=2], each line ended by
    carriage return and line feed. *)
Definition features_sample_crlf : bytes :=
  Py.ascii_bytes "feature:foo" ++ [Byte.x0d; Byte.x0a]
  ++ Py.ascii_bytes "feature:bar=2" ++ [Byte.x0d; Byte.x0a].

(** The text between key and value on a line of [getprop]. *)
Definition DELIM : text := Py.str "]: [".

(** The pieces of [properties_pattern]: the end of the line, the end of
    the value, and what follows the key. *)
Definition rx_line_end : Rx.regex := Rx.Seq (Rx.Opt (Rx.Lit [Py.CR])) Rx.Eol.

Definition value_close : Rx.regex := Rx.Seq (Rx.Lit (Py.str "]")) rx_line_end.

Definition after_key : Rx.regex :=
  Rx.Seq (Rx.Lit DELIM) (Rx.Seq (Rx.Group 2 (Rx.Lazy Rx.any)) value_close).

(** [DELIM] does not occur in [key]. *)
Definition delim_free (key : text) : Prop :=
  forall pre post, key <> pre ++ DELIM ++ post.

(** The line of [getprop] for a property. *)
Definition property_line (kv : text * text) : text :=
  Py.str "[" ++ kv.1 ++ DELIM ++ kv.2 ++ Py.str "]".

(** The output of [getprop] for the properties [kvs], each line ended by
    [eol]. *)
Definition property_lines (eol : text) (kvs : list (text * text)) : text :=
  flat_map (fun kv => property_line kv ++ eol) kvs.

(** A property [getprop] can print on one line and [get_properties] can
    read back: the key is free of the delimiter, and neither key nor
    value has a line feed. *)
Definition one_line (kv : text * text) : Prop :=
  delim_free kv.1 /\ (Py.LF ∉ kv.1) /\ (Py.LF ∉ kv.2).

(** The ids of the frames the frame loop has no use for: every id but
    STDOUT, STDERR and EXIT. *)
Definition unused (id : N) : Prop :=
  Wire.is_output id = false /\ id <> ShellProtocolTypes.EXIT.

(** A device that has booted: it answers "1" and a line feed, at once. *)
Definition booted : Poller.device :=
  {| Poller.answer := fun _ => Return (Some (Py.str "1" ++ [Py.LF]));
     Poller.latency := fun _ => 0%Q; Poller.oversleep := fun _ => 0%Q |}.

(** A device whose stream cannot be read: every query fails with the
    error of the socket. *)
Definition unreadable : Poller.device :=
  {| Poller.answer := fun _ => Raise OSError;
     Poller.latency := fun _ => 0%Q; Poller.oversleep := fun _ => 0%Q |}.

(** A device that comes up: its first two queries fail with a
    [RuntimeError], then it answers "1" and a line feed. *)
Definition waking : Poller.device :=
  {| Poller.answer := fun n =>
       if (n <? 2)%nat then Raise (RuntimeError (Py.str "device offline"))
       else Return (Some (Py.str "1" ++ [Py.LF]));
     Poller.latency := fun _ => 0%Q; Poller.oversleep := fun _ => 0%Q |}.

(** A device that goes away: it answers "0" once, then every query fails
    with the error of the socket. *)
Definition dropping : Poller.device :=
  {| Poller.answer := fun n =>
       if (n <? 1)%nat then Return (Some (Py.str "0")) else Raise OSError;
     Poller.latency := fun _ => 0%Q; Poller.oversleep := fun _ => 0%Q |}.

End Samples.

(* ===================================================================== *)
(** ** Properties of the shell-v2 demultiplexer *)
(* ===================================================================== *)

Module WireFacts.
Import Conn Transport Wire.
Local Open Scope conn_scope.

Lemma to_N_byte_of_N n : Byte.to_N (Py.byte_of_N n) = n mod 256.
Proof.
  unfold Py.byte_of_N. destruct (Byte.of_N (n mod 256)) as [b|] eqn:E.
  - by apply Byte.to_of_N.
  - apply Byte.of_N_None_iff in E.
    pose proof (N.mod_upper_bound n 256). lia.
Qed.

Lemma le32_value n : n < 4294967296 -> Py.int_from_bytes_little (le32 n) = n.
Proof.
  intros Hn. unfold le32. cbn [Py.int_from_bytes_little].
  rewrite !to_N_byte_of_N. zify. Z.to_euclidean_division_equations. lia.
Qed.

Lemma len_app {A} (l1 l2 : list A) : Py.len (l1 ++ l2) = Py.len l1 + Py.len l2.
Proof. unfold Py.len. rewrite length_app. lia. Qed.

Lemma frame_len f : Py.len (frame_bytes f) = 5 + Py.len (payload f).
Proof.
  unfold frame_bytes, le32, Py.len. cbn [length]. rewrite length_app.
  cbn [length]. lia.
Qed.

Lemma set_inbox_twice d d' c : set_inbox d (set_inbox d' c) = set_inbox d c.
Proof. reflexivity. Qed.

Lemma set_stream_twice d ps d' ps' c :
  set_stream d ps (set_stream d' ps' c) = set_stream d ps c.
Proof. reflexivity. Qed.

Lemma bind_ret_l {A B} (a : A) (k : A -> M B) c c' m :
  m c = (Return a, c') -> bind m k c = k a c'.
Proof. intros E. unfold bind. by rewrite E. Qed.

(** *** Reads that are served in full and reads that come back short *)

Lemma served_in_full n ps : in_full n ps = true -> served n ps = n.
Proof. destruct ps as [|p ps]; [done|]. cbn. intros H%N.leb_le. lia. Qed.

Lemma served_short n ps : in_full n ps = false -> served n ps < n.
Proof. destruct ps as [|p ps]; [done|]. cbn. intros H%N.leb_gt. lia. Qed.

Lemma served_le n ps : served n ps <= n.
Proof. destruct ps as [|p ps]; cbn; lia. Qed.

Lemma in_full_1 ps : in_full 1 ps = true.
Proof. destruct ps as [|p ps]; [done|]. cbn. apply N.leb_le. lia. Qed.

Lemma in_full_0 ps : in_full 0 ps = true.
Proof. by destruct ps. Qed.

(** A read that finds its bytes arrived takes them off the stream. *)
Lemma read_full n pre rest c :
  inbox c = pre ++ rest -> Py.len pre = n -> in_full n (pieces c) = true ->
  read n c = (Return pre, set_stream rest (pieces_after n (pieces c)) c).
Proof.
  intros Hin Hlen Hfull. unfold read. rewrite (served_in_full _ _ Hfull).
  assert (Ht : take (N.to_nat n) (inbox c) = pre).
  { rewrite Hin. unfold Py.len in Hlen. subst n. by rewrite Nat2N.id, take_app_length. }
  assert (Hd : drop (N.to_nat n) (inbox c) = rest).
  { rewrite Hin. unfold Py.len in Hlen. subst n. by rewrite Nat2N.id, drop_app_length. }
  rewrite Ht, Hd.
  destruct (inbox c) as [|b l] eqn:E; [|done].
  destruct n as [|p]; [done|].
  symmetry in Hin. apply app_eq_nil in Hin as [-> _]. done.
Qed.

(** What a read returns was at the head of the stream, and is no longer
    than what was asked for. *)
Lemma read_inv n c data c' :
  read n c = (Return data, c') ->
  inbox c = data ++ inbox c' /\ Py.len data <= n /\ fault c' = fault c.
Proof.
  unfold read.
  assert (Hgo : (Return (take (N.to_nat (served n (pieces c))) (inbox c)),
                 set_stream (drop (N.to_nat (served n (pieces c))) (inbox c))
                   (pieces_after (served n (pieces c)) (pieces c)) c)
                = (Return data, c') ->
                inbox c = data ++ inbox c' /\ Py.len data <= n /\ fault c' = fault c).
  { intros [= <- <-]. cbn [inbox set_stream fault]. rewrite take_drop.
    split; [done|]. split; [|done]. unfold Py.len. rewrite length_take.
    pose proof (served_le n (pieces c)). lia. }
  destruct (inbox c) as [|b l] eqn:E; [|done].
  destruct n as [|p]; [done|].
  unfold at_end. destruct (fault c) eqn:Hf; [done|]. intros [= <- <-].
  rewrite E. split; [done|]. split; [|done]. unfold Py.len. cbn [length]. lia.
Qed.

Lemma read_finishes n c : fst (read n c) <> Unfinished.
Proof.
  unfold read, at_end. destruct (inbox c), n; try done; by destruct (fault c).
Qed.

(** A read that finds fewer bytes than it asks for comes back short, or
    fails when the stream has ended with a socket failure. *)
Lemma read_short n c :
  Py.len (inbox c) < n \/ in_full n (pieces c) = false ->
  exists c',
    (exists data, read n c = (Return data, c') /\ Py.len data < n)
    \/ (fault c = true /\ read n c = (Raise OSError, c')).
Proof.
  intros Hshort. unfold read.
  assert (Hgo : Py.len (take (N.to_nat (served n (pieces c))) (inbox c)) < n).
  { unfold Py.len in *. rewrite length_take.
    pose proof (served_le n (pieces c)).
    destruct Hshort as [Hlen|Hfull]; [lia|].
    apply served_short in Hfull. lia. }
  destruct (inbox c) as [|b l] eqn:E.
  - destruct n as [|p].
    + destruct Hshort as [Hlen|Hfull]; [lia|].
      by rewrite in_full_0 in Hfull.
    + unfold at_end. destruct (fault c).
      * exists c. by right.
      * exists c. left. exists []. split; [done|]. unfold Py.len. cbn [length]. lia.
  - eexists. left. eexists. split; [reflexivity|done].
Qed.

Lemma read_int_full n data rest c :
  inbox c = data ++ rest -> Py.len data = n -> in_full n (pieces c) = true ->
  read_int n c
  = (Return (Some (Py.int_from_bytes_little data)),
     set_stream rest (pieces_after n (pieces c)) c).
Proof.
  intros Hin Hlen Hfull. unfold read_int.
  rewrite (bind_ret_l data _ c (set_stream rest (pieces_after n (pieces c)) c))
    by by apply read_full.
  by rewrite Hlen, N.ltb_irrefl.
Qed.

Lemma read_int_short n c :
  Py.len (inbox c) < n \/ in_full n (pieces c) = false ->
  exists c',
    read_int n c = (Return None, c')
    \/ (fault c = true /\ read_int n c = (Raise OSError, c')).
Proof.
  intros Hshort. unfold read_int, bind.
  destruct (read_short n c Hshort) as (c' & [(data & -> & Hlt)|(Hf & ->)]).
  - exists c'. left. by apply N.ltb_lt in Hlt as ->.
  - exists c'. by right.
Qed.

Lemma int_of_byte b : Py.int_from_bytes_little [b] = Byte.to_N b.
Proof. cbn. lia. Qed.

(** *** One round of the frame loop *)

(** A round that finds a frame that arrives whole hands its id and
    payload to the [if]/[elif] chain and leaves the rest of the stream in
    place. *)
Lemma round_frame sep v c f rest :
  fits f -> inbox c = frame_bytes f ++ rest -> arrives f (pieces c) = true ->
  shell_v2_round sep v c
  = dispatch sep v (Byte.to_N (fid f)) (payload f)
      (set_stream rest (past f (pieces c)) c).
Proof.
  intros Hfit Hin [H4 Hn]%andb_true_iff. unfold shell_v2_round.
  unfold frame_bytes in Hin. cbn [app] in Hin. rewrite <- app_assoc in Hin.
  set (c1 := set_stream (le32 (Py.len (payload f)) ++ payload f ++ rest)
               (pieces_after 1 (pieces c)) c).
  set (c2 := set_stream (payload f ++ rest) (pieces_after 4 (pieces c1)) c1).
  rewrite (bind_ret_l (Some (Py.int_from_bytes_little [fid f])) _ c c1)
    by (apply (read_int_full 1 [fid f]); [done|done|apply in_full_1]).
  cbv beta iota.
  rewrite (bind_ret_l
             (Some (Py.int_from_bytes_little (le32 (Py.len (payload f))))) _ c1 c2)
    by (by apply (read_int_full 4 (le32 (Py.len (payload f))))).
  cbv beta iota. rewrite le32_value by done.
  rewrite (bind_ret_l (payload f) _ c2
             (set_stream rest (pieces_after (Py.len (payload f)) (pieces c2)) c2))
    by (by apply (read_full (Py.len (payload f)) (payload f) rest)).
  by rewrite N.ltb_irrefl, int_of_byte.
Qed.

Lemma byte_of_to_N b x : Py.byte_of_N (Byte.to_N b + 256 * x) = b.
Proof.
  unfold Py.byte_of_N. pose proof (Byte.to_N_bounded b) as Hb.
  replace ((Byte.to_N b + 256 * x) mod 256) with (Byte.to_N b)
    by (zify; Z.to_euclidean_division_equations; lia).
  by rewrite Byte.of_to_N.
Qed.

Lemma le32_bytes b0 b1 b2 b3 :
  le32 (Py.int_from_bytes_little [b0; b1; b2; b3]) = [b0; b1; b2; b3].
Proof.
  unfold le32. cbn [Py.int_from_bytes_little].
  pose proof (Byte.to_N_bounded b0). pose proof (Byte.to_N_bounded b1).
  pose proof (Byte.to_N_bounded b2). pose proof (Byte.to_N_bounded b3).
  set (x1 := Byte.to_N b1 + 256 * (Byte.to_N b2 + 256 * (Byte.to_N b3 + 256 * 0))).
  set (x2 := Byte.to_N b2 + 256 * (Byte.to_N b3 + 256 * 0)).
  set (x3 := Byte.to_N b3 + 256 * 0).
  replace ((Byte.to_N b0 + 256 * x1) / 256) with x1
    by (zify; Z.to_euclidean_division_equations; lia).
  replace ((Byte.to_N b0 + 256 * x1) / 65536) with x2
    by (subst x1 x2; zify; Z.to_euclidean_division_equations; lia).
  replace ((Byte.to_N b0 + 256 * x1) / 16777216) with x3
    by (subst x1 x2 x3; zify; Z.to_euclidean_division_equations; lia).
  subst x1 x2 x3. by rewrite !byte_of_to_N.
Qed.

Lemma int4_bound b0 b1 b2 b3 :
  Py.int_from_bytes_little [b0; b1; b2; b3] < 4294967296.
Proof.
  cbn [Py.int_from_bytes_little].
  pose proof (Byte.to_N_bounded b0). pose proof (Byte.to_N_bounded b1).
  pose proof (Byte.to_N_bounded b2). pose proof (Byte.to_N_bounded b3). lia.
Qed.

(** A stream that starts with the frame [f] starts with a whole frame
    exactly when [f] arrives whole. *)
Lemma starts_whole_frame f rest ps :
  fits f -> starts_whole (frame_bytes f ++ rest) ps = arrives f ps.
Proof.
  intros Hfit. unfold frame_bytes, starts_whole, arrives.
  change (fid f :: le32 (Py.len (payload f)) ++ payload f)
    with (fid f :: Py.byte_of_N (Py.len (payload f))
            :: Py.byte_of_N (Py.len (payload f) / 256)
            :: Py.byte_of_N (Py.len (payload f) / 65536)
            :: Py.byte_of_N (Py.len (payload f) / 16777216) :: payload f).
  cbn [app]. fold (le32 (Py.len (payload f))). rewrite le32_value by done.
  rewrite len_app.
  replace (Py.len (payload f) <=? Py.len (payload f) + Py.len rest) with true
    by (symmetry; apply N.leb_le; lia).
  done.
Qed.

(** A stream that starts with a whole frame starts with the bytes of a
    frame. *)
Lemma starts_whole_inv data ps :
  starts_whole data ps = true ->
  exists f rest, data = frame_bytes f ++ rest /\ fits f /\ arrives f ps = true.
Proof.
  destruct data as [|id [|b0 [|b1 [|b2 [|b3 data]]]]]; try done.
  intros H. pose proof H as H'. cbn [starts_whole] in H.
  apply andb_true_iff in H as [[Hle%N.leb_le H4]%andb_true_iff Hn].
  set (n := Py.int_from_bytes_little [b0; b1; b2; b3]) in *.
  assert (Hk : Py.len (take (N.to_nat n) data) = n).
  { unfold Py.len in *. rewrite length_take. lia. }
  exists {| fid := id; payload := take (N.to_nat n) data |}, (drop (N.to_nat n) data).
  assert (Hb : id :: b0 :: b1 :: b2 :: b3 :: data
               = frame_bytes {| fid := id; payload := take (N.to_nat n) data |}
                 ++ drop (N.to_nat n) data).
  { unfold frame_bytes. cbn [fid payload]. rewrite Hk. unfold n.
    rewrite le32_bytes. cbn [app]. by rewrite take_drop. }
  assert (Hf : fits {| fid := id; payload := take (N.to_nat n) data |}).
  { unfold fits. cbn [payload]. rewrite Hk. apply int4_bound. }
  split; [done|]. split; [done|].
  rewrite <- (starts_whole_frame _ (drop (N.to_nat n) data)) by done.
  by rewrite <- Hb.
Qed.

(** A stream that ends inside its first frame does not start with a
    whole frame, however it arrives. *)
Lemma truncated_not_whole data ps :
  truncated data = true -> starts_whole data ps = false.
Proof.
  destruct data as [|id [|b0 [|b1 [|b2 [|b3 data]]]]]; try done.
  cbn [truncated starts_whole]. intros Ht%N.ltb_lt.
  by apply N.leb_gt in Ht as ->.
Qed.

Lemma dispatch_exit sep v data c :
  dispatch sep v ShellProtocolTypes.EXIT data c
  = (Return (Continue {| output := output v; stdout := stdout v;
                         stderr := stderr v;
                         exit_code := Py.int_from_bytes_little data |}), c).
Proof. by destruct sep. Qed.

Lemma dispatch_other sep v id data c :
  is_output id = false -> id <> ShellProtocolTypes.EXIT ->
  dispatch sep v id data c = (Return (Continue v), c).
Proof.
  unfold is_output, is_stdout, is_stderr, dispatch. intros Ho He.
  apply orb_false_elim in Ho as [-> ->]. apply N.eqb_neq in He as ->.
  by rewrite andb_false_r.
Qed.

Lemma dispatch_merged v id data t c :
  is_output id = true -> Py.decode_utf8 data = Some t ->
  dispatch false v id data c
  = (Return (Continue {| output := output v ++ t; stdout := stdout v;
                         stderr := stderr v; exit_code := exit_code v |}), c).
Proof.
  unfold is_output, is_stdout, is_stderr, dispatch. intros -> Hd.
  cbn [negb andb]. unfold decode, bind. by rewrite Hd.
Qed.

Lemma dispatch_merged_bad v id data c :
  is_output id = true -> Py.decode_utf8 data = None ->
  dispatch false v id data c = (Raise UnicodeDecodeError, c).
Proof.
  unfold is_output, is_stdout, is_stderr, dispatch. intros -> Hd.
  cbn [negb andb]. unfold decode, bind. by rewrite Hd.
Qed.

Lemma dispatch_stdout v id data t c :
  is_stdout id = true -> Py.decode_utf8 data = Some t ->
  dispatch true v id data c
  = (Return (Continue {| output := output v; stdout := stdout v ++ t;
                         stderr := stderr v; exit_code := exit_code v |}), c).
Proof.
  unfold is_stdout, dispatch. intros -> Hd.
  cbn [negb andb]. unfold decode, bind. by rewrite Hd.
Qed.

Lemma dispatch_stderr v id data t c :
  is_stderr id = true -> Py.decode_utf8 data = Some t ->
  dispatch true v id data c
  = (Return (Continue {| output := output v; stdout := stdout v;
                         stderr := stderr v ++ t; exit_code := exit_code v |}), c).
Proof.
  unfold is_stderr, dispatch. intros Hid Hd.
  apply N.eqb_eq in Hid as ->.
  cbn. unfold decode, bind. by rewrite Hd.
Qed.

Lemma dispatch_separate_bad v id data c :
  is_output id = true -> Py.decode_utf8 data = None ->
  dispatch true v id data c = (Raise UnicodeDecodeError, c).
Proof.
  unfold is_output, is_stdout, is_stderr, dispatch. intros Ho Hd.
  cbn [negb andb]. unfold decode, bind. rewrite Hd.
  destruct (id =? ShellProtocolTypes.STDOUT); [done|].
  cbn [orb] in Ho. by rewrite Ho.
Qed.

Lemma locals_eta v :
  {| output := output v; stdout := stdout v; stderr := stderr v;
     exit_code := exit_code v |} = v.
Proof. by destruct v. Qed.

(** The [if]/[elif] chain leaves the connection alone and never leaves
    the loop. *)
Lemma dispatch_result sep v id data c :
  snd (dispatch sep v id data c) = c
  /\ fst (dispatch sep v id data c) <> Return Break
  /\ fst (dispatch sep v id data c) <> Unfinished.
Proof.
  unfold dispatch, decode, bind, ret, raise, ShellProtocolTypes.STDOUT,
    ShellProtocolTypes.STDERR, ShellProtocolTypes.EXIT.
  destruct sep, (id =? 1), (id =? 2), (id =? 3), (Py.decode_utf8 data);
    cbn; repeat split; discriminate.
Qed.

(** The [if]/[elif] chain goes on with the loop or fails on a payload
    that is not UTF-8. *)
Lemma dispatch_cases sep v id data c :
  (exists v', dispatch sep v id data c = (Return (Continue v'), c))
  \/ dispatch sep v id data c = (Raise UnicodeDecodeError, c).
Proof.
  unfold dispatch, decode, bind, ret, raise.
  destruct sep, (id =? ShellProtocolTypes.STDOUT), (id =? ShellProtocolTypes.STDERR),
    (id =? ShellProtocolTypes.EXIT), (Py.decode_utf8 data);
    cbn; (by right) || (left; by eexists).
Qed.

(** What the [if]/[elif] chain does is the same on every connection. *)
Lemma dispatch_any_conn sep v id data c c' :
  dispatch sep v id data c
  = (fst (dispatch sep v id data c'), c).
Proof.
  unfold dispatch, decode, bind, ret, raise.
  by destruct sep, (id =? ShellProtocolTypes.STDOUT),
    (id =? ShellProtocolTypes.STDERR), (id =? ShellProtocolTypes.EXIT),
    (Py.decode_utf8 data).
Qed.

(** A round that does not find a whole frame leaves the loop: one of its
    reads came back short (or failed, when the stream ended with a socket
    failure). *)
Lemma round_stops sep v c :
  starts_whole (inbox c) (pieces c) = false ->
  exists c',
    shell_v2_round sep v c = (Return Break, c')
    \/ (fault c = true /\ shell_v2_round sep v c = (Raise OSError, c')).
Proof.
  intros Hw. unfold shell_v2_round.
  destruct (inbox c) as [|id rest] eqn:Hin.
  { destruct (read_int_short 1 c) as (c' & [Hr|[Hf Hr]]).
    - left. rewrite Hin. unfold Py.len. cbn [length]. lia.
    - exists c'. left. unfold bind at 1. by rewrite Hr.
    - exists c'. right. split; [done|]. unfold bind at 1. by rewrite Hr. }
  rewrite (bind_ret_l (Some (Py.int_from_bytes_little [id])) _ c
             (set_stream rest (pieces_after 1 (pieces c)) c))
    by (apply (read_int_full 1 [id]); [done|done|apply in_full_1]).
  cbv beta iota.
  set (c1 := set_stream rest (pieces_after 1 (pieces c)) c).
  assert (Hcases : Py.len rest < 4 \/ in_full 4 (pieces c1) = false
            \/ exists b0 b1 b2 b3 data, rest = b0 :: b1 :: b2 :: b3 :: data
                 /\ in_full 4 (pieces c1) = true
                 /\ (Py.len data < Py.int_from_bytes_little [b0; b1; b2; b3]
                     \/ in_full (Py.int_from_bytes_little [b0; b1; b2; b3])
                          (pieces_after 4 (pieces c1)) = false)).
  { destruct rest as [|b0 [|b1 [|b2 [|b3 data]]]]; try (left; by cbv).
    cbn [starts_whole] in Hw. cbn [pieces c1 set_stream].
    destruct (in_full 4 (pieces_after 1 (pieces c))) eqn:H4; [|right; by left].
    right. right. exists b0, b1, b2, b3, data. split; [done|]. split; [done|].
    rewrite andb_true_r in Hw. apply andb_false_iff in Hw as [Hw|Hw].
    - left. by apply N.leb_gt.
    - by right. }
  destruct Hcases as [Hlt | [H4 | (b0 & b1 & b2 & b3 & data & -> & H4 & Hshort)]].
  - destruct (read_int_short 4 c1) as (c' & [Hr|[Hf Hr]]); [by left| |].
    + exists c'. left. unfold bind at 1. by rewrite Hr.
    + exists c'. right. split; [done|]. unfold bind at 1. by rewrite Hr.
  - destruct (read_int_short 4 c1) as (c' & [Hr|[Hf Hr]]); [by right| |].
    + exists c'. left. unfold bind at 1. by rewrite Hr.
    + exists c'. right. split; [done|]. unfold bind at 1. by rewrite Hr.
  - rewrite (bind_ret_l (Some (Py.int_from_bytes_little [b0; b1; b2; b3])) _ c1
               (set_stream data (pieces_after 4 (pieces c1)) c1))
      by (by apply (read_int_full 4 [b0; b1; b2; b3])).
    cbv beta iota.
    destruct (read_short (Py.int_from_bytes_little [b0; b1; b2; b3])
                (set_stream data (pieces_after 4 (pieces c1)) c1))
      as (c' & [(d & Hr & Hlt)|[Hf Hr]]); [done| |].
    + exists c'. left. unfold bind at 1. rewrite Hr.
      by apply N.ltb_lt in Hlt as ->.
    + exists c'. right. split; [done|]. unfold bind at 1. by rewrite Hr.
Qed.

(** A round leaves the loop exactly when it does not find a whole frame:
    when one of its three reads comes back short. *)
Lemma round_break_iff sep v c :
  fault c = false ->
  (fst (shell_v2_round sep v c) = Return Break
   <-> starts_whole (inbox c) (pieces c) = false).
Proof.
  intros Hf. split.
  - intros Hb. destruct (starts_whole (inbox c) (pieces c)) eqn:Hw; [|done].
    exfalso. apply starts_whole_inv in Hw as (f & rest & Hin & Hfit & Ha).
    rewrite (round_frame sep v c f rest Hfit Hin Ha) in Hb.
    by apply dispatch_result in Hb.
  - intros Hw. destruct (round_stops sep v c Hw) as (c' & [->|[Hf' _]]); [done|].
    congruence.
Qed.

Lemma while_true_S {V} fuel (body : V -> M (step V)) v c :
  while_true (S fuel) body v c
  = match body v c with
    | (Return Break, c') => (Return v, c')
    | (Return (Continue v'), c') => while_true fuel body v' c'
    | (Raise e, c') => (Raise e, c')
    | (Unfinished, c') => (Unfinished, c')
    end.
Proof.
  cbn [while_true]. unfold bind.
  by destruct (body v c) as [[[|v']|e|] c'].
Qed.

(** A round that goes on has taken a whole frame off the stream. *)
Lemma round_progress sep v c v' c' :
  shell_v2_round sep v c = (Return (Continue v'), c') ->
  (length (inbox c') + 5 <= length (inbox c))%nat.
Proof.
  intros Hr. destruct (starts_whole (inbox c) (pieces c)) eqn:Hw.
  - apply starts_whole_inv in Hw as (f & rest & Hin & Hfit & Ha).
    rewrite (round_frame sep v c f rest Hfit Hin Ha) in Hr.
    destruct (dispatch_result sep v (Byte.to_N (fid f)) (payload f)
                (set_stream rest (past f (pieces c)) c)) as (Hc & _).
    rewrite Hr in Hc. cbn [snd] in Hc. subst c'.
    rewrite Hin. cbn [inbox set_stream]. rewrite length_app.
    unfold frame_bytes, le32. cbn [length]. rewrite length_app. cbn [length]. lia.
  - destruct (round_stops sep v c Hw) as (c2 & [H|[_ H]]); congruence.
Qed.

Lemma round_finishes sep v c : fst (shell_v2_round sep v c) <> Unfinished.
Proof.
  destruct (starts_whole (inbox c) (pieces c)) eqn:Hw.
  - apply starts_whole_inv in Hw as (f & rest & Hin & Hfit & Ha).
    rewrite (round_frame sep v c f rest Hfit Hin Ha). apply dispatch_result.
  - by destruct (round_stops sep v c Hw) as (c2 & [->|[_ ->]]).
Qed.

(** The frame loop ends within the bound [shell_v2] gives it, whatever
    the peer delivers and however it arrives. *)
Lemma loop_total sep fuel : forall v c,
  (length (inbox c) < fuel)%nat ->
  fst (while_true fuel (shell_v2_round sep) v c) <> Unfinished.
Proof.
  induction fuel as [|fuel IH]; intros v c Hlt; [lia|].
  rewrite while_true_S.
  destruct (shell_v2_round sep v c) as [[[|v']|e|] c'] eqn:Hr; try done.
  - apply IH. apply round_progress in Hr. lia.
  - pose proof (round_finishes sep v c) as Hn. by rewrite Hr in Hn.
Qed.

(** *** What only takes bytes off the head of the stream *)

Lemma ret_reads_ahead {A} (a : A) : reads_ahead (ret a).
Proof. intros c. by exists []. Qed.

Lemma bind_reads_ahead {A B} (m : M A) (k : A -> M B) :
  reads_ahead m -> (forall a, reads_ahead (k a)) -> reads_ahead (bind m k).
Proof.
  intros Hm Hk c. unfold bind. destruct (Hm c) as [pre Hpre].
  destruct (m c) as [[a|e|] c']; cbn [snd] in Hpre; [|by exists pre..].
  destruct (Hk a c') as [pre' Hpre']. exists (pre ++ pre').
  by rewrite Hpre, Hpre' at 1; rewrite app_assoc.
Qed.

Lemma read_reads_ahead n : reads_ahead (read n).
Proof.
  intros c. destruct (read n c) as [[data|e|] c'] eqn:Hr.
  - exists data. by apply read_inv in Hr as [? _].
  - assert (c' = c) as ->; [|by exists []].
    unfold read, at_end in Hr.
    destruct (inbox c), n; try done; destruct (fault c); by simplify_eq.
  - by pose proof (read_finishes n c) as H; rewrite Hr in H.
Qed.

Lemma read_int_reads_ahead n : reads_ahead (read_int n).
Proof.
  apply bind_reads_ahead; [apply read_reads_ahead|].
  intros data. case_match; apply ret_reads_ahead.
Qed.

Lemma dispatch_reads_ahead sep v id data : reads_ahead (dispatch sep v id data).
Proof.
  intros c. exists []. by destruct (dispatch_result sep v id data c) as [-> _].
Qed.

Lemma round_reads_ahead sep v : reads_ahead (shell_v2_round sep v).
Proof.
  apply bind_reads_ahead; [apply read_int_reads_ahead|].
  intros [id|]; [|apply ret_reads_ahead].
  apply bind_reads_ahead; [apply read_int_reads_ahead|].
  intros [n|]; [|apply ret_reads_ahead].
  apply bind_reads_ahead; [apply read_reads_ahead|].
  intros data. case_match; [apply ret_reads_ahead|apply dispatch_reads_ahead].
Qed.

Lemma while_true_reads_ahead {V} fuel (body : V -> M (step V)) :
  (forall v, reads_ahead (body v)) -> forall v, reads_ahead (while_true fuel body v).
Proof.
  intros Hb. induction fuel as [|fuel IH]; intros v; [intros c; by exists []|].
  cbn [while_true]. apply bind_reads_ahead; [apply Hb|].
  intros [|v']; [apply ret_reads_ahead|apply IH].
Qed.

(** *** The frames that arrive whole *)

Lemma taken_nil fs : taken fs [] = fs.
Proof. induction fs as [|f fs IH]; [done|]. cbn. by rewrite IH. Qed.

Lemma taken_prefix fs : forall ps, exists rest, fs = taken fs ps ++ rest.
Proof.
  induction fs as [|f fs IH]; intros ps; [by exists []|].
  cbn [taken]. destruct (arrives f ps); [|by eexists].
  destruct (IH (past f ps)) as [rest Hrest]. exists rest. cbn. by rewrite <- Hrest.
Qed.

(** When the frames read in full go beyond [fs1], all of [fs1] arrive
    whole. *)
Lemma taken_app fs1 : forall fs2 ps got,
  taken (fs1 ++ fs2) ps = fs1 ++ got -> taken fs1 ps = fs1.
Proof.
  induction fs1 as [|f fs1 IH]; intros fs2 ps got H; [done|].
  cbn [app taken] in *. destruct (arrives f ps); [|done].
  injection H as H. f_equal. by apply (IH fs2 _ got).
Qed.

Lemma elem_of_map_add n x l :
  x ∈ map (N.add n) l <-> exists y, x = n + y /\ y ∈ l.
Proof.
  rewrite list_elem_of_In, in_map_iff. split.
  - intros (y & <- & Hy). exists y. by rewrite list_elem_of_In.
  - intros (y & -> & Hy). exists y. by rewrite <- list_elem_of_In.
Qed.

Lemma cuts_positive ps x : x ∈ cuts ps -> 0 < x.
Proof.
  revert x. induction ps as [|p ps IH]; intros x; cbn [cuts].
  - by intros ?%elem_of_nil.
  - intros [->|(y & -> & Hy)%elem_of_map_add]%elem_of_cons; lia.
Qed.

Lemma ends_positive fs x : x ∈ ends fs -> 0 < x.
Proof.
  destruct fs as [|f fs]; cbn [ends].
  - by intros ?%elem_of_nil.
  - intros [->|[->|[->|(y & -> & Hy)%elem_of_map_add]%elem_of_cons]%elem_of_cons]
      %elem_of_cons; lia.
Qed.

(** A read is served in full exactly when no piece ends before its last
    byte. *)
Lemma in_full_cuts n ps :
  in_full n ps = true <-> forall x, x ∈ cuts ps -> n <= x.
Proof.
  destruct ps as [|p ps]; cbn [in_full cuts].
  - split; [|done]. by intros _ x ?%elem_of_nil.
  - rewrite N.leb_le. split.
    + intros Hn x [->|(y & -> & Hy)%elem_of_map_add]%elem_of_cons; lia.
    + intros H. apply H. by left.
Qed.

(** The pieces after a read that was served in full end where they ended
    before, counted from the new head of the stream. *)
Lemma cuts_after k ps x :
  in_full k ps = true ->
  (x ∈ cuts (pieces_after k ps) <-> 0 < x /\ x + k ∈ cuts ps).
Proof.
  destruct ps as [|p ps]; cbn [in_full pieces_after cuts].
  { intros _. split; [by intros ?%elem_of_nil|by intros [_ ?%elem_of_nil]]. }
  intros Hk%N.leb_le. destruct (N.pos p - k) as [|q] eqn:Hq.
  - assert (k = N.pos p) as -> by lia. rewrite elem_of_cons, elem_of_map_add.
    split.
    + intros Hx. split; [by apply (cuts_positive ps)|]. right. exists x.
      split; [lia|done].
    + intros [Hpos [Hx|(y & Hy & Hin)]]; [lia|].
      by replace x with y by lia.
  - cbn [cuts]. rewrite !elem_of_cons, !elem_of_map_add. split.
    + intros [->|(y & -> & Hin)].
      * split; [lia|]. left. lia.
      * split; [lia|]. right. exists y. split; [lia|done].
    + intros [Hpos [Hx|(y & Hy & Hin)]].
      * left. lia.
      * right. exists y. split; [lia|done].
Qed.

(** Frames none of whose lengths and payloads is split between two
    pieces all arrive whole. *)
Lemma taken_unsplit fs : forall ps, unsplit fs ps -> taken fs ps = fs.
Proof.
  induction fs as [|f fs IH]; intros ps Hu; [done|].
  set (n := Py.len (payload f)).
  assert (Hends : forall x, x ∈ cuts ps ->
            x = 1 \/ x = 5 \/ 5 + n <= x).
  { intros x Hx. destruct (Hu x Hx) as [He|Hlt].
    - cbn [ends] in He. fold n in He.
      apply elem_of_cons in He as [->|He]; [by left|].
      apply elem_of_cons in He as [->|He]; [right; by left|].
      apply elem_of_cons in He as [->|He]; [right; right; lia|].
      apply elem_of_map_add in He as (y & -> & Hy). right. right. lia.
    - cbn [wire flat_map] in Hlt. rewrite len_app, frame_len in Hlt.
      fold n in Hlt. right. right. lia. }
  assert (H1 : in_full 1 ps = true) by apply in_full_1.
  assert (H4 : in_full 4 (pieces_after 1 ps) = true).
  { apply in_full_cuts. intros x [Hpos Hx]%cuts_after; [|done].
    destruct (Hends _ Hx) as [?|[?|?]]; lia. }
  assert (Hn : in_full n (pieces_after 4 (pieces_after 1 ps)) = true).
  { apply in_full_cuts. intros x [Hpos [_ Hx]%cuts_after]%cuts_after; [|done..].
    destruct (Hends _ Hx) as [?|[?|?]]; lia. }
  cbn [taken]. unfold arrives. fold n. rewrite H4, Hn. cbn [andb].
  f_equal. apply IH. intros x Hx. unfold past in Hx. fold n in Hx.
  apply cuts_after in Hx as [Hpos Hx]; [|done].
  apply cuts_after in Hx as [_ Hx]; [|done].
  apply cuts_after in Hx as [_ Hx]; [|done].
  destruct (Hu _ Hx) as [He|Hlt].
  - cbn [ends] in He. fold n in He.
    apply elem_of_cons in He as [?|He]; [lia|].
    apply elem_of_cons in He as [?|He]; [lia|].
    apply elem_of_cons in He as [?|He]; [lia|].
    apply elem_of_map_add in He as (y & Hy & Hin). left.
    by replace x with y by lia.
  - right. cbn [wire flat_map] in Hlt. fold (wire fs) in Hlt.
    rewrite len_app, frame_len in Hlt. fold n in Hlt. lia.
Qed.

Lemma unsplit_nil fs : unsplit fs [].
Proof. by intros x ?%elem_of_nil. Qed.

(** *** The frame loop *)

(** The frame loop on a stream of frames followed by a truncated one
    makes of it what the [if]/[elif] chain makes of the frames that
    arrive whole. *)
Lemma loop_taken sep fs : forall fuel v c tail,
  Forall fits fs -> fault c = false -> inbox c = wire fs ++ tail ->
  truncated tail = true -> (length fs < fuel)%nat ->
  fst (while_true fuel (shell_v2_round sep) v c)
  = absorb sep v (taken fs (pieces c)).
Proof.
  induction fs as [|f fs IH]; intros fuel v c tail Hfits Hf Hin Ht Hfuel;
    (destruct fuel as [|fuel]; [cbn in Hfuel; lia|]); rewrite while_true_S.
  - cbn [wire flat_map app] in Hin.
    destruct (round_stops sep v c) as (c' & [->|[Hf' _]]); [|done|congruence].
    rewrite Hin. by apply truncated_not_whole.
  - apply Forall_cons in Hfits as [Hfit Hfits].
    cbn [wire flat_map] in Hin. fold (wire fs) in Hin. rewrite <- app_assoc in Hin.
    cbn [taken]. destruct (arrives f (pieces c)) eqn:Ha.
    + rewrite (round_frame _ _ _ _ _ Hfit Hin Ha). cbn [absorb].
      rewrite (dispatch_any_conn sep v _ _ _ (fresh [])).
      destruct (fst (dispatch sep v (Byte.to_N (fid f)) (payload f) (fresh [])))
        as [[|v']|e|]; try done.
      apply (IH fuel v' (set_stream (wire fs ++ tail) (past f (pieces c)) c) tail);
        try done. cbn in Hfuel. lia.
    + destruct (round_stops sep v c) as (c' & [->|[Hf' _]]); [|done|congruence].
      by rewrite Hin, starts_whole_frame.
Qed.

Lemma absorb_merged fs : forall v t,
  gather is_output fs = Some t ->
  absorb false v fs
  = Return {| output := output v ++ t; stdout := stdout v; stderr := stderr v;
              exit_code := exit_after (exit_code v) fs |}.
Proof.
  induction fs as [|f fs IH]; intros v t Hg; cbn [gather absorb exit_after] in *.
  { simplify_eq. by rewrite app_nil_r, locals_eta. }
  destruct (is_output (Byte.to_N (fid f))) eqn:Ho.
  - destruct (Py.decode_utf8 (payload f)) as [t1|] eqn:Hd; [|done].
    destruct (gather is_output fs) as [ts|] eqn:Hgs; [|done]. simplify_eq.
    rewrite (dispatch_merged _ _ _ t1) by done. cbn [fst].
    rewrite (IH _ ts) by done. cbn. rewrite app_assoc.
    destruct (N.eqb_spec (Byte.to_N (fid f)) ShellProtocolTypes.EXIT) as [He|]; [|done].
    rewrite He in Ho. done.
  - destruct (N.eqb_spec (Byte.to_N (fid f)) ShellProtocolTypes.EXIT) as [He|He].
    + rewrite He, dispatch_exit. cbn [fst]. by rewrite (IH _ t).
    + rewrite dispatch_other by done. cbn [fst]. by rewrite (IH _ t).
Qed.

Lemma absorb_merged_bad fs : forall v,
  gather is_output fs = None -> absorb false v fs = Raise UnicodeDecodeError.
Proof.
  induction fs as [|f fs IH]; intros v Hg; [done|]. cbn [gather absorb] in *.
  destruct (is_output (Byte.to_N (fid f))) eqn:Ho.
  - destruct (Py.decode_utf8 (payload f)) as [t|] eqn:Hd.
    + rewrite (dispatch_merged _ _ _ t) by done. cbn [fst].
      destruct (gather is_output fs) eqn:Hgs; [done|]. by apply IH.
    + by rewrite dispatch_merged_bad.
  - destruct (N.eqb_spec (Byte.to_N (fid f)) ShellProtocolTypes.EXIT) as [He|He].
    + rewrite He, dispatch_exit. cbn [fst]. by apply IH.
    + rewrite dispatch_other by done. cbn [fst]. by apply IH.
Qed.

Lemma stdout_not_stderr id : is_stdout id = true -> is_stderr id = false.
Proof. unfold is_stdout, is_stderr. by intros ->%N.eqb_eq. Qed.

Lemma absorb_separate fs : forall v t1 t2,
  gather is_stdout fs = Some t1 -> gather is_stderr fs = Some t2 ->
  absorb true v fs
  = Return {| output := output v; stdout := stdout v ++ t1;
              stderr := stderr v ++ t2;
              exit_code := exit_after (exit_code v) fs |}.
Proof.
  induction fs as [|f fs IH]; intros v t1 t2 Hg1 Hg2;
    cbn [gather absorb exit_after] in *.
  { simplify_eq. by rewrite !app_nil_r, locals_eta. }
  destruct (is_stdout (Byte.to_N (fid f))) eqn:Ho.
  - rewrite (stdout_not_stderr _ Ho) in Hg2.
    destruct (Py.decode_utf8 (payload f)) as [t|] eqn:Hd; [|done].
    destruct (gather is_stdout fs) as [ts|] eqn:Hgs; [|done]. simplify_eq.
    rewrite (dispatch_stdout _ _ _ t) by done. cbn [fst].
    rewrite (IH _ ts t2) by done. cbn. rewrite app_assoc.
    apply N.eqb_eq in Ho. by rewrite Ho.
  - destruct (is_stderr (Byte.to_N (fid f))) eqn:Ho2.
    + destruct (Py.decode_utf8 (payload f)) as [t|] eqn:Hd; [|done].
      destruct (gather is_stderr fs) as [ts|] eqn:Hgs; [|done]. simplify_eq.
      rewrite (dispatch_stderr _ _ _ t) by done. cbn [fst].
      rewrite (IH _ t1 ts) by done. cbn. rewrite app_assoc.
      apply N.eqb_eq in Ho2. by rewrite Ho2.
    + destruct (N.eqb_spec (Byte.to_N (fid f)) ShellProtocolTypes.EXIT) as [He|He].
      * rewrite He, dispatch_exit. cbn [fst]. by rewrite (IH _ t1 t2).
      * rewrite dispatch_other by (by unfold is_output; rewrite ?Ho, ?Ho2).
        cbn [fst]. by rewrite (IH _ t1 t2).
Qed.

Lemma absorb_separate_bad fs : forall v,
  gather is_stdout fs = None \/ gather is_stderr fs = None ->
  absorb true v fs = Raise UnicodeDecodeError.
Proof.
  induction fs as [|f fs IH]; intros v Hg; [by destruct Hg|].
  cbn [gather absorb] in *.
  destruct (is_stdout (Byte.to_N (fid f))) eqn:Ho.
  - rewrite (stdout_not_stderr _ Ho) in Hg.
    destruct (Py.decode_utf8 (payload f)) as [t|] eqn:Hd.
    + rewrite (dispatch_stdout _ _ _ t) by done. cbn [fst]. apply IH.
      destruct Hg as [Hg|Hg]; [|by right]. left.
      by destruct (gather is_stdout fs).
    + rewrite dispatch_separate_bad; [done| |done].
      unfold is_output. by rewrite Ho.
  - destruct (is_stderr (Byte.to_N (fid f))) eqn:Ho2.
    + destruct (Py.decode_utf8 (payload f)) as [t|] eqn:Hd.
      * rewrite (dispatch_stderr _ _ _ t) by done. cbn [fst]. apply IH.
        destruct Hg as [Hg|Hg]; [by left|]. right.
        by destruct (gather is_stderr fs).
      * rewrite dispatch_separate_bad; [done| |done].
        unfold is_output. by rewrite Ho, Ho2.
    + destruct (N.eqb_spec (Byte.to_N (fid f)) ShellProtocolTypes.EXIT) as [He|He].
      * rewrite He, dispatch_exit. cbn [fst]. by apply IH.
      * rewrite dispatch_other by (by unfold is_output; rewrite ?Ho, ?Ho2).
        cbn [fst]. by apply IH.
Qed.

Lemma wire_length fs : (length fs <= length (wire fs))%nat.
Proof.
  induction fs as [|f fs IH]; [done|].
  cbn [wire flat_map]. fold (wire fs). unfold frame_bytes.
  cbn [length]. rewrite length_app. cbn [length]. lia.
Qed.

(** [shell_v2] without a handler runs the frame loop on the connection
    once the command is sent. *)
Lemma shell_v2_unfold cmd sep c :
  shell_v2 cmd None sep c
  = let c1 := snd (send (Py.str "shell,v2:" ++ cmd) c) in
    match while_true (S (length (inbox c))) (shell_v2_round sep)
            shell_v2_start c1 with
    | (Return v, c2) =>
        (Return (Some (if sep then Separate (stdout v) (stderr v) (exit_code v)
                       else Merged (output v) (exit_code v))), c2)
    | (Raise e, c2) => (Raise e, c2)
    | (Unfinished, c2) => (Unfinished, c2)
    end.
Proof.
  unfold shell_v2, bind, pending, send. cbn [snd inbox].
  destruct (while_true (S _) (shell_v2_round sep) shell_v2_start _)
    as [[v|e|] c2]; [|done..].
  by destruct sep.
Qed.

(** What [shell_v2] returns or raises is what the [if]/[elif] chain makes
    of the frames that arrive whole. *)
Lemma shell_v2_taken cmd sep c fs tail :
  Forall fits fs -> fault c = false -> inbox c = wire fs ++ tail ->
  truncated tail = true ->
  fst (shell_v2 cmd None sep c)
  = match absorb sep shell_v2_start (taken fs (pieces c)) with
    | Return v =>
        Return (Some (if sep then Separate (stdout v) (stderr v) (exit_code v)
                      else Merged (output v) (exit_code v)))
    | Raise e => Raise e
    | Unfinished => Unfinished
    end.
Proof.
  intros Hfits Hf Hin Ht. rewrite shell_v2_unfold. cbv zeta.
  pose proof (loop_taken sep fs (S (length (inbox c))) shell_v2_start
                (snd (send (Py.str "shell,v2:" ++ cmd) c)) tail Hfits Hf Hin Ht)
    as Hl.
  cbn [pieces snd send] in Hl. rewrite <- Hl.
  - by destruct (while_true _ _ _ _) as [[v|e|] c2].
  - rewrite Hin, length_app. pose proof (wire_length fs). lia.
Qed.

Lemma shell_v2_merged cmd c fs tail t :
  Forall fits fs -> fault c = false -> inbox c = wire fs ++ tail ->
  truncated tail = true -> gather is_output (taken fs (pieces c)) = Some t ->
  fst (shell_v2 cmd None false c)
  = Return (Some (Merged t (exit_after 255 (taken fs (pieces c))))).
Proof.
  intros Hfits Hf Hin Ht Hg. rewrite (shell_v2_taken cmd false c fs tail) by done.
  by rewrite (absorb_merged _ _ t).
Qed.

Lemma shell_v2_separate cmd c fs tail t1 t2 :
  Forall fits fs -> fault c = false -> inbox c = wire fs ++ tail ->
  truncated tail = true ->
  gather is_stdout (taken fs (pieces c)) = Some t1 ->
  gather is_stderr (taken fs (pieces c)) = Some t2 ->
  fst (shell_v2 cmd None true c)
  = Return (Some (Separate t1 t2 (exit_after 255 (taken fs (pieces c))))).
Proof.
  intros Hfits Hf Hin Ht Hg1 Hg2.
  rewrite (shell_v2_taken cmd true c fs tail) by done.
  by rewrite (absorb_separate _ _ t1 t2).
Qed.

Lemma shell_v2_total cmd sep c :
  fst (shell_v2 cmd None sep c) <> Unfinished.
Proof.
  rewrite shell_v2_unfold. cbv zeta.
  pose proof (loop_total sep (S (length (inbox c))) shell_v2_start
                (snd (send (Py.str "shell,v2:" ++ cmd) c))) as Ht.
  destruct (while_true _ _ _ _) as [[v|e|] c2]; [done..|].
  exfalso. apply Ht; [|done]. cbn. lia.
Qed.

Lemma not_truncated l :
  truncated l = false ->
  exists id b0 b1 b2 b3 data,
    l = id :: b0 :: b1 :: b2 :: b3 :: data
    /\ Py.int_from_bytes_little [b0; b1; b2; b3] <= Py.len data.
Proof.
  destruct l as [|id [|b0 [|b1 [|b2 [|b3 data]]]]]; try done.
  intros Ht. exists id, b0, b1, b2, b3, data. split; [done|].
  by apply N.ltb_ge.
Qed.

(** Every stream is a sequence of whole frames followed by a truncated
    one (possibly by nothing). *)
Lemma stream_decomposes (bs : bytes) :
  exists fs tail, bs = wire fs ++ tail /\ Forall fits fs /\ truncated tail = true.
Proof.
  remember (length bs) as n eqn:Hn. revert bs Hn.
  induction n as [n IH] using lt_wf_ind. intros bs ->.
  destruct (truncated bs) eqn:Ht.
  { by exists [], bs. }
  apply not_truncated in Ht as (id & b0 & b1 & b2 & b3 & data & -> & Hle).
  set (k := N.to_nat (Py.int_from_bytes_little [b0; b1; b2; b3])).
  assert (Hk : Py.len (take k data) = Py.int_from_bytes_little [b0; b1; b2; b3]).
  { unfold Py.len in *. rewrite length_take. subst k. lia. }
  destruct (IH (length (drop k data))) with (bs := drop k data)
    as (fs & tail & Hd & Hf & Ht); [cbn; rewrite length_drop; lia|done|].
  exists ({| fid := id; payload := take k data |} :: fs), tail.
  split; [|split; [|done]].
  - cbn [wire flat_map]. fold (wire fs). unfold frame_bytes. cbn [fid payload].
    rewrite Hk, le32_bytes. cbn [app]. rewrite <- !app_assoc, <- Hd.
    by rewrite take_drop.
  - constructor; [|done]. unfold fits. cbn [payload]. rewrite Hk. apply int4_bound.
Qed.

Lemma absorb_cases sep fs : forall v,
  (exists v', absorb sep v fs = Return v')
  \/ absorb sep v fs = Raise UnicodeDecodeError.
Proof.
  induction fs as [|f fs IH]; intros v; [left; by eexists|].
  cbn [absorb].
  destruct (dispatch_cases sep v (Byte.to_N (fid f)) (payload f) (fresh []))
    as [[v' ->]| ->]; [apply IH|by right].
Qed.

(** On a stream that ends in an orderly way [shell_v2] returns, or fails
    on a payload that is not UTF-8; nothing else can happen. *)
Lemma shell_v2_outcomes cmd sep c :
  fault c = false ->
  (exists r, fst (shell_v2 cmd None sep c) = Return (Some r))
  \/ fst (shell_v2 cmd None sep c) = Raise UnicodeDecodeError.
Proof.
  intros Hf. destruct (stream_decomposes (inbox c)) as (fs & tail & Hin & Hfits & Ht).
  rewrite (shell_v2_taken cmd sep c fs tail) by done.
  destruct (absorb_cases sep (taken fs (pieces c)) shell_v2_start) as [[v' ->]| ->];
    [left; by eexists|by right].
Qed.

(** When [shell_v2] returns on a stream all of whose frames arrive whole,
    what is left of the stream is an end of the truncated frame: the
    frames were read to the last byte. *)
Lemma loop_drains sep fs : forall fuel v c tail,
  Forall fits fs -> inbox c = wire fs ++ tail -> taken fs (pieces c) = fs ->
  (exists v', fst (while_true fuel (shell_v2_round sep) v c) = Return v') ->
  exists pre, tail = pre ++ inbox (snd (while_true fuel (shell_v2_round sep) v c)).
Proof.
  induction fs as [|f fs IH]; intros fuel v c tail Hfits Hin Htk Hret.
  - cbn [wire flat_map app] in Hin. rewrite <- Hin.
    apply while_true_reads_ahead. apply round_reads_ahead.
  - destruct fuel as [|fuel]; [by destruct Hret|].
    apply Forall_cons in Hfits as [Hfit Hfits].
    cbn [wire flat_map] in Hin. fold (wire fs) in Hin. rewrite <- app_assoc in Hin.
    cbn [taken] in Htk. destruct (arrives f (pieces c)) eqn:Ha; [|done].
    injection Htk as Htk.
    rewrite while_true_S in *.
    rewrite (round_frame _ _ _ _ _ Hfit Hin Ha) in *.
    destruct (dispatch_cases sep v (Byte.to_N (fid f)) (payload f)
                (set_stream (wire fs ++ tail) (past f (pieces c)) c))
      as [[v' Hd]|Hd]; rewrite Hd in *.
    + by apply (IH fuel v' _ tail).
    + by destruct Hret.
Qed.

End WireFacts.

(* ===================================================================== *)
(** ** What [shell_v2] returns *)
(* ===================================================================== *)

Module ShellV2.
Import Conn Transport Wire WireFacts.

Lemma gather_decodable want fs :
  decodable fs -> (forall id, want id = true -> is_output id = true) ->
  is_Some (gather want fs).
Proof.
  intros Hd Hw. induction Hd as [|f fs Hf _ IH]; cbn; [done|].
  destruct (want (Byte.to_N (fid f))) eqn:E; [|done].
  destruct (Hf (Hw _ E)) as [t ->]. by destruct IH as [ts ->].
Qed.

Lemma stdout_is_output id : is_stdout id = true -> is_output id = true.
Proof. unfold is_output. by intros ->. Qed.

Lemma stderr_is_output id : is_stderr id = true -> is_output id = true.
Proof. unfold is_output. intros ->. by rewrite orb_true_r. Qed.

(** Frames whose STDOUT payloads and whose STDERR payloads can all be
    decoded are decodable. *)
Lemma gather_both_decodable fs :
  is_Some (gather is_stdout fs) -> is_Some (gather is_stderr fs) -> decodable fs.
Proof.
  induction fs as [|f fs IH]; intros H1 H2; [constructor|].
  cbn [gather] in H1, H2.
  destruct (is_stdout (Byte.to_N (fid f))) eqn:Ho.
  - rewrite (stdout_not_stderr _ Ho) in H2.
    destruct (Py.decode_utf8 (payload f)) as [t|] eqn:Hd; [|by destruct H1].
    constructor; [by eexists|]. apply IH; [|done].
    by destruct (gather is_stdout fs).
  - destruct (is_stderr (Byte.to_N (fid f))) eqn:Ho2.
    + destruct (Py.decode_utf8 (payload f)) as [t|] eqn:Hd; [|by destruct H2].
      constructor; [by eexists|]. apply IH; [done|].
      by destruct (gather is_stderr fs).
    + constructor; [|by apply IH]. unfold is_output. by rewrite Ho, Ho2.
Qed.

Lemma gather_output_decodable fs :
  is_Some (gather is_output fs) -> decodable fs.
Proof.
  induction fs as [|f fs IH]; intros H; [constructor|].
  cbn [gather] in H. destruct (is_output (Byte.to_N (fid f))) eqn:Ho.
  - destruct (Py.decode_utf8 (payload f)) as [t|] eqn:Hd; [|by destruct H].
    constructor; [by eexists|]. apply IH. by destruct (gather is_output fs).
  - constructor; [by rewrite Ho|by apply IH].
Qed.

Lemma exit_after_no_exit code fs :
  has_exit fs = false -> exit_after code fs = code.
Proof.
  induction fs as [|f fs IH]; cbn; [done|].
  intros [-> Hfs]%orb_false_elim. by apply IH.
Qed.

Lemma gather_app want fs1 fs2 :
  gather want (fs1 ++ fs2)
  = match gather want fs1, gather want fs2 with
    | Some t1, Some t2 => Some (t1 ++ t2)
    | _, _ => None
    end.
Proof.
  induction fs1 as [|f fs1 IH]; cbn [app gather].
  - by destruct (gather want fs2).
  - destruct (want (Byte.to_N (fid f))); [|done].
    destruct (Py.decode_utf8 (payload f)) as [t|]; [|done].
    rewrite IH. destruct (gather want fs1), (gather want fs2); try done.
    by rewrite app_assoc.
Qed.

Lemma exit_after_app code fs1 fs2 :
  exit_after code (fs1 ++ fs2) = exit_after (exit_after code fs1) fs2.
Proof. revert code. induction fs1 as [|f fs1 IH]; intros code; cbn; done. Qed.

(** A frame that is neither wanted nor an EXIT frame adds nothing to what
    is gathered and leaves the exit code as it is. *)
Lemma gather_skip want fs f fs' :
  want (Byte.to_N (fid f)) = false ->
  gather want (fs ++ f :: fs') = gather want (fs ++ fs').
Proof. intros Hw. rewrite !gather_app. cbn [gather]. by rewrite Hw. Qed.

Lemma exit_after_skip code fs f fs' :
  Byte.to_N (fid f) <> ShellProtocolTypes.EXIT ->
  exit_after code (fs ++ f :: fs') = exit_after code (fs ++ fs').
Proof.
  intros He. rewrite !exit_after_app. cbn [exit_after].
  by apply N.eqb_neq in He as ->.
Qed.

(** One round on a STDOUT or STDERR frame that arrives whole and whose
    payload is the text [t]: [t] is appended to [output] when the output
    is merged, to [stdout] or [stderr] according to the id when it is
    not. *)
Lemma round_appends v c f rest t :
  fits f -> inbox c = frame_bytes f ++ rest -> arrives f (pieces c) = true ->
  Py.decode_utf8 (payload f) = Some t ->
  (is_output (Byte.to_N (fid f)) = true ->
   shell_v2_round false v c
   = (Return (Continue {| output := output v ++ t; stdout := stdout v;
                          stderr := stderr v; exit_code := exit_code v |}),
      set_stream rest (past f (pieces c)) c))
  /\ (is_stdout (Byte.to_N (fid f)) = true ->
      shell_v2_round true v c
      = (Return (Continue {| output := output v; stdout := stdout v ++ t;
                             stderr := stderr v; exit_code := exit_code v |}),
         set_stream rest (past f (pieces c)) c))
  /\ (is_stderr (Byte.to_N (fid f)) = true ->
      shell_v2_round true v c
      = (Return (Continue {| output := output v; stdout := stdout v;
                             stderr := stderr v ++ t; exit_code := exit_code v |}),
         set_stream rest (past f (pieces c)) c)).
Proof.
  intros Hfit Hin Ha Hd. repeat split; intros Hid;
    rewrite (round_frame _ v c f rest Hfit Hin Ha).
  - by apply dispatch_merged.
  - by apply dispatch_stdout.
  - by apply dispatch_stderr.
Qed.

Lemma shell_v2_drains cmd sep c fs tail :
  Forall fits fs -> inbox c = wire fs ++ tail -> taken fs (pieces c) = fs ->
  (exists r, fst (shell_v2 cmd None sep c) = Return r) ->
  exists pre, tail = pre ++ inbox (snd (shell_v2 cmd None sep c)).
Proof.
  intros Hfits Hin Htk [r Hr]. rewrite shell_v2_unfold in *. cbv zeta in *.
  pose proof (loop_drains sep fs (S (length (inbox c))) shell_v2_start
                (snd (send (Py.str "shell,v2:" ++ cmd) c)) tail Hfits Hin Htk)
    as Hl.
  destruct (while_true _ _ _ _) as [[v|e|] c2]; [|done..].
  apply Hl. by eexists.
Qed.

(** C1, as stated, fails: when the first piece of the frames
    (STDOUT,"A"), (STDERR,"B"), (EXIT,0) to arrive ends inside the length
    of the first frame, the read of that length comes back short, the loop
    ends, and [shell_v2] returns ("", 255) merged and ("", "", 255)
    separate, although the three frames are followed by an orderly end of
    the stream. *)
Lemma short_read_ends_the_loop :
  inbox a_b_exit_split = wire (a_b_exit [Byte.x00])
  /\ fault a_b_exit_split = false
  /\ fst (shell_v2 (Py.str "ls") None false a_b_exit_split)
     = Return (Some (Merged [] 255))
  /\ fst (shell_v2 (Py.str "ls") None true a_b_exit_split)
     = Return (Some (Separate [] [] 255))
  /\ fst (shell_v2 (Py.str "ls") None false a_b_exit_split)
     <> Return (Some (Merged (Py.str "AB") 0))
  /\ fst (shell_v2 (Py.str "ls") None true a_b_exit_split)
     <> Return (Some (Separate (Py.str "A") (Py.str "B") 0)).
Proof.
  assert (Hm : fst (shell_v2 (Py.str "ls") None false a_b_exit_split)
               = Return (Some (Merged [] 255))) by (vm_compute; reflexivity).
  assert (Hs : fst (shell_v2 (Py.str "ls") None true a_b_exit_split)
               = Return (Some (Separate [] [] 255))) by (vm_compute; reflexivity).
  split; [reflexivity|]. split; [reflexivity|]. split; [exact Hm|].
  split; [exact Hs|]. rewrite Hm, Hs. split; discriminate.
Qed.

(** C1, amended: with merged output the decoded STDOUT and STDERR
    payloads of the frames that arrive whole, those before the first read
    that comes back short, are appended to the one output accumulator in
    arrival order, with separate streams each is appended to its own
    accumulator: so for the stream as a whole, and so round by round; when
    no piece ends inside a length or a payload these are all the frames of
    the stream; in particular the frames (STDOUT,"A"), (STDERR,"B"),
    (EXIT, payload encoding 0) followed by the end of the stream then give
    ("AB", 0) merged and ("A", "B", 0) separate. *)
Theorem shell_v2_appends_in_arrival_order cmd c fs tail
    (Hfits : Forall fits fs) (Hfault : fault c = false)
    (Hin : inbox c = wire fs ++ tail) (Htail : truncated tail = true) :
  (forall t, gather is_output (taken fs (pieces c)) = Some t ->
     fst (shell_v2 cmd None false c)
     = Return (Some (Merged t (exit_after 255 (taken fs (pieces c))))))
  /\ (forall t1 t2,
        gather is_stdout (taken fs (pieces c)) = Some t1 ->
        gather is_stderr (taken fs (pieces c)) = Some t2 ->
        fst (shell_v2 cmd None true c)
        = Return (Some (Separate t1 t2 (exit_after 255 (taken fs (pieces c))))))
  /\ (exists rest, fs = taken fs (pieces c) ++ rest)
  /\ (unsplit fs (pieces c) -> taken fs (pieces c) = fs)
  /\ (forall v c' f rest t,
        fits f -> inbox c' = frame_bytes f ++ rest ->
        arrives f (pieces c') = true ->
        Py.decode_utf8 (payload f) = Some t ->
        (is_output (Byte.to_N (fid f)) = true ->
         shell_v2_round false v c'
         = (Return (Continue {| output := output v ++ t; stdout := stdout v;
                                stderr := stderr v;
                                exit_code := exit_code v |}),
            set_stream rest (past f (pieces c')) c'))
        /\ (is_stdout (Byte.to_N (fid f)) = true ->
            shell_v2_round true v c'
            = (Return (Continue {| output := output v;
                                   stdout := stdout v ++ t;
                                   stderr := stderr v;
                                   exit_code := exit_code v |}),
               set_stream rest (past f (pieces c')) c'))
        /\ (is_stderr (Byte.to_N (fid f)) = true ->
            shell_v2_round true v c'
            = (Return (Continue {| output := output v; stdout := stdout v;
                                   stderr := stderr v ++ t;
                                   exit_code := exit_code v |}),
               set_stream rest (past f (pieces c')) c')))
  /\ (forall c' code,
        fault c' = false -> inbox c' = wire (a_b_exit code) ->
        unsplit (a_b_exit code) (pieces c') ->
        Py.int_from_bytes_little code = 0 -> Py.len code < 4294967296 ->
        fst (shell_v2 cmd None false c')
        = Return (Some (Merged (Py.str "AB") 0))
        /\ fst (shell_v2 cmd None true c')
           = Return (Some (Separate (Py.str "A") (Py.str "B") 0))).
Proof.
  split; [|split; [|split; [|split; [|split]]]].
  - intros t Hg. by apply (shell_v2_merged cmd c fs tail).
  - intros t1 t2 Hg1 Hg2. by apply (shell_v2_separate cmd c fs tail).
  - apply taken_prefix.
  - apply taken_unsplit.
  - intros v c' f rest t. apply round_appends.
  - intros c' code Hf' Hin' Hu Hcode Hlen.
    assert (Hfs : Forall fits (a_b_exit code)).
    { repeat constructor; done. }
    assert (Hi : inbox c' = wire (a_b_exit code) ++ []) by (by rewrite app_nil_r).
    pose proof (taken_unsplit _ _ Hu) as Htk.
    split.
    + rewrite (shell_v2_merged cmd c' (a_b_exit code) [] (Py.str "AB"));
        rewrite ?Htk; try done.
      cbn. by rewrite Hcode.
    + rewrite (shell_v2_separate cmd c' (a_b_exit code) [] (Py.str "A") (Py.str "B"));
        rewrite ?Htk; try done.
      cbn. by rewrite Hcode.
Qed.

Lemma frame_by_frame_unsplit :
  unsplit (a_b_exit [Byte.x00]) [6%positive; 6%positive; 6%positive].
Proof.
  intros x Hx. left. cbn in Hx |- *.
  repeat (apply elem_of_cons in Hx as [->|Hx];
          [apply (bool_decide_eq_true_1 _); vm_compute; reflexivity|]).
  by apply elem_of_nil in Hx.
Qed.

Lemma shell_v2_appends_in_arrival_order_witness :
  let fs := a_b_exit [Byte.x00] in
  let c := arriving (wire fs) [6%positive; 6%positive; 6%positive] in
  Forall fits fs /\ fault c = false /\ inbox c = wire fs ++ [] /\ truncated [] = true
  /\ unsplit fs (pieces c)
  /\ fst (shell_v2 (Py.str "ls") None false c) = Return (Some (Merged (Py.str "AB") 0))
  /\ fst (shell_v2 (Py.str "ls") None true c)
     = Return (Some (Separate (Py.str "A") (Py.str "B") 0)).
Proof.
  intros fs c.
  assert (H1 : Forall fits fs) by (repeat constructor; reflexivity).
  assert (H2 : fault c = false) by reflexivity.
  assert (H3 : inbox c = wire fs ++ []) by reflexivity.
  assert (H4 : truncated [] = true) by reflexivity.
  assert (H5 : unsplit fs (pieces c)) by apply frame_by_frame_unsplit.
  destruct (shell_v2_appends_in_arrival_order (Py.str "ls") c fs [] H1 H2 H3 H4)
    as (_ & _ & _ & _ & _ & Hab).
  exact (conj H1 (conj H2 (conj H3 (conj H4 (conj H5
           (Hab c [Byte.x00] H2 eq_refl H5 eq_refl eq_refl)))))).
Defined.

(** C2, as stated, fails: a stream that ends inside a frame makes
    [shell_v2] raise when a whole STDOUT frame before the cut is not UTF-8. *)
Lemma truncated_stream_may_raise :
  truncated cut_frame = true
  /\ fst (shell_v2 (Py.str "ls") None false (fresh bad_text_then_cut))
     = Raise UnicodeDecodeError
  /\ ~ (exists r, fst (shell_v2 (Py.str "ls") None false (fresh bad_text_then_cut))
                  = Return r).
Proof.
  assert (H : fst (shell_v2 (Py.str "ls") None false (fresh bad_text_then_cut))
              = Raise UnicodeDecodeError) by (vm_compute; reflexivity).
  split; [reflexivity|]. split; [exact H|].
  intros [r Hr]. rewrite H in Hr. discriminate.
Qed.

(** C2, amended: a stream that ends inside a frame makes [shell_v2]
    return normally when the STDOUT and STDERR frames read before the
    first short read (all the whole frames, when no piece ends inside a
    length or a payload) carry UTF-8 text; it then returns their output,
    and exit code 255 when none of them is an EXIT frame; when one of
    them does not carry UTF-8 text, [shell_v2] raises the decode error,
    with merged output and with separate streams. *)
Theorem truncated_stream_returns_partial_output cmd c fs tail
    (Hfits : Forall fits fs) (Hfault : fault c = false)
    (Hin : inbox c = wire fs ++ tail) (Htail : truncated tail = true) :
  (decodable (taken fs (pieces c)) ->
   exists both out err,
     gather is_output (taken fs (pieces c)) = Some both
     /\ gather is_stdout (taken fs (pieces c)) = Some out
     /\ gather is_stderr (taken fs (pieces c)) = Some err
     /\ fst (shell_v2 cmd None false c)
        = Return (Some (Merged both (exit_after 255 (taken fs (pieces c)))))
     /\ fst (shell_v2 cmd None true c)
        = Return (Some (Separate out err (exit_after 255 (taken fs (pieces c)))))
     /\ (has_exit (taken fs (pieces c)) = false ->
         exit_after 255 (taken fs (pieces c)) = 255))
  /\ (~ decodable (taken fs (pieces c)) ->
      fst (shell_v2 cmd None false c) = Raise UnicodeDecodeError
      /\ fst (shell_v2 cmd None true c) = Raise UnicodeDecodeError)
  /\ (unsplit fs (pieces c) -> taken fs (pieces c) = fs).
Proof.
  split; [|split; [|apply taken_unsplit]].
  - intros Hdec.
    destruct (gather_decodable is_output _ Hdec) as [both Hb]; [done|].
    destruct (gather_decodable is_stdout _ Hdec stdout_is_output) as [out Ho].
    destruct (gather_decodable is_stderr _ Hdec stderr_is_output) as [err He].
    exists both, out, err. repeat split; try done.
    + by apply (shell_v2_merged cmd c fs tail).
    + by apply (shell_v2_separate cmd c fs tail).
    + apply exit_after_no_exit.
  - intros Hbad. split.
    + rewrite (shell_v2_taken cmd false c fs tail) by done.
      rewrite absorb_merged_bad; [done|].
      destruct (gather is_output (taken fs (pieces c))) eqn:Hg; [|done].
      exfalso. apply Hbad, gather_output_decodable. by rewrite Hg.
    + rewrite (shell_v2_taken cmd true c fs tail) by done.
      rewrite absorb_separate_bad; [done|].
      destruct (gather is_stdout (taken fs (pieces c))) eqn:Hg1; [|by left].
      destruct (gather is_stderr (taken fs (pieces c))) eqn:Hg2; [|by right].
      exfalso. apply Hbad, gather_both_decodable; by rewrite ?Hg1, ?Hg2.
Qed.

Lemma truncated_stream_returns_partial_output_witness :
  let fs := [mk ShellProtocolTypes.STDOUT (Py.ascii_bytes "A")] in
  let c := fresh (wire fs ++ cut_frame) in
  Forall fits fs /\ fault c = false /\ inbox c = wire fs ++ cut_frame
  /\ truncated cut_frame = true /\ decodable (taken fs (pieces c))
  /\ exists both out err,
       gather is_output (taken fs (pieces c)) = Some both
       /\ gather is_stdout (taken fs (pieces c)) = Some out
       /\ gather is_stderr (taken fs (pieces c)) = Some err
       /\ fst (shell_v2 (Py.str "ls") None false c)
          = Return (Some (Merged both (exit_after 255 (taken fs (pieces c)))))
       /\ fst (shell_v2 (Py.str "ls") None true c)
          = Return (Some (Separate out err (exit_after 255 (taken fs (pieces c)))))
       /\ (has_exit (taken fs (pieces c)) = false ->
           exit_after 255 (taken fs (pieces c)) = 255).
Proof.
  intros fs c.
  assert (H1 : Forall fits fs) by (repeat constructor; reflexivity).
  assert (H2 : fault c = false) by reflexivity.
  assert (H3 : inbox c = wire fs ++ cut_frame) by reflexivity.
  assert (H4 : truncated cut_frame = true) by reflexivity.
  assert (H5 : decodable (taken fs (pieces c))).
  { repeat constructor. intros _. exists (Py.str "A"). reflexivity. }
  exact (conj H1 (conj H2 (conj H3 (conj H4 (conj H5
    (proj1 (truncated_stream_returns_partial_output (Py.str "ls") c fs cut_frame
              H1 H2 H3 H4) H5)))))).
Defined.

Lemma ignored_id id :
  ignored id -> Byte.to_N (Py.byte_of_N id) = id /\ is_output id = false
                /\ id <> ShellProtocolTypes.EXIT.
Proof. intros [-> | [-> | [-> | ->]]]; by vm_compute. Qed.

(** C3, as stated, fails: a WINDOW_SIZE_CHANGE frame whose payload
    arrives in two pieces is not read in full: the read of the payload
    comes back short after two bytes, the loop ends, the rest of the
    payload stays unread and the STDOUT frame after it is not
    processed. *)
Lemma split_frame_is_not_drained :
  inbox window_split = wire window_then_b
  /\ fault window_split = false
  /\ shell_v2 (Py.str "ls") None false window_split
     = (Return (Some (Merged [] 255)),
        {| sent := [Py.str "shell,v2:ls"];
           inbox := Py.ascii_bytes "x24"
                    ++ frame_bytes (mk ShellProtocolTypes.STDOUT
                                      (Py.ascii_bytes "B"));
           pieces := []; fault := false; replies := []; closed := false |})
  /\ fst (shell_v2 (Py.str "ls") None false window_split)
     <> Return (Some (Merged (Py.str "B") 255)).
Proof.
  assert (H : shell_v2 (Py.str "ls") None false window_split
              = (Return (Some (Merged [] 255)),
                 {| sent := [Py.str "shell,v2:ls"];
                    inbox := Py.ascii_bytes "x24"
                             ++ frame_bytes (mk ShellProtocolTypes.STDOUT
                                               (Py.ascii_bytes "B"));
                    pieces := []; fault := false; replies := [];
                    closed := false |}))
    by (vm_compute; reflexivity).
  split; [reflexivity|]. split; [reflexivity|]. split; [exact H|].
  rewrite H. discriminate.
Qed.

(** C3, amended: a frame with id STDIN, CLOSE_STDIN, WINDOW_SIZE_CHANGE or
    INVALID that arrives whole is read in full and dropped: when it is
    among the frames [shell_v2] reads in full, wherever it stands among
    them (so also after an EXIT frame), [shell_v2] returns what these
    frames give without it, those after it included, and has then read
    the stream beyond the last byte of the frame; the round that reads it
    is no error and changes neither an accumulator nor the exit code,
    whatever they are, and the loop goes on with the rest of the stream; a
    round leaves the loop exactly when it does not find a whole frame,
    that is when one of its reads comes back short, whatever the frame
    id. *)
Theorem ignored_frames_are_drained cmd sep c before id data after got tail
    (Hid : ignored id) (Hfit : Py.len data < 4294967296)
    (Hfits : Forall fits (before ++ after)) (Hfault : fault c = false)
    (Hin : inbox c = wire (before ++ mk id data :: after) ++ tail)
    (Htail : truncated tail = true)
    (Hgot : taken (before ++ mk id data :: after) (pieces c)
            = before ++ mk id data :: got) :
  (forall t, gather is_output (before ++ got) = Some t ->
     fst (shell_v2 cmd None false c)
     = Return (Some (Merged t (exit_after 255 (before ++ got)))))
  /\ (forall t1 t2,
        gather is_stdout (before ++ got) = Some t1 ->
        gather is_stderr (before ++ got) = Some t2 ->
        fst (shell_v2 cmd None true c)
        = Return (Some (Separate t1 t2 (exit_after 255 (before ++ got)))))
  /\ (forall r, fst (shell_v2 cmd None sep c) = Return r ->
        exists pre,
          wire after ++ tail = pre ++ inbox (snd (shell_v2 cmd None sep c)))
  /\ (unsplit (before ++ mk id data :: after) (pieces c) -> got = after)
  /\ (forall v c' rest,
        inbox c' = frame_bytes (mk id data) ++ rest ->
        arrives (mk id data) (pieces c') = true ->
        shell_v2_round sep v c'
        = (Return (Continue v),
           set_stream rest (past (mk id data) (pieces c')) c'))
  /\ (forall v c',
        fault c' = false ->
        (fst (shell_v2_round sep v c') = Return Break
         <-> starts_whole (inbox c') (pieces c') = false)).
Proof.
  destruct (ignored_id id Hid) as (Hb & Ho & He).
  assert (Hall : Forall fits (before ++ mk id data :: after)).
  { apply Forall_app in Hfits as [H1 H2]. apply Forall_app. split; [done|].
    by constructor. }
  assert (Hnot : forall want, (forall i, want i = true -> is_output i = true) ->
            want (Byte.to_N (fid (mk id data))) = false).
  { intros want Hw. cbn [fid mk]. rewrite Hb.
    destruct (want id) eqn:E; [|done]. apply Hw in E. congruence. }
  assert (Hex : Byte.to_N (fid (mk id data)) <> ShellProtocolTypes.EXIT).
  { cbn [fid mk]. by rewrite Hb. }
  split; [|split; [|split; [|split; [|split]]]].
  - intros t Hg.
    assert (Hg' : gather is_output
                    (taken (before ++ mk id data :: after) (pieces c)) = Some t).
    { rewrite Hgot, gather_skip; [done|]. by apply Hnot. }
    rewrite (shell_v2_merged cmd c _ tail t Hall Hfault Hin Htail Hg').
    by rewrite Hgot, exit_after_skip.
  - intros t1 t2 Hg1 Hg2.
    assert (Hg1' : gather is_stdout
                     (taken (before ++ mk id data :: after) (pieces c)) = Some t1).
    { rewrite Hgot, gather_skip; [done|]. apply Hnot, stdout_is_output. }
    assert (Hg2' : gather is_stderr
                     (taken (before ++ mk id data :: after) (pieces c)) = Some t2).
    { rewrite Hgot, gather_skip; [done|]. apply Hnot, stderr_is_output. }
    rewrite (shell_v2_separate cmd c _ tail t1 t2 Hall Hfault Hin Htail Hg1' Hg2').
    by rewrite Hgot, exit_after_skip.
  - intros r Hr.
    apply (shell_v2_drains cmd sep c (before ++ [mk id data]) (wire after ++ tail)).
    + apply Forall_app in Hall as [H1 H2]. apply Forall_app. split; [done|].
      apply Forall_cons in H2 as [H2 _]. by constructor.
    + rewrite Hin. unfold wire. rewrite !flat_map_app. cbn [flat_map].
      by rewrite app_nil_r, <- !app_assoc.
    + apply (taken_app _ after _ got).
      by rewrite <- !app_assoc.
    + by exists r.
  - intros Hwhole. rewrite (taken_unsplit _ _ Hwhole) in Hgot.
    apply app_inv_head in Hgot. by injection Hgot.
  - intros v c' rest Hin' Ha.
    rewrite (round_frame sep v c' (mk id data) rest Hfit Hin' Ha).
    cbn [fid payload mk]. rewrite Hb. by apply dispatch_other.
  - intros v c'. apply round_break_iff.
Qed.

Lemma ignored_frames_are_drained_witness :
  let before := [mk ShellProtocolTypes.EXIT [Byte.x07]] in
  let data := Py.ascii_bytes "80x24" in
  let after := [mk ShellProtocolTypes.STDOUT (Py.ascii_bytes "B")] in
  let c := arriving (wire (before ++ mk ShellProtocolTypes.WINDOW_SIZE_CHANGE data
                             :: after))
             [6%positive; 10%positive; 6%positive] in
  ignored ShellProtocolTypes.WINDOW_SIZE_CHANGE /\ Py.len data < 4294967296
  /\ Forall fits (before ++ after) /\ fault c = false
  /\ inbox c = wire (before ++ mk ShellProtocolTypes.WINDOW_SIZE_CHANGE data
                       :: after) ++ []
  /\ truncated [] = true
  /\ taken (before ++ mk ShellProtocolTypes.WINDOW_SIZE_CHANGE data :: after)
       (pieces c)
     = before ++ mk ShellProtocolTypes.WINDOW_SIZE_CHANGE data :: after
  /\ fst (shell_v2 (Py.str "ls") None false c)
     = Return (Some (Merged (Py.str "B") 7)).
Proof.
  intros before data after c.
  assert (H1 : ignored ShellProtocolTypes.WINDOW_SIZE_CHANGE).
  { right. right. left. reflexivity. }
  assert (H2 : Py.len data < 4294967296) by reflexivity.
  assert (H3 : Forall fits (before ++ after)) by (repeat constructor; reflexivity).
  assert (H4 : fault c = false) by reflexivity.
  assert (H5 : inbox c
               = wire (before ++ mk ShellProtocolTypes.WINDOW_SIZE_CHANGE data
                         :: after) ++ [])
    by reflexivity.
  assert (H6 : truncated [] = true) by reflexivity.
  assert (H7 : taken (before ++ mk ShellProtocolTypes.WINDOW_SIZE_CHANGE data
                        :: after) (pieces c)
               = before ++ mk ShellProtocolTypes.WINDOW_SIZE_CHANGE data :: after)
    by reflexivity.
  exact (conj H1 (conj H2 (conj H3 (conj H4 (conj H5 (conj H6 (conj H7
    (proj1 (ignored_frames_are_drained (Py.str "ls") false c before
              ShellProtocolTypes.WINDOW_SIZE_CHANGE data after after []
              H1 H2 H3 H4 H5 H6 H7) (Py.str "B") eq_refl)))))))).
Defined.

End ShellV2.

(* ===================================================================== *)
(** ** Properties of the boot-readiness poller *)
(* ===================================================================== *)

Module PollerFacts.
Import Conn Poller.
Local Open Scope Q_scope.

Lemma zero_is_not_ready : bool_decide (Py.strip (Py.str "0") = Py.str "1") = false.
Proof. reflexivity. Qed.

Lemma clock_readings_app l1 l2 :
  clock_readings (l1 ++ l2) = clock_readings l1 ++ clock_readings l2.
Proof.
  induction l1 as [|e l1 IH]; [done|].
  destruct e; cbn; by rewrite ?IH.
Qed.

(** One round of the loop when the query answers "0". *)
Lemma round_not_ready fuel dev end_time timedelta w :
  answer dev (calls w) = Return (Some (Py.str "0")) -> 0 < timedelta ->
  wait_loop (S fuel) dev end_time timedelta w
  = if Qlt_le_dec end_time (now (asked dev w))
    then (Raise TimeoutError, looked dev w)
    else wait_loop fuel dev end_time timedelta
           (time_sleep dev timedelta (looked dev w)).
Proof.
  intros Ha Hd. cbn [wait_loop]. unfold shell_call. rewrite Ha.
  rewrite zero_is_not_ready. unfold time_time.
  destruct (Qlt_le_dec end_time _); [done|].
  destruct (Qlt_le_dec 0 timedelta); [done|]. lra.
Qed.

Ltac tidy_log :=
  cbn [log looked asked time_time time_sleep shell_call snd];
  rewrite ?clock_readings_app; cbn [clock_readings];
  rewrite ?app_nil_r, <- ?app_assoc; cbn [app].

(** C5, amended: with timeout 2 and poll interval 1, against a query that
    always returns "0", on a clock that never runs backwards and when the
    first query returns within the timeout, the call raises the timeout
    error, strictly after the deadline (more than 2 seconds after entry)
    and after at least 2 query attempts; the deadline is the clock reading
    at entry plus the timeout throughout: every reading before the last
    was at most that, the last one exceeds it. *)
Theorem wait_boot_complete_times_out dev w fuel
    (Hans : forall n, answer dev n = Return (Some (Py.str "0")))
    (Hlat : forall n, 0 <= latency dev n)
    (Hover : forall n, 0 <= oversleep dev n)
    (Hfirst : latency dev (calls w) <= 2)
    (Hfuel : (4 <= fuel)%nat) :
  exists w' readings,
    wait_boot_complete fuel dev 2 1 w = (Raise TimeoutError, w')
    /\ now w + 2 < now w'
    /\ (calls w + 2 <= calls w')%nat
    /\ clock_readings (log w')
       = clock_readings (log w) ++ now w :: readings ++ [now w']
    /\ Forall (fun t => t <= now w + 2) readings.
Proof.
  destruct fuel as [|[|[|[|fuel]]]]; try lia. clear Hfuel.
  unfold wait_boot_complete, time_time.
  set (w1 := {| now := now w; calls := calls w; naps := naps w;
                log := log w ++ [Clock (now w)] |}).
  pose proof (Hlat (calls w)) as L0. pose proof (Hlat (S (calls w))) as L1.
  pose proof (Hlat (S (S (calls w)))) as L2.
  pose proof (Hlat (S (S (S (calls w))))) as L3.
  pose proof (Hover (naps w)) as O0. pose proof (Hover (S (naps w))) as O1.
  pose proof (Hover (S (S (naps w)))) as O2.
  rewrite round_not_ready by (apply Hans || lra).
  destruct (Qlt_le_dec _ _) as [H1|H1]; [cbn in H1; lra|].
  set (w2 := time_sleep dev 1 (looked dev w1)).
  rewrite round_not_ready by (apply Hans || lra).
  destruct (Qlt_le_dec _ _) as [H2|H2].
  { exists (looked dev w2), [now (asked dev w1)].
    split; [done|]. cbn in H1, H2 |- *. split; [lra|]. split; [lia|].
    split; [by tidy_log|]. repeat constructor. lra. }
  set (w3 := time_sleep dev 1 (looked dev w2)).
  rewrite round_not_ready by (apply Hans || lra).
  destruct (Qlt_le_dec _ _) as [H3|H3].
  { exists (looked dev w3), [now (asked dev w1); now (asked dev w2)].
    split; [done|]. cbn in H1, H2, H3 |- *. split; [lra|]. split; [lia|].
    split; [by tidy_log|]. repeat constructor; lra. }
  set (w4 := time_sleep dev 1 (looked dev w3)).
  rewrite round_not_ready by (apply Hans || lra).
  destruct (Qlt_le_dec _ _) as [H4|H4].
  { exists (looked dev w4),
      [now (asked dev w1); now (asked dev w2); now (asked dev w3)].
    split; [done|]. cbn in H1, H2, H3, H4 |- *. split; [lra|]. split; [lia|].
    split; [by tidy_log|]. repeat constructor; lra. }
  cbn in H1, H2, H3, H4. lra.
Qed.

Lemma wait_boot_complete_times_out_witness :
  (forall n, answer instant n = Return (Some (Py.str "0")))
  /\ (forall n, 0 <= latency instant n)
  /\ (forall n, 0 <= oversleep instant n)
  /\ latency instant (calls start) <= 2
  /\ (4 <= 4)%nat
  /\ exists w' readings,
       wait_boot_complete 4 instant 2 1 start = (Raise TimeoutError, w')
       /\ now start + 2 < now w'
       /\ (calls start + 2 <= calls w')%nat
       /\ clock_readings (log w')
          = clock_readings (log start) ++ now start :: readings ++ [now w']
       /\ Forall (fun t => t <= now start + 2) readings.
Proof.
  assert (H1 : forall n, answer instant n = Return (Some (Py.str "0")))
    by (intros n; reflexivity).
  assert (H2 : forall n, 0 <= latency instant n) by (intros n; cbn; lra).
  assert (H3 : forall n, 0 <= oversleep instant n) by (intros n; cbn; lra).
  assert (H4 : latency instant (calls start) <= 2) by (cbn; lra).
  assert (H5 : (4 <= 4)%nat) by lia.
  exact (conj H1 (conj H2 (conj H3 (conj H4 (conj H5
    (wait_boot_complete_times_out instant start 4 H1 H2 H3 H4 H5)))))).
Defined.

(** C5, as stated, fails: against a query that always returns "0" but
    takes three seconds, the call raises the timeout error after a single
    query attempt. *)
Lemma slow_query_times_out_after_one_attempt :
  (forall n, answer slow n = Return (Some (Py.str "0")))
  /\ (exists w', wait_boot_complete 1 slow 2 1 start = (Raise TimeoutError, w')
                 /\ calls w' = 1%nat)
  /\ ~ (exists fuel w',
          wait_boot_complete fuel slow 2 1 start = (Raise TimeoutError, w')
          /\ (2 <= calls w')%nat).
Proof.
  split; [done|]. split.
  - eexists. split; [vm_compute; reflexivity|]. reflexivity.
  - intros (fuel & w' & Hrun & Hcalls).
    destruct fuel as [|fuel]; [discriminate|].
    unfold wait_boot_complete, time_time in Hrun.
    rewrite round_not_ready in Hrun by (done || lra).
    destruct (Qlt_le_dec _ _) as [_|Hle]; [|cbn in Hle; lra].
    simplify_eq. cbn in Hcalls. lia.
Qed.

(** The loop against a device whose every query fails. *)
Lemma wait_loop_failing dev end_time timedelta
    (Hfail : forall n, exists e, answer dev n = Raise e /\ is_RuntimeError e = true)
    fuel : forall w,
  exists w' events,
    wait_loop fuel dev end_time timedelta w = (Unfinished, w')
    /\ calls w' = (calls w + fuel)%nat
    /\ naps w' = naps w
    /\ log w' = log w ++ events
    /\ Forall (fun e => is_retry e = true) events.
Proof.
  induction fuel as [|fuel IH]; intros w.
  { exists w, []. cbn. rewrite app_nil_r. repeat split; [lia|done]. }
  destruct (Hfail (calls w)) as (e & Ha & He).
  cbn [wait_loop]. unfold shell_call. rewrite Ha, He.
  destruct (IH (logger_warning e
                  {| now := now w + latency dev (calls w); calls := S (calls w);
                     naps := naps w; log := log w ++ [Query cmd] |}))
    as (w' & events & Hrun & Hc & Hn & Hl & Hq).
  exists w', (Query cmd :: Warning e :: events).
  rewrite Hrun. cbn in Hc, Hn, Hl. repeat split; [lia|done| |].
  - rewrite Hl, <- !app_assoc. done.
  - by repeat constructor.
Qed.

(** C10: when every query raises a [RuntimeError], the call is still
    running after any number of rounds: it never returns and never raises
    the timeout error; it has then made one query per round, has never
    slept, and has read the clock only once, at entry, so the deadline is
    never looked at. *)
Theorem wait_boot_complete_retries_forever dev timeout timedelta w fuel
    (Hfail : forall n, exists e, answer dev n = Raise e /\ is_RuntimeError e = true) :
  exists w' events,
    wait_boot_complete fuel dev timeout timedelta w = (Unfinished, w')
    /\ calls w' = (calls w + fuel)%nat
    /\ naps w' = naps w
    /\ log w' = log w ++ Clock (now w) :: events
    /\ Forall (fun e => is_retry e = true) events.
Proof.
  unfold wait_boot_complete, time_time.
  destruct (wait_loop_failing dev (now w + timeout) timedelta Hfail fuel
              {| now := now w; calls := calls w; naps := naps w;
                 log := log w ++ [Clock (now w)] |})
    as (w' & events & Hrun & Hc & Hn & Hl & Hq).
  exists w', events. cbn in Hc, Hn, Hl. repeat split; try done.
  by rewrite Hl, <- app_assoc.
Qed.

Lemma wait_boot_complete_retries_forever_witness :
  (forall n, exists e, answer offline n = Raise e /\ is_RuntimeError e = true)
  /\ exists w' events,
       wait_boot_complete 7 offline 2 1 start = (Unfinished, w')
       /\ calls w' = (calls start + 7)%nat
       /\ naps w' = naps start
       /\ log w' = log start ++ Clock (now start) :: events
       /\ Forall (fun e => is_retry e = true) events.
Proof.
  assert (H : forall n, exists e, answer offline n = Raise e /\ is_RuntimeError e = true).
  { intros n. exists (RuntimeError (Py.str "device offline")). split; reflexivity. }
  exact (conj H (wait_boot_complete_retries_forever offline 2 1 start 7 H)).
Defined.

End PollerFacts.

(* ===================================================================== *)
(** ** Properties of the Python primitives *)
(* ===================================================================== *)

Module PyFacts.

Lemma strip_prefix_spec p s rest :
  Py.strip_prefix p s = Some rest <-> s = p ++ rest.
Proof.
  revert s. induction p as [|a p IH]; intros s; cbn.
  - split; congruence.
  - destruct s as [|b s]; [split; congruence|].
    destruct (N.eqb_spec a b) as [->|Hne].
    + rewrite IH. split; congruence.
    + split; congruence.
Qed.

(** [needle in hay] holds exactly when [needle] is a substring of [hay]. *)
Lemma contains_spec needle hay :
  Py.contains needle hay = true
  <-> exists pre post, hay = pre ++ needle ++ post.
Proof.
  induction hay as [|c hay IH]; cbn.
  - destruct (Py.strip_prefix needle []) as [rest|] eqn:E.
    + apply strip_prefix_spec in E. split; [|done]. intros _. by exists [], rest.
    + split; [done|]. intros (pre & post & H).
      destruct pre; [|done]. cbn in H.
      apply strip_prefix_spec in H. congruence.
  - destruct (Py.strip_prefix needle (c :: hay)) as [rest|] eqn:E.
    + apply strip_prefix_spec in E. split; [|done]. intros _. by exists [], rest.
    + rewrite IH. split.
      * intros (pre & post & ->). by exists (c :: pre), post.
      * intros (pre & post & H). destruct pre as [|c' pre].
        -- cbn in H. apply strip_prefix_spec in H. congruence.
        -- cbn in H. simplify_eq. by exists pre, post.
Qed.

Lemma split_ws_from_tokens s : forall cur,
  Forall (fun ch => Py.isspace ch = false) cur ->
  Forall (fun t => t <> [] /\ Forall (fun ch => Py.isspace ch = false) t)
    (Py.split_ws_from cur s).
Proof.
  induction s as [|c s IH]; intros cur Hcur; cbn.
  - destruct cur as [|d cur]; [done|]. repeat constructor.
    + intros H. apply (f_equal length) in H. rewrite length_rev in H. done.
    + by apply Forall_rev.
  - destruct (Py.isspace c) eqn:Hc.
    + destruct cur as [|d cur]; [by apply IH|]. constructor; [|by apply IH].
      split; [|by apply Forall_rev].
      intros H. apply (f_equal length) in H. rewrite length_rev in H. done.
    + apply IH. by constructor.
Qed.

(** The tokens of [s.split()] are non-empty and free of whitespace. *)
Lemma split_ws_tokens s :
  Forall (fun t => t <> [] /\ Forall (fun ch => Py.isspace ch = false) t)
    (Py.split_ws s).
Proof. by apply split_ws_from_tokens. Qed.

Lemma split_ws_from_concat s : forall cur,
  concat (Py.split_ws_from cur s)
  = rev cur ++ List.filter (fun ch => negb (Py.isspace ch)) s.
Proof.
  induction s as [|c s IH]; intros cur; cbn.
  - destruct cur; cbn; by rewrite ?app_nil_r.
  - destruct (Py.isspace c); cbn.
    + destruct cur as [|d cur]; cbn; by rewrite IH.
    + rewrite IH. cbn. by rewrite <- app_assoc.
Qed.

(** Together the tokens are the characters of the line that are not
    whitespace, in order. *)
Lemma split_ws_concat s :
  concat (Py.split_ws s) = List.filter (fun ch => negb (Py.isspace ch)) s.
Proof. apply split_ws_from_concat. Qed.

End PyFacts.

(* ===================================================================== *)
(** ** Properties of the administrative commands *)
(* ===================================================================== *)

Module AdminFacts.
Import Conn Transport.
Local Open Scope conn_scope.

Lemma root_unfold c :
  fault c = false ->
  root c
  = let c' := snd (close (set_inbox [] (snd (send (Py.str "root:") c)))) in
    match Py.decode_utf8 (inbox c) with
    | Some result =>
        if Py.contains root_phrase result then (Return true, c')
        else (Raise (RuntimeError (Py.strip result)), c')
    | None => (Raise UnicodeDecodeError, c')
    end.
Proof.
  intros Hf. unfold root, with_conn, bind, send, read_all, decode. cbn [fault inbox].
  rewrite Hf. destruct (Py.decode_utf8 (inbox c)) as [result|]; [|done].
  unfold ret, raise. by destruct (Py.contains root_phrase result).
Qed.

(** C8, amended: [root] sends [root:], reads the whole response and
    decodes it; it returns success exactly when the decoded text contains
    the confirmation phrase as a substring, and when the phrase is absent
    it raises a [RuntimeError] that carries the server message with its
    leading and trailing whitespace stripped; the connection is closed
    either way. *)
Theorem root_matches_confirmation_phrase c result
    (Hfault : fault c = false)
    (Hdec : Py.decode_utf8 (inbox c) = Some result) :
  sent (snd (root c)) = sent c ++ [Py.str "root:"]
  /\ closed (snd (root c)) = true
  /\ (fst (root c) = Return true
      <-> exists pre post, result = pre ++ root_phrase ++ post)
  /\ ((~ exists pre post, result = pre ++ root_phrase ++ post) ->
      fst (root c) = Raise (RuntimeError (Py.strip result))).
Proof.
  rewrite root_unfold by done. cbv zeta. rewrite Hdec.
  rewrite <- PyFacts.contains_spec.
  destruct (Py.contains root_phrase result); cbn; repeat split; try done.
Qed.

Lemma root_matches_confirmation_phrase_witness :
  let c := fresh refusal in
  let result := Py.str "adbd cannot run as root in production builds" ++ [Py.LF] in
  fault c = false /\ Py.decode_utf8 (inbox c) = Some result
  /\ sent (snd (root c)) = sent c ++ [Py.str "root:"]
  /\ closed (snd (root c)) = true
  /\ (fst (root c) = Return true
      <-> exists pre post, result = pre ++ root_phrase ++ post)
  /\ ((~ exists pre post, result = pre ++ root_phrase ++ post) ->
      fst (root c) = Raise (RuntimeError (Py.strip result))).
Proof.
  intros c result.
  assert (H1 : fault c = false) by reflexivity.
  assert (H2 : Py.decode_utf8 (inbox c) = Some result) by (vm_compute; reflexivity).
  exact (conj H1 (conj H2 (root_matches_confirmation_phrase c result H1 H2))).
Defined.

(** C8, as stated, fails: the failure does not carry the raw message of
    the server when that message ends with a line feed. *)
Lemma root_failure_message_is_trimmed :
  let raw := Py.str "adbd cannot run as root in production builds" ++ [Py.LF] in
  Py.decode_utf8 refusal = Some raw
  /\ fst (root (fresh refusal))
     = Raise (RuntimeError (Py.str "adbd cannot run as root in production builds"))
  /\ fst (root (fresh refusal)) <> Raise (RuntimeError raw).
Proof.
  assert (H : fst (root (fresh refusal))
     = Raise (RuntimeError (Py.str "adbd cannot run as root in production builds")))
    by (vm_compute; reflexivity).
  split; [vm_compute; reflexivity|]. split; [exact H|].
  rewrite H. intros E. vm_compute in E. discriminate.
Qed.

(** C9: [framebuffer] and [logcat] dispatch no command and always fail,
    but with the [TypeError] of calling the constant [NotImplemented],
    not with a not-implemented error. *)
Theorem unsupported_operations_raise_TypeError c clear :
  framebuffer c = (Raise TypeError, c)
  /\ logcat clear c = (Raise TypeError, c)
  /\ fst (framebuffer c) <> Raise NotImplementedError
  /\ fst (logcat clear c) <> Raise NotImplementedError.
Proof. by repeat split. Qed.

End AdminFacts.

(* ===================================================================== *)
(** ** Which commands close their connection *)
(* ===================================================================== *)

Module CloseFacts.
Import Conn Transport.
Local Open Scope conn_scope.

Lemma bind_never_closes {A B} (m : M A) (k : A -> M B) :
  never_closes m -> (forall a, never_closes (k a)) -> never_closes (bind m k).
Proof.
  intros Hm Hk c. unfold bind. specialize (Hm c).
  destruct (m c) as [[a|e|] c']; cbn in Hm |- *; [|done..].
  by rewrite Hk.
Qed.

Lemma ret_never_closes {A} (a : A) : never_closes (ret a).
Proof. done. Qed.

Lemma read_never_closes n : never_closes (read n).
Proof. intros c. unfold read. by destruct (inbox c), n. Qed.

Lemma read_int_never_closes n : never_closes (read_int n).
Proof.
  apply bind_never_closes; [apply read_never_closes|].
  intros data. case_match; apply ret_never_closes.
Qed.

Lemma dispatch_never_closes sep v id data : never_closes (dispatch sep v id data).
Proof. intros c. by destruct (WireFacts.dispatch_result sep v id data c) as [-> _]. Qed.

Lemma round_never_closes sep v : never_closes (shell_v2_round sep v).
Proof.
  apply bind_never_closes; [apply read_int_never_closes|].
  intros [id|]; [|apply ret_never_closes].
  apply bind_never_closes; [apply read_int_never_closes|].
  intros [n|]; [|apply ret_never_closes].
  apply bind_never_closes; [apply read_never_closes|].
  intros data. case_match; [apply ret_never_closes|apply dispatch_never_closes].
Qed.

Lemma while_true_never_closes {V} fuel (body : V -> M (step V)) :
  (forall v, never_closes (body v)) -> forall v, never_closes (while_true fuel body v).
Proof.
  intros Hb. induction fuel as [|fuel IH]; intros v; [done|].
  cbn [while_true]. apply bind_never_closes; [apply Hb|].
  intros [|v']; [apply ret_never_closes|apply IH].
Qed.

Lemma shell_v2_never_closes cmd sep : never_closes (shell_v2 cmd None sep).
Proof.
  intros c. rewrite WireFacts.shell_v2_unfold. cbv zeta.
  pose proof (while_true_never_closes (S (length (inbox c))) _
                (round_never_closes sep) shell_v2_start
                (snd (send (Py.str "shell,v2:" ++ cmd) c))) as H.
  destruct (while_true _ _ _ _) as [[v|e|] c2]; cbn in H |- *; done.
Qed.

(** C4: [shell_v2] without a handler returns or raises with the
    connection it was given still open, and so does [shell] when reading
    the stream fails, while the commands written with [with conn:], such
    as [root] and [list_reverses], close theirs on every path. *)
Theorem shell_v2_leaves_connection_open cmd sep c (Hopen : closed c = false) :
  closed (snd (shell_v2 cmd None sep c)) = false
  /\ (fault c = true ->
      fst (shell cmd None c) = Raise OSError
      /\ closed (snd (shell cmd None c)) = false)
  /\ closed (snd (root c)) = true
  /\ closed (snd (list_reverses c)) = true.
Proof.
  split; [by rewrite shell_v2_never_closes|]. split; [|split].
  - intros Hf. unfold shell, bind, send, read_all. cbn [fault]. by rewrite Hf.
  - unfold root, with_conn. by destruct (bind _ _ c).
  - unfold list_reverses, bind, with_conn.
    destruct (send _ c) as [r c1]. cbn.
    by destruct r; [destruct (receive c1) as [[?|?|] ?]|..].
Qed.

Lemma shell_v2_leaves_connection_open_witness :
  closed (fresh []) = false
  /\ shell_v2 (Py.str "ls") None false (fresh [])
     = (Return (Some (Merged [] 255)),
        {| sent := [Py.str "shell,v2:ls"]; inbox := []; pieces := []; fault := false;
           replies := []; closed := false |})
  /\ closed (snd (shell_v2 (Py.str "ls") None false (fresh []))) = false.
Proof.
  assert (H : closed (fresh []) = false) by reflexivity.
  exact (conj H (conj eq_refl
    (proj1 (shell_v2_leaves_connection_open (Py.str "ls") false (fresh []) H)))).
Defined.

End CloseFacts.

(* ===================================================================== *)
(** ** Properties of the line parsers *)
(* ===================================================================== *)

Module ParserFacts.
Import Conn Transport Lines.
Local Open Scope conn_scope.

Lemma strip_prefix_app p rest : Py.strip_prefix p (p ++ rest) = Some rest.
Proof. by apply PyFacts.strip_prefix_spec. Qed.

Lemma run_lazy s g k :
  Re.run Re.LazyAny s g k
  = match k s g with
    | Some m => Some m
    | None =>
        match s with
        | [] => None
        | c :: s' => if c =? Py.LF then None else Re.run Re.LazyAny s' g k
        end
    end.
Proof. by destruct s. Qed.

Lemma run_line_end s g :
  Re.run line_end s g accept = if ends_line s then Some g else None.
Proof.
  destruct s as [|c [|d [|e s]]]; [done|..];
    unfold line_end; cbn [Re.run Py.strip_prefix ends_line];
    rewrite (N.eqb_sym Py.CR c); destruct (c =? Py.CR); try done.
  by destruct (d =? Py.LF).
Qed.

Lemma run_no_value s g :
  head s <> Some EQUALS ->
  Re.run after_name s g accept = if ends_line s then Some g else None.
Proof.
  intros Hs. rewrite <- run_line_end. unfold after_name, value_part.
  cbn [Re.run Py.strip_prefix Py.str].
  destruct s as [|c s]; [done|].
  change (N_of_ascii "=") with EQUALS.
  destruct (N.eqb_spec EQUALS c) as [<-|_]; done.
Qed.

Lemma features_pattern_unfold line :
  Re.match_ features_pattern line
  = match Py.strip_prefix (Py.str "feature:") line with
    | Some rest =>
        Re.run Re.LazyAny rest ∅
          (fun s' g' =>
             Re.run after_name s'
               (<[1%nat := take (length rest - length s') rest]> g') accept)
    | None => None
    end.
Proof. reflexivity. Qed.

Lemma split_on_line sep line rest :
  sep ∉ line ->
  Py.split_on sep (line ++ sep :: rest) = line :: Py.split_on sep rest.
Proof.
  induction line as [|c line IH]; intros Hs; cbn.
  - by rewrite N.eqb_refl.
  - apply not_elem_of_cons in Hs as [Hc Hs].
    assert ((c =? sep) = false) as -> by (apply N.eqb_neq; congruence).
    by rewrite IH.
Qed.

Lemma parse_reverses_step line lines reverses :
  parse_reverses (line :: lines) reverses
  = match line with
    | [] => parse_reverses lines reverses
    | _ =>
        match entry_of line with
        | Some e => parse_reverses lines (reverses ++ [e])
        | None => Raise ValueError
        end
    end.
Proof.
  cbn [parse_reverses]. destruct line as [|c line]; [done|].
  unfold entry_of. by destruct (Py.split_ws (c :: line)) as [|? [|? [|? [|? ?]]]].
Qed.

Lemma entry_of_length line :
  is_Some (entry_of line) <-> length (Py.split_ws line) = 3%nat.
Proof.
  unfold entry_of. destruct (Nat.eqb_spec (length (Py.split_ws line)) 3).
  - split; [done|]. by eexists.
  - split; [|done]. by intros [? ?].
Qed.

Lemma parse_reverses_ok lines : forall reverses,
  Forall well_formed lines ->
  parse_reverses lines reverses = Return (reverses ++ omap entry_of lines).
Proof.
  induction lines as [|line lines IH]; intros reverses Hw.
  { cbn. by rewrite app_nil_r. }
  apply Forall_cons in Hw as [Hl Hw]. rewrite parse_reverses_step.
  destruct Hl as [->|Hl].
  - cbn. by apply IH.
  - apply entry_of_length in Hl as [e He]. cbn [omap list_omap]. rewrite He.
    destruct line as [|c line]; [done|].
    rewrite IH by done. by rewrite <- app_assoc.
Qed.

Lemma parse_reverses_bad lines : forall reverses,
  Exists malformed lines -> parse_reverses lines reverses = Raise ValueError.
Proof.
  induction lines as [|line lines IH]; intros reverses Hm.
  { by apply Exists_nil in Hm. }
  rewrite parse_reverses_step. apply Exists_cons in Hm as [[Hne Hl]|Hm].
  - destruct line as [|c line]; [done|].
    destruct (entry_of (c :: line)) as [e|] eqn:He; [|done].
    exfalso. apply Hl, entry_of_length. by eexists.
  - destruct line as [|c line]; [by apply IH|].
    destruct (entry_of (c :: line)); [by apply IH|done].
Qed.

(** C6: [list_reverses] sends [reverse:list-forward], reads one framed
    response and closes the connection; when every line of the response is
    empty or has exactly three whitespace-separated tokens, the result
    lists, in input order, one entry per non-empty line, with the second
    token as remote end and the third as local end; a non-empty line with
    another number of tokens makes the call fail with [ValueError]. *)
Theorem list_reverses_parses_three_tokens c reply more
    (Hreply : replies c = reply :: more) :
  snd (list_reverses c)
  = {| sent := sent c ++ [Py.str "reverse:list-forward"]; inbox := inbox c;
       pieces := pieces c; fault := fault c; replies := more; closed := true |}
  /\ (Forall well_formed (Py.split_on Py.LF reply) ->
      fst (list_reverses c)
      = Return (omap entry_of (Py.split_on Py.LF reply)))
  /\ (Exists malformed (Py.split_on Py.LF reply) ->
      fst (list_reverses c) = Raise ValueError).
Proof.
  assert (Hrun : list_reverses c
    = (parse_reverses (Py.split_on Py.LF reply) [],
       {| sent := sent c ++ [Py.str "reverse:list-forward"]; inbox := inbox c;
          pieces := pieces c; fault := fault c; replies := more; closed := true |})).
  { unfold list_reverses, bind, with_conn, send, receive. cbn. by rewrite Hreply. }
  rewrite Hrun. cbn [fst snd]. split; [done|]. split.
  - intros Hw. by rewrite parse_reverses_ok.
  - apply parse_reverses_bad.
Qed.

Lemma list_reverses_parses_three_tokens_witness :
  replies (listing reverses_sample) = [reverses_sample]
  /\ Forall well_formed (Py.split_on Py.LF reverses_sample)
  /\ fst (list_reverses (listing reverses_sample))
     = Return [ {| remote := Py.str "tcp:8080"; local := Py.str "tcp:9090" |};
                {| remote := Py.str "localabstract:chrome";
                   local := Py.str "tcp:9222" |} ].
Proof.
  assert (H1 : replies (listing reverses_sample) = [reverses_sample]) by reflexivity.
  assert (H2 : Forall well_formed (Py.split_on Py.LF reverses_sample)).
  { vm_compute. repeat constructor; (by left) || (by right). }
  exact (conj H1 (conj H2
    (proj1 (proj2 (list_reverses_parses_three_tokens
                     (listing reverses_sample) reverses_sample [] H1)) H2))).
Defined.

End ParserFacts.

(* ===================================================================== *)
(** ** Properties of [screencap] *)
(* ===================================================================== *)

Module ScreencapFacts.
Import Conn Transport Commands Samples.
Local Open Scope conn_scope.

Lemma to_crlf_head d : head (to_crlf d) <> Some Byte.x0a.
Proof.
  destruct d as [|b d]; [done|]. cbn.
  destruct (Byte.eqb b Byte.x0a) eqn:E; [done|].
  cbn. intros [= ->]. by vm_compute in E.
Qed.

(** Replacing the pairs undoes the translation of the line feeds. *)
Lemma replace_to_crlf d : replace_crlf (to_crlf d) = d.
Proof.
  induction d as [|b d IH]; [done|]. cbn [to_crlf].
  destruct (Byte.eqb b Byte.x0a) eqn:E.
  - apply Byte.byte_dec_bl in E as ->. cbn. by rewrite IH.
  - cbn [replace_crlf]. pose proof (to_crlf_head d) as Hh.
    destruct (to_crlf d) as [|b' r] eqn:Hd.
    + by rewrite <- IH.
    + destruct (Byte.eqb b' Byte.x0a) eqn:E'.
      { apply Byte.byte_dec_bl in E' as ->. done. }
      rewrite andb_false_r. by rewrite IH.
Qed.

Lemma replace_crlf_length d : (length (replace_crlf d) <= length d)%nat.
Proof.
  assert (H : forall n d, (length d <= n)%nat ->
                (length (replace_crlf d) <= length d)%nat).
  { induction n as [|n IH]; intros [|b [|b' r]] Hn; cbn [replace_crlf];
      try done; cbn [length] in Hn; try lia.
    destruct (Byte.eqb b Byte.x0d && Byte.eqb b' Byte.x0a); cbn [length].
    - assert (Hr : (length r <= n)%nat) by lia. pose proof (IH r Hr). lia.
    - assert (Hr : (length (b' :: r) <= n)%nat) by (cbn [length]; lia).
      pose proof (IH (b' :: r) Hr) as H. cbn [length replace_crlf] in H |- *. lia. }
  by apply (H (length d)).
Qed.

Lemma screencap_unfold c :
  screencap c
  = let c' := {| sent := sent c ++ [screencap_cmd]; inbox := [];
                 pieces := []; fault := fault c;
                 replies := replies c; closed := true |} in
    if fault c then (Raise OSError, c')
    else (Return (if looks_translated (inbox c) then replace_crlf (inbox c)
                  else inbox c), c').
Proof.
  unfold screencap, bind, with_conn, send, read_all. cbn [fault inbox].
  destruct (fault c); [done|]. cbn. by destruct (looks_translated (inbox c)).
Qed.


Lemma looks_translated_spec l :
  looks_translated l = true
  <-> (5 < length l)%nat /\ l !! 5%nat = Some Byte.x0d.
Proof.
  unfold looks_translated. destruct l as [|b l]; [cbn; split; [done|lia]|].
  set (l' := b :: l). split.
  - intros [Hlen Hb]%andb_true_iff. apply N.ltb_lt in Hlen.
    unfold Py.len in Hlen. split; [lia|].
    destruct (l' !! 5%nat) as [x|]; [|done].
    by apply Byte.byte_dec_bl in Hb as ->.
  - intros [Hlen Hb]. rewrite Hb. apply andb_true_iff. split; [|done].
    apply N.ltb_lt. unfold Py.len. lia.
Qed.

(** X2: [screencap] undoes the translation of line feeds: when the stream
    is the translation of [d] and shows the carriage return at offset 5,
    the result is [d], byte for byte, and the connection is closed. *)
Theorem screencap_undoes_translation c d
    (Hfault : fault c = false) (Hin : inbox c = to_crlf d)
    (Hcr : (5 < length (to_crlf d))%nat /\ to_crlf d !! 5%nat = Some Byte.x0d) :
  screencap c
  = (Return d,
     {| sent := sent c ++ [screencap_cmd]; inbox := []; pieces := []; fault := false;
        replies := replies c; closed := true |}).
Proof.
  rewrite screencap_unfold. cbv zeta. rewrite Hfault, Hin.
  apply looks_translated_spec in Hcr as ->. by rewrite replace_to_crlf.
Qed.

Lemma screencap_undoes_translation_witness :
  let d := png_signature ++ [Byte.x00; Byte.x0a; Byte.x0d; Byte.x0a] in
  let c := fresh (to_crlf d) in
  fault c = false /\ inbox c = to_crlf d
  /\ ((5 < length (to_crlf d))%nat /\ to_crlf d !! 5%nat = Some Byte.x0d)
  /\ fst (screencap c) = Return d.
Proof.
  intros d c.
  assert (H1 : fault c = false) by reflexivity.
  assert (H2 : inbox c = to_crlf d) by reflexivity.
  assert (H3 : (5 < length (to_crlf d))%nat /\ to_crlf d !! 5%nat = Some Byte.x0d).
  { split; [vm_compute; lia|reflexivity]. }
  exact (conj H1 (conj H2 (conj H3
    (f_equal fst (screencap_undoes_translation c d H1 H2 H3))))).
Defined.

(** X3: a PNG image reaches the caller intact whether the channel
    translated its line feeds or not. *)
Theorem screencap_png_intact c image rest
    (Hfault : fault c = false) (Hpng : image = png_signature ++ rest)
    (Hin : inbox c = image \/ inbox c = to_crlf image) :
  fst (screencap c) = Return image.
Proof.
  subst image. destruct Hin as [Hin|Hin].
  - rewrite screencap_unfold. cbv zeta. rewrite Hfault, Hin.
    replace (looks_translated (png_signature ++ rest)) with false; [done|].
    symmetry. apply not_true_is_false. intros [_ Hb]%looks_translated_spec.
    done.
  - rewrite (screencap_undoes_translation c _ Hfault Hin); [done|].
    split; [|done]. cbn. lia.
Qed.

Lemma screencap_png_intact_witness :
  let image := png_signature ++ [Byte.x0a; Byte.x0d; Byte.x0a] in
  let c := fresh (to_crlf image) in
  fault c = false /\ image = png_signature ++ [Byte.x0a; Byte.x0d; Byte.x0a]
  /\ (inbox c = image \/ inbox c = to_crlf image)
  /\ fst (screencap c) = Return image.
Proof.
  intros image c.
  assert (H1 : fault c = false) by reflexivity.
  assert (H2 : image = png_signature ++ [Byte.x0a; Byte.x0d; Byte.x0a])
    by reflexivity.
  assert (H3 : inbox c = image \/ inbox c = to_crlf image) by (right; reflexivity).
  exact (conj H1 (conj H2 (conj H3
    (screencap_png_intact c image _ H1 H2 H3)))).
Defined.

(** X4: [screencap] never returns more bytes than arrived, and returns
    the stream unchanged when it has at most five bytes or its byte at
    offset 5 is not a carriage return. *)
Theorem screencap_leaves_other_streams c (Hfault : fault c = false) :
  exists result,
    fst (screencap c) = Return result
    /\ (length result <= length (inbox c))%nat
    /\ ((length (inbox c) <= 5)%nat \/ inbox c !! 5%nat <> Some Byte.x0d ->
        result = inbox c).
Proof.
  rewrite screencap_unfold. cbv zeta. rewrite Hfault. eexists. split; [done|].
  destruct (looks_translated (inbox c)) eqn:Ht.
  - split; [apply replace_crlf_length|].
    apply looks_translated_spec in Ht as [Hlen Hb]. intros [?|?]; [lia|done].
  - done.
Qed.

Lemma screencap_leaves_other_streams_witness :
  fault (fresh png_signature) = false
  /\ exists result,
       fst (screencap (fresh png_signature)) = Return result
       /\ (length result <= length (inbox (fresh png_signature)))%nat
       /\ ((length (inbox (fresh png_signature)) <= 5)%nat
           \/ inbox (fresh png_signature) !! 5%nat <> Some Byte.x0d ->
           result = inbox (fresh png_signature)).
Proof.
  exact (conj eq_refl (screencap_leaves_other_streams (fresh png_signature) eq_refl)).
Defined.

End ScreencapFacts.

(* ===================================================================== *)
(** ** Properties of [shell] and [clear] *)
(* ===================================================================== *)

Module ShellFacts.
Import Conn Transport Commands Samples.
Local Open Scope conn_scope.

(** [shell] without a handler, step by step. *)
Lemma shell_unfold cmd c :
  shell cmd None c
  = if fault c
    then (Raise OSError,
          {| sent := sent c ++ [Py.str "shell:" ++ cmd]; inbox := [];
             pieces := []; fault := fault c;
             replies := replies c; closed := closed c |})
    else
      let c' := {| sent := sent c ++ [Py.str "shell:" ++ cmd]; inbox := [];
                   pieces := []; fault := fault c;
                   replies := replies c; closed := true |} in
      match Py.decode_utf8 (inbox c) with
      | Some t => (Return (Some t), c')
      | None => (Raise UnicodeDecodeError, c')
      end.
Proof.
  unfold shell, bind, send, read_all, close, decode. cbn [fault inbox].
  destruct (fault c); [done|]. cbn.
  by destruct (Py.decode_utf8 (inbox c)).
Qed.

End ShellFacts.

Module ClearFacts.
Import Conn Transport Commands Samples ShellFacts.
Local Open Scope conn_scope.

Lemma match_clear s :
  Rx.match_ clear_result_pattern s
  = match Py.strip_prefix SUCCESS s with
    | Some _ => Some {[1%nat := SUCCESS]}
    | None =>
        match Py.strip_prefix FAILED s with
        | Some _ => Some {[1%nat := FAILED]}
        | None => None
        end
    end.
Proof.
  unfold Rx.match_, clear_result_pattern. cbn [Rx.run].
  fold SUCCESS FAILED.
  destruct (Py.strip_prefix SUCCESS s) as [r|] eqn:Hs.
  { apply PyFacts.strip_prefix_spec in Hs as ->.
    rewrite length_app.
    replace (length SUCCESS + length r - length r)%nat with (length SUCCESS) by lia.
    by rewrite take_app_length. }
  destruct (Py.strip_prefix FAILED s) as [r|] eqn:Hf; [|done].
  apply PyFacts.strip_prefix_spec in Hf as ->.
  rewrite length_app.
  replace (length FAILED + length r - length r)%nat with (length FAILED) by lia.
  by rewrite take_app_length.
Qed.

Lemma search_clear s :
  Rx.search clear_result_pattern s = Some {[1%nat := SUCCESS]}
  <-> success_first s.
Proof.
  induction s as [|c s IH]; cbn [Rx.search]; rewrite match_clear.
  - cbn. split; [done|]. intros (pre & [post H] & _). by destruct pre.
  - destruct (Py.strip_prefix SUCCESS (c :: s)) as [r|] eqn:Hs.
    { apply PyFacts.strip_prefix_spec in Hs. split; [|done]. intros _.
      exists []. split; [by exists r|].
      intros [|? pre'] [post H]; [|cbn; lia].
      rewrite Hs in H. cbn in H. discriminate. }
    destruct (Py.strip_prefix FAILED (c :: s)) as [r|] eqn:Hf.
    { apply PyFacts.strip_prefix_spec in Hf. split.
      - by intros [=].
      - intros (pre & _ & Hlt). specialize (Hlt [] ltac:(by exists r)).
        cbn in Hlt. lia. }
    rewrite IH. split.
    + intros (pre & [post ->] & Hlt). exists (c :: pre). split; [by exists post|].
      intros [|c' pre'] [post' H].
      * cbn [app] in H. change (FAILED ++ post') with (FAILED ++ post') in H.
        assert (Py.strip_prefix FAILED (c :: pre ++ SUCCESS ++ post) = Some post')
          by (by apply PyFacts.strip_prefix_spec).
        congruence.
      * cbn in H. injection H as -> H. cbn.
        specialize (Hlt pre' ltac:(by exists post')). lia.
    + intros (pre & [post H] & Hlt). destruct pre as [|c' pre].
      * assert (Py.strip_prefix SUCCESS (c :: s) = Some post)
          by (by apply PyFacts.strip_prefix_spec).
        congruence.
      * cbn in H. injection H as -> ->. exists pre. split; [by exists post|].
        intros pre' [post' H].
        specialize (Hlt (c' :: pre') ltac:(exists post'; by rewrite H)).
        cbn in Hlt. lia.
Qed.


Lemma search_clear_cases s :
  Rx.search clear_result_pattern s = Some {[1%nat := SUCCESS]}
  \/ Rx.search clear_result_pattern s = Some {[1%nat := FAILED]}
  \/ Rx.search clear_result_pattern s = None.
Proof.
  induction s as [|c s IH]; cbn [Rx.search]; rewrite match_clear.
  - right. by right.
  - destruct (Py.strip_prefix SUCCESS (c :: s)); [by left|].
    destruct (Py.strip_prefix FAILED (c :: s)); [right; by left|done].
Qed.

(** X6: [clear] returns [True] exactly when "Success" occurs in the
    output of [pm clear] before any "Failed"; otherwise it raises
    [ClearError] with the package and the output stripped of surrounding
    whitespace. *)
Theorem clear_succeeds_iff_success_first package c result
    (Hfault : fault c = false)
    (Hdec : Py.decode_utf8 (inbox c) = Some result) :
  (fst (clear package c) = Return (inr true) <-> success_first result)
  /\ (~ success_first result ->
      fst (clear package c)
      = Return (inl (ClearError package (Py.strip result))))
  /\ sent (snd (clear package c))
     = sent c ++ [Py.str "shell:pm clear " ++ package]
  /\ closed (snd (clear package c)) = true.
Proof.
  unfold clear, bind. rewrite shell_unfold, Hfault. cbv zeta. rewrite Hdec.
  rewrite <- search_clear.
  destruct (search_clear_cases result) as [-> | [-> | ->]];
    cbn; repeat split; done.
Qed.

Lemma clear_succeeds_iff_success_first_witness :
  let c := answering "Success" in
  fault c = false /\ Py.decode_utf8 (inbox c) = Some SUCCESS
  /\ success_first SUCCESS
  /\ fst (clear (Py.str "com.example") c) = Return (inr true).
Proof.
  intros c.
  assert (H1 : fault c = false) by reflexivity.
  assert (H2 : Py.decode_utf8 (inbox c) = Some SUCCESS) by reflexivity.
  assert (H3 : success_first SUCCESS).
  { exists []. split; [by exists []|].
    intros [|x pre'] [post H]; [discriminate|cbn; lia]. }
  exact (conj H1 (conj H2 (conj H3
    (proj2 (proj1 (clear_succeeds_iff_success_first
                     (Py.str "com.example") c SUCCESS H1 H2)) H3)))).
Defined.

End ClearFacts.

(* ===================================================================== *)
(** ** Properties of [list_packages] *)
(* ===================================================================== *)

Module PackagesFacts.
Import Conn Transport Commands Samples Lines ParserFacts ShellFacts.
Local Open Scope conn_scope.

Lemma chomp_cons c s : s <> [] -> chomp (c :: s) = c :: chomp s.
Proof. by destruct s. Qed.

Lemma chomp_plain s : plain s -> chomp s = s.
Proof.
  intros [_ Hl]. induction s as [|c s IH]; [done|].
  destruct s as [|d s].
  - cbn in *. destruct (N.eqb_spec c Py.CR) as [->|]; done.
  - rewrite chomp_cons by done. f_equal. by apply IH.
Qed.

Lemma chomp_cr s : chomp (s ++ [Py.CR]) = s.
Proof.
  induction s as [|c s IH]; [done|].
  cbn [app]. rewrite chomp_cons by (by destruct s). by rewrite IH.
Qed.

Lemma ends_line_chomp c s :
  Py.LF ∉ (c :: s) -> ends_line (c :: s) = true -> c = Py.CR /\ s = [].
Proof.
  intros Hlf He. apply not_elem_of_cons in Hlf as [Hc Hlf].
  destruct s as [|d [|e s]]; cbn in He; [| |done].
  - apply orb_true_iff in He as [He|He]; apply N.eqb_eq in He; [done|congruence].
  - apply andb_true_iff in He as [_ He]. apply N.eqb_eq in He. subst d.
    by apply not_elem_of_cons in Hlf as [? _].
Qed.

(** The lazy star of a group that runs to the end of the line stops
    before the carriage return that ends the line. *)
Lemma run_to_line_end i s0 g : forall s pre,
  s0 = pre ++ s -> Py.LF ∉ s ->
  Re.run Re.LazyAny s g
    (fun s' g' =>
       Re.run line_end s' (<[i := take (length s0 - length s') s0]> g') accept)
  = Some (<[i := pre ++ chomp s]> g).
Proof.
  induction s as [|c s IH]; intros pre Hs0 Hlf; rewrite run_lazy, run_line_end.
  - cbn. by rewrite Nat.sub_0_r, firstn_all, Hs0.
  - destruct (ends_line (c :: s)) eqn:He.
    + destruct (ends_line_chomp c s Hlf He) as [-> ->]. cbn [chomp].
      rewrite N.eqb_refl, app_nil_r. subst s0. rewrite length_app. cbn [length].
      replace (length pre + 1 - 1)%nat with (length pre) by lia.
      by rewrite take_app_length.
    + apply not_elem_of_cons in Hlf as [Hc Hlf].
      assert ((c =? Py.LF) = false) as -> by (apply N.eqb_neq; congruence).
      rewrite (IH (pre ++ [c])); [|by rewrite <- app_assoc|done].
      rewrite <- app_assoc. cbn [app]. destruct s as [|d s]; [|done].
      cbn in He |- *. by apply orb_false_elim in He as [-> _].
Qed.

(** What the pattern of [list_packages] makes of a line. *)
Lemma match_package line :
  Py.LF ∉ line ->
  Re.match_ packages_pattern line
  = match package_of line with
    | Some name => Some {[1%nat := name]}
    | None => None
    end.
Proof.
  intros Hlf. unfold package_of.
  change (Re.match_ packages_pattern line)
    with (match Py.strip_prefix (Py.str "package:") line with
          | Some rest =>
              Re.run Re.LazyAny rest ∅
                (fun s' g' =>
                   Re.run line_end s'
                     (<[1%nat := take (length rest - length s') rest]> g') accept)
          | None => None
          end).
  destruct (Py.strip_prefix (Py.str "package:") line) as [rest|] eqn:Hp; [|done].
  apply PyFacts.strip_prefix_spec in Hp. subst line.
  rewrite (run_to_line_end 1 rest ∅ rest []); [done..|].
  intros Hin. apply Hlf. apply elem_of_app. by right.
Qed.

Lemma add_package_spec packages line :
  Py.LF ∉ line ->
  add_package packages line
  = match package_of line with
    | Some name => packages ++ [name]
    | None => packages
    end.
Proof.
  intros Hlf. unfold add_package. rewrite match_package by done.
  by destruct (package_of line).
Qed.

Lemma split_on_no_sep sep s : Forall (fun piece => sep ∉ piece) (Py.split_on sep s).
Proof.
  induction s as [|c s IH]; cbn.
  - repeat constructor. apply not_elem_of_nil.
  - destruct (N.eqb_spec c sep) as [->|Hne].
    + constructor; [apply not_elem_of_nil|done].
    + destruct (Py.split_on sep s) as [|piece pieces]; [inversion IH|].
      * repeat constructor. intros [?|H]%elem_of_cons; [congruence|].
        by apply elem_of_nil in H.
      * apply Forall_cons in IH as [Hp Hps]. constructor; [|done].
        intros [?|H]%elem_of_cons; [congruence|done].
Qed.

Lemma fold_add_package lines : forall packages,
  Forall (fun line => Py.LF ∉ line) lines ->
  fold_left add_package lines packages = packages ++ omap package_of lines.
Proof.
  induction lines as [|line lines IH]; intros packages Hl; cbn.
  - by rewrite app_nil_r.
  - apply Forall_cons in Hl as [Hline Hl].
    rewrite IH by done. rewrite add_package_spec by done.
    destruct (package_of line); [|done]. by rewrite <- app_assoc.
Qed.

Lemma list_packages_run c result :
  fault c = false -> Py.decode_utf8 (inbox c) = Some result ->
  fst (list_packages c)
  = Return (omap package_of (Py.split_on Py.LF result)).
Proof.
  intros Hfault Hdec.
  unfold list_packages, bind. rewrite shell_unfold, Hfault. cbv zeta.
  rewrite Hdec. cbn. unfold parse_packages.
  by rewrite fold_add_package by apply split_on_no_sep.
Qed.

(** X7: [list_packages] lists, in the order of the output and with
    repetitions, the rest of every line that starts with [package:],
    without the carriage return the line may end with; every other line
    is skipped. *)
Theorem list_packages_lists_package_lines c result
    (Hfault : fault c = false)
    (Hdec : Py.decode_utf8 (inbox c) = Some result) :
  fst (list_packages c)
  = Return (omap package_of (Py.split_on Py.LF result)).
Proof. by apply list_packages_run. Qed.

Lemma list_packages_lists_package_lines_witness :
  let c := fresh (Py.ascii_bytes "package:com.a" ++ [Byte.x0d; Byte.x0a]
                  ++ Py.ascii_bytes "WARNING: linker" ++ [Byte.x0a]
                  ++ Py.ascii_bytes "package:com.a" ++ [Byte.x0a]) in
  let result := Py.str "package:com.a" ++ [Py.CR; Py.LF]
                ++ Py.str "WARNING: linker" ++ [Py.LF]
                ++ Py.str "package:com.a" ++ [Py.LF] in
  fault c = false /\ Py.decode_utf8 (inbox c) = Some result
  /\ fst (list_packages c) = Return [Py.str "com.a"; Py.str "com.a"].
Proof.
  intros c result.
  assert (H1 : fault c = false) by reflexivity.
  assert (H2 : Py.decode_utf8 (inbox c) = Some result) by reflexivity.
  exact (conj H1 (conj H2 (list_packages_lists_package_lines c result H1 H2))).
Defined.

Lemma plain_no_lf s : plain s -> Py.LF ∉ s.
Proof. by intros [? _]. Qed.

Lemma package_line_lf name :
  plain name -> Py.LF ∉ (Py.str "package:" ++ name).
Proof.
  intros [Hlf _] [H|H]%elem_of_app; [|done].
  by repeat (apply elem_of_cons in H as [H|H]; [done|]); apply elem_of_nil in H.
Qed.

Lemma package_of_line name :
  package_of (Py.str "package:" ++ name) = Some (chomp name).
Proof. unfold package_of. by rewrite strip_prefix_app. Qed.

Lemma packages_of_lines eol names :
  Forall plain names -> eol = [Py.LF] \/ eol = [Py.CR; Py.LF] ->
  omap package_of (Py.split_on Py.LF (package_lines eol names)) = names.
Proof.
  intros Hp Heol. induction Hp as [|name names Hn _ IH]; [done|].
  cbn [package_lines flat_map]. fold (package_lines eol names).
  destruct Heol as [-> | ->].
  - rewrite <- !app_assoc. cbn [app].
    rewrite (app_assoc (Py.str "package:") name).
    rewrite split_on_line by by apply package_line_lf.
    cbn [omap list_omap]. rewrite package_of_line, chomp_plain by done.
    cbn. f_equal. apply IH.
  - rewrite <- !app_assoc. cbn [app].
    change (Py.str "package:" ++ name
            ++ Py.CR :: Py.LF :: package_lines [Py.CR; Py.LF] names)
      with (Py.str "package:" ++ name ++ [Py.CR]
            ++ Py.LF :: package_lines [Py.CR; Py.LF] names).
    rewrite !app_assoc. rewrite split_on_line.
    + cbn [omap list_omap]. rewrite <- app_assoc, package_of_line, chomp_cr.
      cbn. f_equal. apply IH.
    + intros [H|H]%elem_of_app; [by apply (package_line_lf name)|].
      by apply list_elem_of_singleton in H.
Qed.

(** X8: listing and parsing are inverse: from the output that names the
    packages [names], one [package:<name>] per line ended by a line feed
    or by carriage return and line feed, [list_packages] returns
    [names]. *)
Theorem list_packages_round_trip c names eol
    (Hfault : fault c = false) (Hnames : Forall plain names)
    (Heol : eol = [Py.LF] \/ eol = [Py.CR; Py.LF])
    (Hdec : Py.decode_utf8 (inbox c) = Some (package_lines eol names)) :
  fst (list_packages c) = Return names.
Proof.
  rewrite (list_packages_run c _ Hfault Hdec). by rewrite packages_of_lines.
Qed.

Lemma list_packages_round_trip_witness :
  let names := [Py.str "com.android.shell"; Py.str "com.example"] in
  let eol := [Py.CR; Py.LF] in
  let c := fresh (Py.ascii_bytes "package:com.android.shell" ++ [Byte.x0d; Byte.x0a]
                  ++ Py.ascii_bytes "package:com.example" ++ [Byte.x0d; Byte.x0a]) in
  fault c = false /\ Forall plain names
  /\ (eol = [Py.LF] \/ eol = [Py.CR; Py.LF])
  /\ Py.decode_utf8 (inbox c) = Some (package_lines eol names)
  /\ fst (list_packages c) = Return names.
Proof.
  intros names eol c.
  assert (H1 : fault c = false) by reflexivity.
  assert (H2 : Forall plain names).
  { unfold names.
    repeat (constructor;
      [split; [apply (bool_decide_eq_true_1 _); vm_compute; reflexivity|done]|]).
    constructor. }
  assert (H3 : eol = [Py.LF] \/ eol = [Py.CR; Py.LF]) by (right; reflexivity).
  assert (H4 : Py.decode_utf8 (inbox c) = Some (package_lines eol names))
    by reflexivity.
  exact (conj H1 (conj H2 (conj H3 (conj H4
    (list_packages_round_trip c names eol H1 H2 H3 H4))))).
Defined.

End PackagesFacts.

(* ===================================================================== *)
(** ** Properties of [list_features] *)
(* ===================================================================== *)

Module FeaturesFacts.
Import Conn Transport Commands Samples Lines ParserFacts ShellFacts PackagesFacts.
Local Open Scope conn_scope.

(** The value of a line runs to the end of the line, short of the
    carriage return that ends it. *)
Lemma run_value_any v g :
  Py.LF ∉ v ->
  Re.run after_name (EQUALS :: v) g accept = Some (<[2%nat := chomp v]> g).
Proof.
  intros Hv.
  change (Re.run after_name (EQUALS :: v) g accept)
    with (match Re.run Re.LazyAny v g
                  (fun s' g' =>
                     Re.run line_end s'
                       (<[2%nat := take (length v - length s') v]> g') accept)
          with
          | Some m => Some m
          | None => Re.run line_end (EQUALS :: v) g accept
          end).
  by rewrite (run_to_line_end 2 v g v []).
Qed.

Lemma at_equals_nil s : at_equals s = ([], None) -> s = [].
Proof.
  destruct s as [|c s]; [done|]. cbn.
  destruct (c =? EQUALS); [done|]. by destruct (at_equals s).
Qed.

(** The lazy star of group 1 stops at the first [=], or at the end of the
    line, short of the carriage return that ends it. *)
Lemma run_name_any s0 : forall s pre,
  s0 = pre ++ s -> Py.LF ∉ s ->
  Re.run Re.LazyAny s ∅
    (fun s' g' =>
       Re.run after_name s' (<[1%nat := take (length s0 - length s') s0]> g') accept)
  = Some (match at_equals s with
          | (name, Some value) =>
              <[2%nat := chomp value]> (<[1%nat := pre ++ name]> ∅)
          | (name, None) => <[1%nat := pre ++ chomp name]> ∅
          end).
Proof.
  induction s as [|c s IH]; intros pre Hs0 Hlf; rewrite run_lazy.
  - rewrite run_no_value by done. cbn. by rewrite Nat.sub_0_r, firstn_all, Hs0.
  - assert (Hpre : take (length s0 - length (c :: s)) s0 = pre).
    { rewrite Hs0, length_app, Nat.add_sub. by rewrite take_app_length. }
    rewrite Hpre. cbn [at_equals].
    destruct (N.eqb_spec c EQUALS) as [->|Hc].
    + apply not_elem_of_cons in Hlf as [_ Hlf].
      rewrite run_value_any by done. by rewrite app_nil_r.
    + rewrite run_no_value by (cbn; congruence).
      destruct (ends_line (c :: s)) eqn:He.
      * destruct (ends_line_chomp c s Hlf He) as [-> ->]. cbn.
        by rewrite app_nil_r.
      * apply not_elem_of_cons in Hlf as [Hclf Hlf].
        assert ((c =? Py.LF) = false) as -> by (apply N.eqb_neq; congruence).
        rewrite (IH (pre ++ [c])); [|by rewrite <- app_assoc|done].
        destruct (at_equals s) as [name [value|]] eqn:Ha.
        -- by rewrite <- app_assoc.
        -- rewrite <- app_assoc. cbn [app]. destruct name as [|d name].
           ++ apply at_equals_nil in Ha as ->. cbn in He |- *.
              by apply orb_false_elim in He as [-> _].
           ++ by rewrite (chomp_cons c (d :: name)).
Qed.

(** What the pattern of [list_features] makes of a line. *)
Lemma match_feature line :
  Py.LF ∉ line ->
  Re.match_ features_pattern line
  = match Py.strip_prefix (Py.str "feature:") line with
    | Some rest =>
        Some (match at_equals rest with
              | (name, Some value) =>
                  <[2%nat := chomp value]> (<[1%nat := name]> ∅)
              | (name, None) => <[1%nat := chomp name]> ∅
              end)
    | None => None
    end.
Proof.
  intros Hlf. rewrite features_pattern_unfold.
  destruct (Py.strip_prefix (Py.str "feature:") line) as [rest|] eqn:Hp; [|done].
  apply PyFacts.strip_prefix_spec in Hp. subst line.
  rewrite (run_name_any rest rest []); [done..|].
  intros Hin. apply Hlf. apply elem_of_app. by right.
Qed.

Lemma add_feature_spec features line :
  Py.LF ∉ line ->
  add_feature features line
  = match feature_of line with
    | Some e => <[e.1 := e.2]> features
    | None => features
    end.
Proof.
  intros Hlf. unfold add_feature, feature_of. rewrite match_feature by done.
  destruct (Py.strip_prefix (Py.str "feature:") line) as [rest|]; [|done].
  destruct (at_equals rest) as [name [value|]]; unfold Re.group.
  - rewrite lookup_insert_eq, lookup_insert_ne, lookup_insert_eq by done. done.
  - rewrite lookup_insert_eq, lookup_insert_ne, lookup_empty by done. done.
Qed.

Lemma fold_add_feature lines : forall features,
  Forall (fun line => Py.LF ∉ line) lines ->
  fold_left add_feature lines features
  = fold_left (fun m (e : text * feature_value) => <[e.1 := e.2]> m)
      (omap feature_of lines) features.
Proof.
  induction lines as [|line lines IH]; intros features Hl; [done|].
  apply Forall_cons in Hl as [Hline Hl]. cbn [fold_left omap list_omap].
  rewrite add_feature_spec by done.
  destruct (feature_of line) as [e|]; cbn [fold_left]; by apply IH.
Qed.

Lemma fold_insert_features (es : list (text * feature_value)) :
  fold_left (fun m (e : text * feature_value) => <[e.1 := e.2]> m) es
    (∅ : gmap text feature_value)
  = list_to_map (rev es).
Proof.
  symmetry.
  apply (fold_left_rev_right
           (fun (e : text * feature_value) (m : gmap text feature_value) =>
              <[e.1 := e.2]> m)).
Qed.

Lemma list_features_run c result :
  fault c = false -> Py.decode_utf8 (inbox c) = Some result ->
  list_features c
  = (Return (list_to_map (rev (omap feature_of (Py.split_on Py.LF result)))),
     {| sent := sent c ++ [Py.str "shell:pm list features 2>/dev/null"];
        inbox := []; pieces := []; fault := false; replies := replies c;
        closed := true |}).
Proof.
  intros Hfault Hdec. unfold list_features, bind.
  rewrite shell_unfold, Hfault. cbv zeta. rewrite Hdec. cbn. unfold parse_features.
  by rewrite fold_add_feature, fold_insert_features by apply split_on_no_sep.
Qed.

Lemma at_equals_none s : EQUALS ∉ s -> at_equals s = (s, None).
Proof.
  induction s as [|c s IH]; [done|]. intros [Hc Hs]%not_elem_of_cons. cbn.
  assert ((c =? EQUALS) = false) as -> by (apply N.eqb_neq; congruence).
  by rewrite IH.
Qed.

Lemma at_equals_first name value :
  EQUALS ∉ name -> at_equals (name ++ EQUALS :: value) = (name, Some value).
Proof.
  induction name as [|c name IH]; intros Hn; cbn; [done|].
  apply not_elem_of_cons in Hn as [Hc Hn].
  assert ((c =? EQUALS) = false) as -> by (apply N.eqb_neq; congruence).
  by rewrite IH.
Qed.

Lemma chomp_last s : last s <> Some Py.CR -> chomp s = s.
Proof.
  intros Hl. induction s as [|c s IH]; [done|].
  destruct s as [|d s].
  - cbn in *. destruct (N.eqb_spec c Py.CR) as [->|]; done.
  - rewrite chomp_cons by done. f_equal. by apply IH.
Qed.

Lemma chomp_end s e :
  last s <> Some Py.CR -> e = [] \/ e = [Py.CR] -> chomp (s ++ e) = s.
Proof.
  intros Hl [-> | ->]; [rewrite app_nil_r; by apply chomp_last|apply chomp_cr].
Qed.

(** The entry of a line [feature:<name>], ended or not by a carriage
    return. *)
Lemma feature_of_flag name e :
  EQUALS ∉ name -> last name <> Some Py.CR -> e = [] \/ e = [Py.CR] ->
  feature_of (Py.str "feature:" ++ name ++ e) = Some (name, FTrue).
Proof.
  intros Hn Hl He. unfold feature_of. rewrite strip_prefix_app.
  rewrite at_equals_none, chomp_end; [done..|].
  intros [H|H]%elem_of_app; [done|].
  destruct He as [-> | ->]; [by apply elem_of_nil in H|].
  by apply list_elem_of_singleton in H.
Qed.

(** The entry of a line [feature:<name>=<value>], ended or not by a
    carriage return. *)
Lemma feature_of_valued name value e :
  EQUALS ∉ name -> last value <> Some Py.CR -> e = [] \/ e = [Py.CR] ->
  feature_of (Py.str "feature:" ++ name ++ EQUALS :: value ++ e)
  = Some (name, FStr value).
Proof.
  intros Hn Hl He. unfold feature_of. rewrite strip_prefix_app.
  by rewrite at_equals_first, chomp_end.
Qed.

Lemma feature_of_line e eol' :
  listed e -> eol' = [] \/ eol' = [Py.CR] ->
  feature_of (feature_line e ++ eol') = Some e.
Proof.
  destruct e as [name [|value]]; intros (Hn & Hlf & Hv) He; unfold feature_line;
    cbn [fst snd] in *; rewrite <- !app_assoc.
  - cbn [app]. by apply feature_of_flag.
  - cbn [app]. apply feature_of_valued; [done| |done]. apply Hv.
Qed.

Lemma feature_line_lf e : listed e -> Py.LF ∉ feature_line e.
Proof.
  destruct e as [name [|value]]; intros (Hn & Hlf & Hv); unfold feature_line;
    cbn [fst snd] in *.
  - rewrite app_nil_r. intros [H|H]%elem_of_app; [|done].
    by repeat (apply elem_of_cons in H as [H|H]; [done|]); apply elem_of_nil in H.
  - intros [H|[H|[H|H]%elem_of_cons]%elem_of_app]%elem_of_app; try done.
    + by repeat (apply elem_of_cons in H as [H|H]; [done|]); apply elem_of_nil in H.
    + by destruct Hv as [Hv _].
Qed.

Lemma features_of_lines eol es :
  Forall listed es -> eol = [Py.LF] \/ eol = [Py.CR; Py.LF] ->
  omap feature_of (Py.split_on Py.LF (feature_lines eol es)) = es.
Proof.
  intros Hes Heol. induction Hes as [|e es He _ IH]; [done|].
  cbn [feature_lines flat_map]. fold (feature_lines eol es).
  destruct Heol as [-> | ->].
  - rewrite <- app_assoc. cbn [app].
    rewrite split_on_line by by apply feature_line_lf.
    cbn [omap list_omap]. rewrite <- (app_nil_r (feature_line e)) at 1.
    rewrite feature_of_line by (done || by left). cbn. f_equal. apply IH.
  - rewrite <- app_assoc. cbn [app].
    change (feature_line e ++ Py.CR :: Py.LF :: feature_lines [Py.CR; Py.LF] es)
      with (feature_line e ++ [Py.CR]
            ++ Py.LF :: feature_lines [Py.CR; Py.LF] es).
    rewrite app_assoc, split_on_line.
    + cbn [omap list_omap]. rewrite feature_of_line by (done || by right).
      cbn. f_equal. apply IH.
    + intros [H|H]%elem_of_app; [by apply (feature_line_lf e)|].
      by apply list_elem_of_singleton in H.
Qed.

(** C7: [list_features] sends [pm list features], reads the output to
    the end and closes the connection; of the lines of the output, the
    pieces between line feeds taken in order, a line [feature:<name>]
    enters [name -> True] in the dictionary and a line
    [feature:<name>=<value>] enters [name -> value], a string, a later
    line replacing an earlier one of the same name (the name has no [=],
    and a carriage return that ends the line is no part of name or
    value); a line enters something exactly when it starts with
    [feature:], every other line is skipped; so the output that lists
    entries one per line, ended by line feed or by carriage return and
    line feed, gives back these entries; in particular the output
    [feature:foo], [feature:bar=2] gives {foo: True, bar: "2"}. *)
Theorem list_features_line_grammar c result
    (Hfault : fault c = false)
    (Hdec : Py.decode_utf8 (inbox c) = Some result) :
  list_features c
  = (Return (list_to_map (rev (omap feature_of (Py.split_on Py.LF result)))),
     {| sent := sent c ++ [Py.str "shell:pm list features 2>/dev/null"];
        inbox := []; pieces := []; fault := false; replies := replies c;
        closed := true |})
  /\ (forall name e,
        EQUALS ∉ name -> last name <> Some Py.CR -> e = [] \/ e = [Py.CR] ->
        feature_of (Py.str "feature:" ++ name ++ e) = Some (name, FTrue))
  /\ (forall name value e,
        EQUALS ∉ name -> last value <> Some Py.CR -> e = [] \/ e = [Py.CR] ->
        feature_of (Py.str "feature:" ++ name ++ EQUALS :: value ++ e)
        = Some (name, FStr value))
  /\ (forall line,
        feature_of line = None
        <-> Py.strip_prefix (Py.str "feature:") line = None)
  /\ (forall es eol,
        Forall listed es -> eol = [Py.LF] \/ eol = [Py.CR; Py.LF] ->
        result = feature_lines eol es ->
        fst (list_features c) = Return (list_to_map (rev es)))
  /\ fst (list_features (fresh features_sample_bytes))
     = Return features_sample_result
  /\ fst (list_features (fresh features_sample_crlf))
     = Return features_sample_result.
Proof.
  split; [by apply list_features_run|].
  split; [apply feature_of_flag|]. split; [apply feature_of_valued|].
  split; [|split; [|split]].
  - intros line. unfold feature_of.
    destruct (Py.strip_prefix (Py.str "feature:") line) as [rest|]; [|done].
    by destruct (at_equals rest) as [name [value|]].
  - intros es eol Hes Heol ->.
    rewrite (list_features_run c _ Hfault Hdec). cbn [fst].
    by rewrite features_of_lines.
  - vm_compute. reflexivity.
  - vm_compute. reflexivity.
Qed.

Lemma list_features_line_grammar_witness :
  let c := fresh features_sample_crlf in
  let result := Py.str "feature:foo" ++ [Py.CR; Py.LF]
                ++ Py.str "feature:bar=2" ++ [Py.CR; Py.LF] in
  fault c = false /\ Py.decode_utf8 (inbox c) = Some result
  /\ list_features c
     = (Return (list_to_map (rev (omap feature_of (Py.split_on Py.LF result)))),
        {| sent := [Py.str "shell:pm list features 2>/dev/null"];
           inbox := []; pieces := []; fault := false; replies := [];
           closed := true |}).
Proof.
  intros c result.
  assert (H1 : fault c = false) by reflexivity.
  assert (H2 : Py.decode_utf8 (inbox c) = Some result) by reflexivity.
  exact (conj H1 (conj H2 (proj1 (list_features_line_grammar c result H1 H2)))).
Defined.

End FeaturesFacts.

(* ===================================================================== *)
(** ** Properties of [get_properties] *)
(* ===================================================================== *)

Module PropertiesFacts.
Import Conn Transport Commands Samples Lines ParserFacts ShellFacts.
Local Open Scope conn_scope.

Lemma rx_lazy cls s g k :
  Rx.run (Rx.Lazy cls) s g k
  = match k s g with
    | Some m => Some m
    | None =>
        match s with
        | [] => None
        | c :: s' => if cls c then Rx.run (Rx.Lazy cls) s' g k else None
        end
    end.
Proof. by destruct s. Qed.

Lemma rx_any c : Rx.any c = true.
Proof. unfold Rx.any. by destruct (Py.isspace c). Qed.

Lemma rx_run_line_end s g :
  Rx.run rx_line_end s g accept = if ends_line s then Some g else None.
Proof.
  destruct s as [|c [|d [|e s]]]; [done|..];
    unfold rx_line_end; cbn [Rx.run Py.strip_prefix ends_line];
    rewrite (N.eqb_sym Py.CR c); destruct (c =? Py.CR); try done.
  by destruct (d =? Py.LF).
Qed.

Lemma rx_value_close s g :
  Rx.run value_close s g accept
  = match s with
    | c :: s' => if (c =? 93) && ends_line s' then Some g else None
    | [] => None
    end.
Proof.
  destruct s as [|c s]; [done|].
  change (Rx.run value_close (c :: s) g accept)
    with (match (if 93 =? c then Some s else None) with
          | Some s' => Rx.run rx_line_end s' g accept
          | None => None
          end).
  rewrite (N.eqb_sym 93 c). destruct (c =? 93); [|done].
  by rewrite rx_run_line_end.
Qed.

Lemma not_end_before_bracket s e :
  e = [] \/ e = [Py.CR] -> ends_line (s ++ Py.str "]" ++ e) = false.
Proof.
  intros [-> | ->]; destruct s as [|c [|d s]]; cbn; try done.
  - by rewrite andb_false_r.
  - by destruct s.
  - by destruct s as [|? [|? ?]].
Qed.

(** The lazy star of group 2 runs to the bracket that ends the line. *)
Lemma run_property_value value e g :
  e = [] \/ e = [Py.CR] ->
  forall s pre,
  value = pre ++ s ->
  Rx.run (Rx.Lazy Rx.any) (s ++ Py.str "]" ++ e) g
    (fun s' g' =>
       Rx.run value_close s'
         (<[2%nat := take (length (value ++ Py.str "]" ++ e) - length s')
                       (value ++ Py.str "]" ++ e)]> g') accept)
  = Some (<[2%nat := value]> g).
Proof.
  intros He. induction s as [|c s IH]; intros pre Hv; rewrite rx_lazy, rx_value_close.
  - cbn [app Py.str]. change (N_of_ascii "]" =? 93) with true.
    replace (ends_line e) with true by (by destruct He as [-> | ->]).
    cbn [andb]. rewrite app_nil_r in Hv. subst pre.
    by rewrite length_app, Nat.add_sub, take_app_length.
  - cbn [app]. rewrite not_end_before_bracket by done.
    rewrite andb_false_r, rx_any.
    apply (IH (pre ++ [c])). by rewrite <- app_assoc.
Qed.


(** Inside a key that is free of the delimiter, the delimiter does not
    start, not even when it is followed by the delimiter itself. *)
Lemma no_delim_inside key pre c s rest :
  delim_free key -> key = pre ++ c :: s ->
  Py.strip_prefix DELIM (c :: s ++ DELIM ++ rest) = None.
Proof.
  intros Hfree Hkey.
  destruct (Py.strip_prefix DELIM (c :: s ++ DELIM ++ rest)) as [r|] eqn:Hp;
    [|done].
  exfalso. apply PyFacts.strip_prefix_spec in Hp.
  destruct s as [|c2 [|c3 [|c4 s4]]]; try (cbn in Hp; discriminate).
  cbn in Hp. injection Hp as -> -> -> -> _.
  by apply (Hfree pre s4).
Qed.

Lemma rx_after_key_fails s g :
  Py.strip_prefix DELIM s = None -> Rx.run after_key s g accept = None.
Proof.
  intros Hp.
  change (Rx.run after_key s g accept)
    with (match Py.strip_prefix DELIM s with
          | Some s' =>
              Rx.run (Rx.Seq (Rx.Group 2 (Rx.Lazy Rx.any)) value_close) s' g accept
          | None => None
          end).
  by rewrite Hp.
Qed.

Lemma rx_after_key value e g :
  e = [] \/ e = [Py.CR] ->
  Rx.run after_key (DELIM ++ value ++ Py.str "]" ++ e) g accept
  = Some (<[2%nat := value]> g).
Proof.
  intros He.
  change (Rx.run after_key (DELIM ++ value ++ Py.str "]" ++ e) g accept)
    with (match Py.strip_prefix DELIM (DELIM ++ value ++ Py.str "]" ++ e) with
          | Some s' =>
              Rx.run (Rx.Lazy Rx.any) s' g
                (fun s'' g' =>
                   Rx.run value_close s''
                     (<[2%nat := take (length s' - length s'') s']> g') accept)
          | None => None
          end).
  rewrite strip_prefix_app.
  by apply (run_property_value value e g He value []).
Qed.

(** The lazy star of group 1 stops at the first delimiter. *)
Lemma run_property_key key value e :
  delim_free key -> e = [] \/ e = [Py.CR] ->
  forall s pre,
  key = pre ++ s ->
  Rx.run (Rx.Lazy Rx.any) (s ++ DELIM ++ value ++ Py.str "]" ++ e) ∅
    (fun s' g' =>
       Rx.run after_key s'
         (<[1%nat := take (length (key ++ DELIM ++ value ++ Py.str "]" ++ e)
                           - length s')
                       (key ++ DELIM ++ value ++ Py.str "]" ++ e)]> g') accept)
  = Some (<[2%nat := value]> (<[1%nat := key]> ∅)).
Proof.
  intros Hfree He. induction s as [|c s IH]; intros pre Hkey; rewrite rx_lazy.
  - cbn [app]. rewrite rx_after_key by done.
    rewrite app_nil_r in Hkey. subst pre.
    by rewrite length_app, Nat.add_sub, take_app_length.
  - cbn [app]. rewrite rx_after_key_fails
      by (by apply (no_delim_inside key pre)).
    rewrite rx_any. apply (IH (pre ++ [c])). by rewrite <- app_assoc.
Qed.

(** What the pattern captures on the line of a property. *)
Lemma match_property key value e :
  delim_free key -> e = [] \/ e = [Py.CR] ->
  Rx.match_ properties_pattern (property_line (key, value) ++ e)
  = Some (<[2%nat := value]> (<[1%nat := key]> ∅)).
Proof.
  intros Hfree He. unfold property_line. cbn [fst snd].
  rewrite <- !app_assoc.
  change (Rx.match_ properties_pattern
            (Py.str "[" ++ key ++ DELIM ++ value ++ Py.str "]" ++ e))
    with (Rx.run (Rx.Lazy Rx.any) (key ++ DELIM ++ value ++ Py.str "]" ++ e) ∅
            (fun s' g' =>
               Rx.run after_key s'
                 (<[1%nat := take (length (key ++ DELIM ++ value ++ Py.str "]" ++ e)
                                   - length s')
                               (key ++ DELIM ++ value ++ Py.str "]" ++ e)]> g')
                 accept)).
  by apply (run_property_key key value e Hfree He key []).
Qed.

Lemma add_property_line properties key value e :
  delim_free key -> e = [] \/ e = [Py.CR] ->
  add_property properties (property_line (key, value) ++ e)
  = <[key := value]> properties.
Proof.
  intros Hfree He. unfold add_property. by rewrite match_property.
Qed.


Lemma get_properties_run c result :
  fault c = false -> Py.decode_utf8 (inbox c) = Some result ->
  fst (get_properties c) = Return (parse_properties result).
Proof.
  intros Hfault Hdec. unfold get_properties, bind.
  rewrite shell_unfold, Hfault. cbv zeta. by rewrite Hdec.
Qed.

Lemma property_line_lf kv : one_line kv -> Py.LF ∉ property_line kv.
Proof.
  intros (_ & Hk & Hv). unfold property_line.
  intros [H|[H|[H|[H|H]%elem_of_app]%elem_of_app]%elem_of_app]%elem_of_app;
    try done;
    by repeat (apply elem_of_cons in H as [H|H]; [done|]); apply elem_of_nil in H.
Qed.

Lemma fold_add_property eol kvs : forall properties,
  Forall one_line kvs -> eol = [Py.LF] \/ eol = [Py.CR; Py.LF] ->
  fold_left add_property (Py.split_on Py.LF (property_lines eol kvs)) properties
  = fold_left (fun m kv => <[kv.1 := kv.2]> m) kvs properties.
Proof.
  intros properties Hk Heol. revert properties.
  induction Hk as [|kv kvs Hkv _ IH]; intros properties; [done|].
  cbn [property_lines flat_map]. fold (property_lines eol kvs).
  destruct kv as [key value]. destruct (Hkv) as (Hfree & _).
  destruct Heol as [-> | ->].
  - rewrite <- app_assoc. cbn [app].
    rewrite split_on_line by by apply property_line_lf.
    cbn [fold_left]. rewrite <- (app_nil_r (property_line (key, value))) at 1.
    rewrite add_property_line by (done || by left). apply IH.
  - rewrite <- app_assoc. cbn [app].
    change (property_line (key, value)
            ++ Py.CR :: Py.LF :: property_lines [Py.CR; Py.LF] kvs)
      with (property_line (key, value) ++ [Py.CR]
            ++ Py.LF :: property_lines [Py.CR; Py.LF] kvs).
    rewrite app_assoc, split_on_line.
    + cbn [fold_left]. rewrite add_property_line by (done || by right). apply IH.
    + intros [H|H]%elem_of_app; [by apply (property_line_lf (key, value))|].
      by apply list_elem_of_singleton in H.
Qed.

Lemma fold_insert_list_to_map (kvs : list (text * text)) :
  fold_left (fun m kv => <[kv.1 := kv.2]> m) kvs (∅ : gmap text text)
  = list_to_map (rev kvs).
Proof.
  symmetry.
  apply (fold_left_rev_right
           (fun (kv : text * text) (m : gmap text text) => <[kv.1 := kv.2]> m)).
Qed.

(** A key without closing bracket is free of the delimiter. *)
Lemma bracket_free_delim_free key : 93 ∉ key -> delim_free key.
Proof.
  intros Hb pre post ->. apply Hb. apply elem_of_app. right.
  apply elem_of_app. left. by left.
Qed.

(** X9: a line [[key]: [value]], ended or not by a carriage return,
    enters [key -> value] in the dictionary when the key is free of the
    delimiter; the value may hold anything, brackets and the delimiter
    included; a line that does not begin with a bracket changes
    nothing. *)
Theorem get_properties_reads_property_line properties key value e
    (Hkey : delim_free key) (He : e = [] \/ e = [Py.CR]) :
  add_property properties (property_line (key, value) ++ e)
  = <[key := value]> properties
  /\ (forall line,
        Py.strip_prefix (Py.str "[") line = None ->
        add_property properties line = properties).
Proof.
  split; [by apply add_property_line|].
  intros line Hl. unfold add_property.
  change (Rx.match_ properties_pattern line)
    with (match Py.strip_prefix (Py.str "[") line with
          | Some s =>
              Rx.run (Rx.Lazy Rx.any) s ∅
                (fun s' g' =>
                   Rx.run after_key s'
                     (<[1%nat := take (length s - length s') s]> g') accept)
          | None => None
          end).
  by rewrite Hl.
Qed.

Lemma get_properties_reads_property_line_witness :
  let key := Py.str "ro.product.model" in
  let value := Py.str "Pixel [rev]: [2]" in
  delim_free key /\ ([Py.CR] = [] \/ [Py.CR] = [Py.CR])
  /\ add_property ∅ (Py.str "[ro.product.model]: [Pixel [rev]: [2]]" ++ [Py.CR])
     = <[key := value]> ∅.
Proof.
  intros key value.
  assert (H1 : delim_free key).
  { apply bracket_free_delim_free. apply (bool_decide_eq_true_1 _).
    vm_compute. reflexivity. }
  assert (H2 : [Py.CR] = [] \/ [Py.CR] = [Py.CR]) by (right; reflexivity).
  exact (conj H1 (conj H2
    (proj1 (get_properties_reads_property_line ∅ key value [Py.CR] H1 H2)))).
Defined.

(** X10: printing and reading the properties are inverse: from the output
    of [getprop] for the properties [kvs], in this order, each on one
    line, [get_properties] returns the dictionary in which each key has
    the value of its last line; when no key is repeated, the dictionary
    holds exactly the pairs of [kvs]. *)
Theorem get_properties_round_trip c kvs eol
    (Hfault : fault c = false) (Hkvs : Forall one_line kvs)
    (Heol : eol = [Py.LF] \/ eol = [Py.CR; Py.LF])
    (Hdec : Py.decode_utf8 (inbox c) = Some (property_lines eol kvs)) :
  fst (get_properties c) = Return (list_to_map (rev kvs))
  /\ (NoDup kvs.*1 ->
      forall key value,
        (list_to_map (rev kvs) : gmap text text) !! key = Some value
        <-> (key, value) ∈ kvs).
Proof.
  split.
  - rewrite (get_properties_run c _ Hfault Hdec). unfold parse_properties.
    by rewrite fold_add_property, fold_insert_list_to_map.
  - intros Hnd key value.
    assert (Hp : rev kvs ≡ₚ kvs) by (symmetry; apply Permutation_rev).
    rewrite <- elem_of_list_to_map by (by rewrite Hp).
    by rewrite Hp.
Qed.

Lemma get_properties_round_trip_witness :
  let kvs := [(Py.str "ro.a", Py.str "1"); (Py.str "ro.b", Py.str "2")] in
  let c := fresh (Py.ascii_bytes "[ro.a]: [1]" ++ [Byte.x0a]
                  ++ Py.ascii_bytes "[ro.b]: [2]" ++ [Byte.x0a]) in
  fault c = false /\ Forall one_line kvs
  /\ ([Py.LF] = [Py.LF] \/ [Py.LF] = [Py.CR; Py.LF])
  /\ Py.decode_utf8 (inbox c) = Some (property_lines [Py.LF] kvs)
  /\ fst (get_properties c) = Return (list_to_map (rev kvs)).
Proof.
  intros kvs c.
  assert (H1 : fault c = false) by reflexivity.
  assert (H2 : Forall one_line kvs).
  { unfold kvs.
    repeat (constructor;
      [split; [apply bracket_free_delim_free|split];
       apply (bool_decide_eq_true_1 _); vm_compute; reflexivity|]).
    constructor. }
  assert (H3 : [Py.LF] = [Py.LF] \/ [Py.LF] = [Py.CR; Py.LF]) by (left; reflexivity).
  assert (H4 : Py.decode_utf8 (inbox c) = Some (property_lines [Py.LF] kvs))
    by reflexivity.
  exact (conj H1 (conj H2 (conj H3 (conj H4
    (proj1 (get_properties_round_trip c kvs [Py.LF] H1 H2 H3 H4)))))).
Defined.

End PropertiesFacts.

(* ===================================================================== *)
(** ** More on [shell], the raw channels and the scoped commands *)
(* ===================================================================== *)

Module MoreShellFacts.
Import Conn Transport Commands Samples ShellFacts.
Local Open Scope conn_scope.

(** Bytes below 128 decode to themselves. *)
Lemma utf8_points_ascii bs :
  Forall (fun b => b < 128) bs -> Py.utf8_points bs = Some bs.
Proof.
  induction 1 as [|b bs Hb _ IH]; [done|].
  cbn [Py.utf8_points]. apply N.ltb_lt in Hb as ->. by rewrite IH.
Qed.

(** X1: without a handler, on a stream that ends in order, [shell] reads
    the stream to its end and closes the connection, whether the output
    decodes or not: it returns the decoded output, or raises
    [UnicodeDecodeError] with the connection closed already; output of
    ASCII bytes always decodes, to the same characters. *)
Theorem shell_returns_decoded_output cmd c (Hfault : fault c = false) :
  snd (shell cmd None c)
  = {| sent := sent c ++ [Py.str "shell:" ++ cmd]; inbox := [];
       pieces := []; fault := false; replies := replies c; closed := true |}
  /\ (forall t, Py.decode_utf8 (inbox c) = Some t ->
      fst (shell cmd None c) = Return (Some t))
  /\ (Py.decode_utf8 (inbox c) = None ->
      fst (shell cmd None c) = Raise UnicodeDecodeError)
  /\ (Forall (fun b => Byte.to_N b < 128) (inbox c) ->
      fst (shell cmd None c) = Return (Some (map Byte.to_N (inbox c)))).
Proof.
  rewrite shell_unfold, Hfault. cbv zeta.
  assert (Ha : Forall (fun b => Byte.to_N b < 128) (inbox c) ->
               Py.decode_utf8 (inbox c) = Some (map Byte.to_N (inbox c))).
  { intros H. apply utf8_points_ascii. by apply Forall_map. }
  destruct (Py.decode_utf8 (inbox c)) as [t|] eqn:Hd; cbn; repeat split;
    try done.
  - by intros t' [= ->].
  - intros H. specialize (Ha H). by simplify_eq.
  - intros H. specialize (Ha H). by simplify_eq.
Qed.

Lemma shell_returns_decoded_output_witness :
  let c := answering "ok" in
  fault c = false
  /\ closed (snd (shell (Py.str "echo ok") None c)) = true
  /\ fst (shell (Py.str "echo ok") None c) = Return (Some (Py.str "ok")).
Proof.
  intros c.
  assert (H1 : fault c = false) by reflexivity.
  destruct (shell_returns_decoded_output (Py.str "echo ok") c H1)
    as (Hs & Ht & _).
  exact (conj H1 (conj (f_equal closed Hs) (Ht (Py.str "ok") eq_refl))).
Defined.



End MoreShellFacts.

(* ===================================================================== *)
(** ** More on the frames of [shell_v2] *)
(* ===================================================================== *)

Module FrameFacts.
Import Conn Transport Commands Samples Wire WireFacts ShellV2.
Local Open Scope conn_scope.

(** Taking an unused frame out of the frames does not change what the
    [if]/[elif] chain makes of them. *)
Lemma absorb_unused sep f fs' fs : forall v,
  unused (Byte.to_N (fid f)) ->
  absorb sep v (fs ++ f :: fs') = absorb sep v (fs ++ fs').
Proof.
  induction fs as [|f1 fs IH]; intros v [Ho He]; cbn [app absorb].
  - by rewrite dispatch_other.
  - destruct (dispatch_cases sep v (Byte.to_N (fid f1)) (payload f1) (fresh []))
      as [[v' ->]| ->]; [|done].
    by apply IH.
Qed.

(** X12: a frame whose id is none of STDOUT, STDERR and EXIT can be taken
    out of the stream, wherever it stands, without any change to what
    [shell_v2] returns or raises, when no piece of either stream ends
    inside a length or a payload. *)
Theorem shell_v2_ignores_unused_frames cmd sep c c' fs f fs' tail tail'
    (Hfs : Forall fits (fs ++ fs')) (Hf : fits f)
    (Hid : unused (Byte.to_N (fid f)))
    (Hfault : fault c = false) (Hfault' : fault c' = false)
    (Hin : inbox c = wire (fs ++ f :: fs') ++ tail)
    (Hin' : inbox c' = wire (fs ++ fs') ++ tail')
    (Htail : truncated tail = true) (Htail' : truncated tail' = true)
    (Hwhole : unsplit (fs ++ f :: fs') (pieces c))
    (Hwhole' : unsplit (fs ++ fs') (pieces c')) :
  fst (shell_v2 cmd None sep c) = fst (shell_v2 cmd None sep c').
Proof.
  assert (Hall : Forall fits (fs ++ f :: fs')).
  { apply Forall_app in Hfs as [H1 H2]. apply Forall_app. split; [done|].
    by constructor. }
  rewrite (shell_v2_taken cmd sep c _ tail Hall Hfault Hin Htail).
  rewrite (shell_v2_taken cmd sep c' _ tail' Hfs Hfault' Hin' Htail').
  rewrite (taken_unsplit _ _ Hwhole), (taken_unsplit _ _ Hwhole').
  by rewrite absorb_unused.
Qed.

Lemma by_field_unsplit :
  unsplit ([mk ShellProtocolTypes.STDOUT (Py.ascii_bytes "A")]
           ++ mk 77 (Py.ascii_bytes "junk")
           :: [mk ShellProtocolTypes.EXIT [Byte.x07]])
    [1%positive; 4%positive; 1%positive; 5%positive; 4%positive].
Proof.
  intros x Hx. left. cbn in Hx |- *.
  repeat (apply elem_of_cons in Hx as [->|Hx];
          [apply (bool_decide_eq_true_1 _); vm_compute; reflexivity|]).
  by apply elem_of_nil in Hx.
Qed.

Lemma shell_v2_ignores_unused_frames_witness :
  let fs := [mk ShellProtocolTypes.STDOUT (Py.ascii_bytes "A")] in
  let f := mk 77 (Py.ascii_bytes "junk") in
  let fs' := [mk ShellProtocolTypes.EXIT [Byte.x07]] in
  let c := arriving (wire (fs ++ f :: fs'))
             [1%positive; 4%positive; 1%positive; 5%positive; 4%positive] in
  let c' := fresh (wire (fs ++ fs')) in
  Forall fits (fs ++ fs') /\ fits f /\ unused (Byte.to_N (fid f))
  /\ fault c = false /\ fault c' = false
  /\ inbox c = wire (fs ++ f :: fs') ++ []
  /\ inbox c' = wire (fs ++ fs') ++ []
  /\ truncated [] = true
  /\ unsplit (fs ++ f :: fs') (pieces c) /\ unsplit (fs ++ fs') (pieces c')
  /\ fst (shell_v2 (Py.str "ls") None false c)
     = fst (shell_v2 (Py.str "ls") None false c').
Proof.
  intros fs f fs' c c'.
  assert (H1 : Forall fits (fs ++ fs')) by (repeat constructor; reflexivity).
  assert (H2 : fits f) by reflexivity.
  assert (H3 : unused (Byte.to_N (fid f))) by (split; [reflexivity|discriminate]).
  assert (H4 : fault c = false) by reflexivity.
  assert (H5 : fault c' = false) by reflexivity.
  assert (H6 : inbox c = wire (fs ++ f :: fs') ++ []) by reflexivity.
  assert (H7 : inbox c' = wire (fs ++ fs') ++ []) by reflexivity.
  assert (H8 : truncated [] = true) by reflexivity.
  assert (H9 : unsplit (fs ++ f :: fs') (pieces c)) by apply by_field_unsplit.
  assert (H10 : unsplit (fs ++ fs') (pieces c')) by apply unsplit_nil.
  exact (conj H1 (conj H2 (conj H3 (conj H4 (conj H5 (conj H6 (conj H7 (conj H8
    (conj H9 (conj H10
      (shell_v2_ignores_unused_frames (Py.str "ls") false c c' fs f fs' [] []
         H1 H2 H3 H4 H5 H6 H7 H8 H8 H9 H10))))))))))).
Defined.

(** The merged output is a rearrangement of the two separate outputs. *)
Lemma gather_split fs both :
  gather is_output fs = Some both ->
  exists out err,
    gather is_stdout fs = Some out /\ gather is_stderr fs = Some err
    /\ both ≡ₚ out ++ err.
Proof.
  revert both. induction fs as [|f fs IH]; intros both Hg.
  { cbn in Hg. simplify_eq. by exists [], []. }
  cbn [gather] in *. unfold is_output in Hg.
  destruct (is_stdout (Byte.to_N (fid f))) eqn:Ho.
  - assert (is_stderr (Byte.to_N (fid f)) = false) as ->.
    { unfold is_stdout, is_stderr in *. apply N.eqb_eq in Ho. by rewrite Ho. }
    cbn [orb] in Hg.
    destruct (Py.decode_utf8 (payload f)) as [t|]; [|done].
    destruct (gather (fun id => is_stdout id || is_stderr id) fs) as [ts|] eqn:Hgs;
      [|done].
    destruct (IH ts Hgs) as (out & err & -> & -> & Hp). simplify_eq.
    exists (t ++ out), err. repeat split. by rewrite Hp, app_assoc.
  - cbn [orb] in Hg. destruct (is_stderr (Byte.to_N (fid f))) eqn:He.
    + destruct (Py.decode_utf8 (payload f)) as [t|]; [|done].
      destruct (gather (fun id => is_stdout id || is_stderr id) fs) as [ts|] eqn:Hgs;
        [|done].
      destruct (IH ts Hgs) as (out & err & -> & -> & Hp). simplify_eq.
      exists out, (t ++ err). repeat split.
      rewrite Hp. apply Permutation_app_swap_app.
    + by apply IH.
Qed.

(** X13: the two modes of [shell_v2] agree on a stream of which the same
    frames arrive whole: when both return, the exit codes are equal, and
    the merged output is a rearrangement of the standard output followed
    by the standard error, so has as many characters as the two
    together. *)
Theorem shell_v2_modes_agree cmd c c' fs tail tail' both code out err code'
    (Hfits : Forall fits fs)
    (Hfault : fault c = false) (Hfault' : fault c' = false)
    (Hin : inbox c = wire fs ++ tail) (Hin' : inbox c' = wire fs ++ tail')
    (Htail : truncated tail = true) (Htail' : truncated tail' = true)
    (Hsame : taken fs (pieces c') = taken fs (pieces c))
    (Hmerged : fst (shell_v2 cmd None false c)
               = Return (Some (Merged both code)))
    (Hseparate : fst (shell_v2 cmd None true c')
                 = Return (Some (Separate out err code'))) :
  code = code' /\ both ≡ₚ out ++ err
  /\ length both = (length out + length err)%nat.
Proof.
  destruct (gather is_output (taken fs (pieces c))) as [t|] eqn:Hg.
  - destruct (gather_split _ t Hg) as (o & e & Ho & He & Hp).
    rewrite (shell_v2_merged cmd c fs tail t) in Hmerged by done.
    rewrite <- Hsame in Ho, He.
    rewrite (shell_v2_separate cmd c' fs tail' o e) in Hseparate by done.
    rewrite Hsame in Hseparate.
    simplify_eq. repeat split; [done|]. by rewrite Hp, length_app.
  - exfalso. rewrite (shell_v2_taken cmd false c fs tail) in Hmerged by done.
    by rewrite absorb_merged_bad in Hmerged.
Qed.

Lemma shell_v2_modes_agree_witness :
  let fs := a_b_exit [Byte.x00] in
  let c := arriving (wire fs) [6%positive; 6%positive; 6%positive] in
  let c' := fresh (wire fs) in
  Forall fits fs /\ fault c = false /\ fault c' = false
  /\ inbox c = wire fs ++ [] /\ inbox c' = wire fs ++ []
  /\ truncated [] = true
  /\ taken fs (pieces c') = taken fs (pieces c)
  /\ fst (shell_v2 (Py.str "ls") None false c)
     = Return (Some (Merged (Py.str "AB") 0))
  /\ fst (shell_v2 (Py.str "ls") None true c')
     = Return (Some (Separate (Py.str "A") (Py.str "B") 0))
  /\ (0 = 0 /\ Py.str "AB" ≡ₚ Py.str "A" ++ Py.str "B"
      /\ length (Py.str "AB") = (length (Py.str "A") + length (Py.str "B"))%nat).
Proof.
  intros fs c c'.
  assert (H0 : Forall fits fs) by (repeat constructor; reflexivity).
  assert (H1 : fault c = false) by reflexivity.
  assert (H1' : fault c' = false) by reflexivity.
  assert (H2 : inbox c = wire fs ++ []) by reflexivity.
  assert (H2' : inbox c' = wire fs ++ []) by reflexivity.
  assert (H3 : truncated [] = true) by reflexivity.
  assert (H4 : taken fs (pieces c') = taken fs (pieces c)) by reflexivity.
  assert (H5 : fst (shell_v2 (Py.str "ls") None false c)
               = Return (Some (Merged (Py.str "AB") 0))) by reflexivity.
  assert (H6 : fst (shell_v2 (Py.str "ls") None true c')
               = Return (Some (Separate (Py.str "A") (Py.str "B") 0)))
    by reflexivity.
  exact (conj H0 (conj H1 (conj H1' (conj H2 (conj H2' (conj H3 (conj H4
    (conj H5 (conj H6
      (shell_v2_modes_agree (Py.str "ls") c c' fs [] [] _ _ _ _ _
         H0 H1 H1' H2 H2' H3 H3 H4 H5 H6)))))))))).
Defined.

(** X14: the exit code [shell_v2] returns, with merged output and with
    separate streams, is the payload of the last EXIT frame, read as a
    little-endian number, and the loop does not stop there: the output
    frames that follow it are appended as well. *)
Theorem shell_v2_exit_is_last_exit_frame cmd c before code after tail
    out1 out2
    (Hfault : fault c = false)
    (Hfits : Forall fits (before ++ after))
    (Hcode : Py.len code < 4294967296)
    (Hin : inbox c
           = wire (before ++ mk ShellProtocolTypes.EXIT code :: after) ++ tail)
    (Htail : truncated tail = true)
    (Hwhole : unsplit (before ++ mk ShellProtocolTypes.EXIT code :: after)
                (pieces c))
    (Hlast : has_exit after = false)
    (Hout1 : gather is_output before = Some out1)
    (Hout2 : gather is_output after = Some out2) :
  fst (shell_v2 cmd None false c)
  = Return (Some (Merged (out1 ++ out2) (Py.int_from_bytes_little code)))
  /\ exists out err,
       gather is_stdout (before ++ after) = Some out
       /\ gather is_stderr (before ++ after) = Some err
       /\ fst (shell_v2 cmd None true c)
          = Return (Some (Separate out err (Py.int_from_bytes_little code))).
Proof.
  set (fs := before ++ mk ShellProtocolTypes.EXIT code :: after) in *.
  assert (Hall : Forall fits fs).
  { apply Forall_app in Hfits as [Hb Ha]. apply Forall_app. split; [done|].
    by constructor. }
  pose proof (taken_unsplit _ _ Hwhole) as Htk.
  assert (Hexit : exit_after 255 fs = Py.int_from_bytes_little code).
  { unfold fs. rewrite exit_after_app. cbn [exit_after].
    change (Byte.to_N (fid (mk ShellProtocolTypes.EXIT code))
            =? ShellProtocolTypes.EXIT) with true.
    cbv iota. cbn [payload mk]. by rewrite exit_after_no_exit. }
  assert (Hskip : forall want, want ShellProtocolTypes.EXIT = false ->
            gather want fs = gather want (before ++ after)).
  { intros want Hw. unfold fs. by rewrite gather_skip. }
  assert (Hboth : gather is_output (before ++ after) = Some (out1 ++ out2)).
  { by rewrite gather_app, Hout1, Hout2. }
  destruct (gather_split _ _ Hboth) as (out & err & Ho & He & _).
  split.
  - rewrite (shell_v2_merged cmd c fs tail (out1 ++ out2)); rewrite ?Htk; try done.
    + by rewrite Hexit.
    + by rewrite Hskip.
  - exists out, err. split; [done|]. split; [done|].
    rewrite (shell_v2_separate cmd c fs tail out err); rewrite ?Htk; try done.
    + by rewrite Hexit.
    + by rewrite Hskip.
    + by rewrite Hskip.
Qed.

Lemma shell_v2_exit_is_last_exit_frame_witness :
  let before := [mk ShellProtocolTypes.EXIT [Byte.x01];
                 mk ShellProtocolTypes.STDOUT (Py.ascii_bytes "A")] in
  let code := [Byte.x02; Byte.x01] in
  let after := [mk ShellProtocolTypes.STDERR (Py.ascii_bytes "B")] in
  let c := fresh (wire (before ++ mk ShellProtocolTypes.EXIT code :: after)) in
  fault c = false /\ Forall fits (before ++ after)
  /\ Py.len code < 4294967296
  /\ inbox c = wire (before ++ mk ShellProtocolTypes.EXIT code :: after) ++ []
  /\ truncated [] = true
  /\ unsplit (before ++ mk ShellProtocolTypes.EXIT code :: after) (pieces c)
  /\ has_exit after = false
  /\ gather is_output before = Some (Py.str "A")
  /\ gather is_output after = Some (Py.str "B")
  /\ fst (shell_v2 (Py.str "ls") None false c)
     = Return (Some (Merged (Py.str "AB") 258)).
Proof.
  intros before code after c.
  assert (H1 : fault c = false) by reflexivity.
  assert (H2 : Forall fits (before ++ after)) by (repeat constructor; reflexivity).
  assert (H3 : Py.len code < 4294967296) by reflexivity.
  assert (H4 : inbox c
               = wire (before ++ mk ShellProtocolTypes.EXIT code :: after) ++ [])
    by reflexivity.
  assert (H5 : truncated [] = true) by reflexivity.
  assert (Hw : unsplit (before ++ mk ShellProtocolTypes.EXIT code :: after)
                 (pieces c)) by apply unsplit_nil.
  assert (H6 : has_exit after = false) by reflexivity.
  assert (H7 : gather is_output before = Some (Py.str "A")) by reflexivity.
  assert (H8 : gather is_output after = Some (Py.str "B")) by reflexivity.
  exact (conj H1 (conj H2 (conj H3 (conj H4 (conj H5 (conj Hw (conj H6 (conj H7
    (conj H8
      (proj1 (shell_v2_exit_is_last_exit_frame (Py.str "ls") c before code after []
                (Py.str "A") (Py.str "B") H1 H2 H3 H4 H5 Hw H6 H7 H8))))))))))).
Defined.

End FrameFacts.

(* ===================================================================== *)
(** ** More on the boot-readiness poller *)
(* ===================================================================== *)

Module MorePollerFacts.
Import Conn Poller PollerFacts Samples.
Local Open Scope Q_scope.


Ltac tidy_world :=
  cbn [now calls naps log asked looked shell_call time_time time_sleep
       logger_warning fst snd] in *.







(** The loop after [k] queries that failed with a [RuntimeError]: it
    has only asked and warned. *)
Lemma wait_loop_after_failures dev end_time timedelta k : forall fuel w,
  (forall i, (i < k)%nat ->
     exists e, answer dev (calls w + i) = Raise e /\ is_RuntimeError e = true) ->
  exists w1 events,
    wait_loop (k + fuel) dev end_time timedelta w
    = wait_loop fuel dev end_time timedelta w1
    /\ calls w1 = (calls w + k)%nat /\ naps w1 = naps w
    /\ log w1 = log w ++ events
    /\ Forall (fun e => is_retry e = true) events.
Proof.
  induction k as [|k IH]; intros fuel w Hfail.
  { exists w, []. rewrite app_nil_r, Nat.add_0_r.
    repeat split; done. }
  destruct (Hfail 0%nat ltac:(lia)) as (e & Ha & He).
  rewrite Nat.add_0_r in Ha.
  change (S k + fuel)%nat with (S (k + fuel)).
  cbn [wait_loop]. unfold shell_call. rewrite Ha, He.
  destruct (IH fuel (logger_warning e
                  {| now := now w + latency dev (calls w); calls := S (calls w);
                     naps := naps w; log := log w ++ [Query cmd] |}))
    as (w1 & events & Hrun & Hc & Hn & Hl & Hq).
  { intros i Hi. cbn [calls logger_warning].
    replace (S (calls w) + i)%nat with (calls w + S i)%nat by lia.
    apply Hfail. lia. }
  exists w1, (Query cmd :: Warning e :: events).
  rewrite Hrun. tidy_world. repeat split; try done.
  - lia.
  - rewrite Hl, <- !app_assoc. done.
  - by repeat constructor.
Qed.


(** X16: [wait_boot_complete] returns [True] at the first answer whose
    stripped text is "1", through any number of queries that failed with
    a [RuntimeError] before it: it has not slept and has not looked at
    the clock since entry, so the timeout plays no part. *)
Theorem wait_boot_complete_returns_when_ready dev timeout timedelta w k
    result fuel
    (Hfail : forall i, (i < k)%nat ->
       exists e, answer dev (calls w + i) = Raise e /\ is_RuntimeError e = true)
    (Hready : answer dev (calls w + k) = Return (Some result))
    (Hstrip : Py.strip result = Py.str "1")
    (Hfuel : (k < fuel)%nat) :
  exists w' events,
    wait_boot_complete fuel dev timeout timedelta w = (Return true, w')
    /\ calls w' = (calls w + S k)%nat
    /\ naps w' = naps w
    /\ log w' = log w ++ Clock (now w) :: events
    /\ Forall (fun e => is_retry e = true) events.
Proof.
  unfold wait_boot_complete, time_time.
  replace fuel with (k + S (fuel - S k))%nat by lia.
  destruct (wait_loop_after_failures dev (now w + timeout) timedelta k
              (S (fuel - S k))
              {| now := now w; calls := calls w; naps := naps w;
                 log := log w ++ [Clock (now w)] |} Hfail)
    as (w1 & events & -> & Hc & Hn & Hl & Hq).
  cbn [calls naps log] in Hc, Hn, Hl.
  cbn [wait_loop]. unfold shell_call. rewrite Hc, Hready.
  rewrite bool_decide_eq_true_2 by done.
  eexists _, (events ++ [Query cmd]). split; [done|]. cbn [calls naps log].
  repeat split; [lia|done| |].
  - by rewrite Hl, <- !app_assoc.
  - apply Forall_app. split; [done|]. by repeat constructor.
Qed.

Lemma wait_boot_complete_returns_when_ready_witness :
  (forall i, (i < 2)%nat ->
     exists e, answer waking (calls start + i) = Raise e
               /\ is_RuntimeError e = true)
  /\ answer waking (calls start + 2) = Return (Some (Py.str "1" ++ [Py.LF]))
  /\ Py.strip (Py.str "1" ++ [Py.LF]) = Py.str "1"
  /\ (2 < 3)%nat
  /\ exists w' events,
       wait_boot_complete 3 waking 0 1 start = (Return true, w')
       /\ calls w' = (calls start + 3)%nat
       /\ naps w' = naps start
       /\ log w' = log start ++ Clock (now start) :: events
       /\ Forall (fun e => is_retry e = true) events.
Proof.
  assert (H1 : forall i, (i < 2)%nat ->
             exists e, answer waking (calls start + i) = Raise e
                       /\ is_RuntimeError e = true).
  { intros i Hi. exists (RuntimeError (Py.str "device offline")).
    destruct i as [|[|i]]; [split; reflexivity..|lia]. }
  assert (H2 : answer waking (calls start + 2)
               = Return (Some (Py.str "1" ++ [Py.LF]))) by reflexivity.
  assert (H3 : Py.strip (Py.str "1" ++ [Py.LF]) = Py.str "1") by reflexivity.
  assert (H4 : (2 < 3)%nat) by lia.
  exact (conj H1 (conj H2 (conj H3 (conj H4
    (wait_boot_complete_returns_when_ready waking 0 1 start 2
       (Py.str "1" ++ [Py.LF]) 3 H1 H2 H3 H4))))).
Defined.

(** A loop that is still running after [k] rounds goes on from where it
    is. *)
Lemma wait_loop_resume dev end_time timedelta
    (Hends : forall n, answer dev n <> Unfinished) k : forall fuel w w1,
  wait_loop k dev end_time timedelta w = (Unfinished, w1) ->
  wait_loop (k + fuel) dev end_time timedelta w
  = wait_loop fuel dev end_time timedelta w1.
Proof.
  induction k as [|k IH]; intros fuel w w1 Hrun.
  { cbn in Hrun. by injection Hrun as ->. }
  change (S k + fuel)%nat with (S (k + fuel)).
  cbn [wait_loop] in *. unfold shell_call in *.
  pose proof (Hends (calls w)) as Hend.
  destruct (answer dev (calls w)) as [[result|]|e|]; try done.
  - destruct (bool_decide _); [done|]. unfold time_time in *.
    destruct (Qlt_le_dec end_time _); [done|].
    destruct (Qlt_le_dec 0 timedelta); by apply IH.
  - destruct (is_RuntimeError e); [by apply IH|done].
Qed.

(** X17: an exception of a query that is not a [RuntimeError] ends
    [wait_boot_complete] at that query and reaches the caller as it is,
    whatever the timeout and whatever the rounds before it were (failed
    queries, answers that were not ready, sleeps): after the query nothing
    is logged, the clock is not read and the call does not sleep. *)
Theorem wait_boot_complete_propagates_other_errors dev timeout timedelta w k
    w1 e fuel
    (Hends : forall n, answer dev n <> Unfinished)
    (Hrun : wait_boot_complete k dev timeout timedelta w = (Unfinished, w1))
    (Hraise : answer dev (calls w1) = Raise e)
    (Hother : is_RuntimeError e = false) :
  wait_boot_complete (k + S fuel) dev timeout timedelta w
  = (Raise e,
     {| now := now w1 + latency dev (calls w1); calls := S (calls w1);
        naps := naps w1; log := log w1 ++ [Query cmd] |}).
Proof.
  unfold wait_boot_complete, time_time in *.
  rewrite (wait_loop_resume dev _ timedelta Hends k (S fuel) _ w1 Hrun).
  cbn [wait_loop]. unfold shell_call. by rewrite Hraise, Hother.
Qed.

Lemma wait_boot_complete_propagates_other_errors_witness :
  let w1 := {| now := 1; calls := 1; naps := 1;
               log := [Clock 0; Query cmd; Clock 0; Sleep 1] |} in
  (forall n, answer dropping n <> Unfinished)
  /\ wait_boot_complete 1 dropping 60 1 start = (Unfinished, w1)
  /\ answer dropping (calls w1) = Raise OSError
  /\ is_RuntimeError OSError = false
  /\ wait_boot_complete 2 dropping 60 1 start
     = (Raise OSError,
        {| now := 1; calls := 2; naps := 1;
           log := [Clock 0; Query cmd; Clock 0; Sleep 1; Query cmd] |}).
Proof.
  intros w1.
  assert (H1 : forall n, answer dropping n <> Unfinished).
  { intros n. unfold dropping. cbn [answer]. destruct (n <? 1)%nat; discriminate. }
  assert (H2 : wait_boot_complete 1 dropping 60 1 start = (Unfinished, w1))
    by reflexivity.
  assert (H3 : answer dropping (calls w1) = Raise OSError) by reflexivity.
  assert (H4 : is_RuntimeError OSError = false) by reflexivity.
  exact (conj H1 (conj H2 (conj H3 (conj H4
    (wait_boot_complete_propagates_other_errors dropping 60 1 start 1 w1
       OSError 0 H1 H2 H3 H4))))).
Defined.

Lemma wait_loop_never_sleeps dev end_time timedelta (Hd : timedelta <= 0)
    fuel : forall w,
  naps (snd (wait_loop fuel dev end_time timedelta w)) = naps w.
Proof.
  induction fuel as [|fuel IH]; intros w; [done|].
  cbn [wait_loop]. unfold shell_call.
  destruct (answer dev (calls w)) as [[result|]|e|]; try done.
  - destruct (bool_decide _); [done|]. unfold time_time.
    destruct (Qlt_le_dec end_time _); [done|].
    destruct (Qlt_le_dec 0 timedelta); [lra|]. by rewrite IH.
  - destruct (is_RuntimeError e); [|done]. by rewrite IH.
Qed.

(** X18: with an interval that is not positive, [wait_boot_complete] never
    sleeps: it polls without a pause, whatever the device answers. *)
Theorem wait_boot_complete_without_interval dev timeout timedelta fuel w
    (Hd : timedelta <= 0) :
  naps (snd (wait_boot_complete fuel dev timeout timedelta w)) = naps w.
Proof.
  unfold wait_boot_complete, time_time.
  by rewrite wait_loop_never_sleeps.
Qed.

Lemma wait_boot_complete_without_interval_witness :
  0 <= 0
  /\ naps (snd (wait_boot_complete 5 slow 7 0 start)) = naps start.
Proof.
  assert (H : 0 <= 0) by lra.
  exact (conj H (wait_boot_complete_without_interval slow 7 0 5 start H)).
Defined.

End MorePollerFacts.

(* ===================================================================== *)
(** ** What [get_properties] never does *)
(* ===================================================================== *)

Module PropertiesSound.
Import Conn Transport Commands Samples Lines ParserFacts ShellFacts PropertiesFacts.
Local Open Scope conn_scope.

(** A lazy star that matches hands some rest of the input to what
    follows it. *)
Lemma rx_lazy_some cls g k m : forall s,
  Rx.run (Rx.Lazy cls) s g k = Some m ->
  exists pre s', s = pre ++ s' /\ k s' g = Some m.
Proof.
  induction s as [|c s IH]; rewrite rx_lazy.
  - destruct (k [] g) eqn:Hk; [|done]. intros [= ->]. by exists [], [].
  - destruct (k (c :: s) g) eqn:Hk.
    + intros [= ->]. by exists [], (c :: s).
    + destruct (cls c); [|done]. intros Hr.
      destruct (IH Hr) as (pre & s' & -> & Hk'). by exists (c :: pre), s'.
Qed.

(** Every match of the pattern of [get_properties] spells its key and
    its value. *)
Lemma match_property_inv line m :
  Rx.match_ properties_pattern line = Some m ->
  exists key value e,
    line = property_line (key, value) ++ e /\ ends_line e = true
    /\ m = <[2%nat := value]> (<[1%nat := key]> ∅).
Proof.
  change (Rx.match_ properties_pattern line)
    with (match Py.strip_prefix (Py.str "[") line with
          | Some s =>
              Rx.run (Rx.Lazy Rx.any) s ∅
                (fun s' g' =>
                   Rx.run after_key s'
                     (<[1%nat := take (length s - length s') s]> g') accept)
          | None => None
          end).
  destruct (Py.strip_prefix (Py.str "[") line) as [body|] eqn:Hb; [|done].
  apply PyFacts.strip_prefix_spec in Hb. subst line. intros Hr.
  apply rx_lazy_some in Hr as (key & s1 & -> & Hr).
  rewrite length_app, Nat.add_sub, take_app_length in Hr.
  change (Rx.run after_key s1 (<[1%nat := key]> ∅) accept)
    with (match Py.strip_prefix DELIM s1 with
          | Some s2 =>
              Rx.run (Rx.Lazy Rx.any) s2 (<[1%nat := key]> ∅)
                (fun s'' g' =>
                   Rx.run value_close s''
                     (<[2%nat := take (length s2 - length s'') s2]> g') accept)
          | None => None
          end) in Hr.
  destruct (Py.strip_prefix DELIM s1) as [s2|] eqn:Hd; [|done].
  apply PyFacts.strip_prefix_spec in Hd. subst s1.
  apply rx_lazy_some in Hr as (value & s3 & -> & Hr).
  rewrite length_app, Nat.add_sub, take_app_length in Hr.
  rewrite rx_value_close in Hr. destruct s3 as [|c e]; [done|].
  destruct (N.eqb_spec c 93) as [->|]; [|done].
  destruct (ends_line e) eqn:He; [|done]. cbn in Hr. simplify_eq.
  exists key, value, e. repeat split; [|done].
  unfold property_line. cbn [fst snd]. by rewrite <- !app_assoc.
Qed.

(** X19: [get_properties] makes an entry only of a line that spells it:
    whatever a line adds to the dictionary, it adds as [key -> value] for
    a key and a value such that the line is [[key]: [value]] up to its
    ending; every other line leaves the dictionary as it is. *)
Theorem get_properties_entries_are_spelled properties line :
  add_property properties line = properties
  \/ exists key value e,
       line = property_line (key, value) ++ e /\ ends_line e = true
       /\ add_property properties line = <[key := value]> properties.
Proof.
  unfold add_property.
  destruct (Rx.match_ properties_pattern line) as [m|] eqn:Hm; [|by left].
  apply match_property_inv in Hm as (key & value & e & -> & He & ->).
  right. by exists key, value, e.
Qed.

End PropertiesSound.
